(** * mist.io changelog tool: the Markdown changelog parser and serializer

    A shallow embedding of [changelog.py]: the text normalisation
    [crop_line_padding], the classes [Changelog], [Version] and [Change] with
    their [from_string] / [to_string] methods, and the fragment of Python's
    [re] module those methods rely on.

    A second part embeds the command line of the tool: the prompts
    [prompt_string] and [prompt_boolean], the function [get_mrs] that lists
    merge requests, and the [to_dict] methods.

    Python 2 byte strings are lists of [ascii]; Python integers are [Z], an
    [int] being a [Z] that fits a machine word (anything larger is a [long]);
    a raised exception is a value of [exn] carried by [result]. *)

From Stdlib Require Import List Ascii ZArith Lia Bool Arith.
From Stdlib Require String.
From Stdlib Require Import DecimalZ DecimalPos DecimalN.
Import ListNotations.
Import String.StringSyntax.
Delimit Scope string_scope with string.
Bind Scope string_scope with String.string.

Local Open Scope char_scope.
Local Open Scope list_scope.

(** ** Byte strings *)

Definition str := list ascii.

(** A Python string literal. *)
Definition lit (s : String.string) : str := String.list_ascii_of_string s.

Definition LF : ascii := "010".
Definition CR : ascii := "013".

Definition str_eqb (a b : str) : bool :=
  if list_eq_dec ascii_dec a b then true else false.

(** [bool(s)] for a string: non-empty. *)
Definition truthy (s : str) : bool :=
  match s with [] => false | _ :: _ => true end.

(** [c.isspace()] for a byte in the C locale; also the class [\s] of [re]. *)
Definition is_space (c : ascii) : bool :=
  match nat_of_ascii c with
  | 9 | 10 | 11 | 12 | 13 | 32 => true
  | _ => false
  end.

(** The class [\d] of [re], which is [[0-9]]. *)
Definition is_digit (c : ascii) : bool :=
  (48 <=? nat_of_ascii c)%nat && (nat_of_ascii c <=? 57)%nat.

Definition is_upper (c : ascii) : bool :=
  (65 <=? nat_of_ascii c)%nat && (nat_of_ascii c <=? 90)%nat.

Definition is_lower (c : ascii) : bool :=
  (97 <=? nat_of_ascii c)%nat && (nat_of_ascii c <=? 122)%nat.

Definition lower_char (c : ascii) : ascii :=
  if is_upper c then ascii_of_nat (nat_of_ascii c + 32) else c.

Definition upper_char (c : ascii) : ascii :=
  if is_lower c then ascii_of_nat (nat_of_ascii c - 32) else c.

(** [s.lower()]. *)
Definition lower (s : str) : str := map lower_char s.

(** [s.capitalize()]: first byte upper-cased, the others lower-cased. *)
Definition capitalize (s : str) : str :=
  match s with
  | [] => []
  | c :: s' => upper_char c :: lower s'
  end.

(** [s.lstrip()]. *)
Fixpoint lstrip (s : str) : str :=
  match s with
  | c :: s' => if is_space c then lstrip s' else s
  | [] => []
  end.

(** [s.rstrip()]. *)
Definition rstrip (s : str) : str := rev (lstrip (rev s)).

(** [s.strip()]. *)
Definition strip (s : str) : str := rstrip (lstrip s).

(** [s.splitlines()] on a byte string: lines end at LF, CR or CR LF, and the
    line breaks are not kept; [cur] holds the bytes of the line being read,
    last byte first. *)
Fixpoint splitlines_from (cur : str) (s : str) : list str :=
  match s with
  | [] => match cur with [] => [] | _ :: _ => [rev cur] end
  | c :: s' =>
      if ascii_dec c LF then rev cur :: splitlines_from [] s'
      else if ascii_dec c CR then
        match s' with
        | c' :: s'' =>
            if ascii_dec c' LF then rev cur :: splitlines_from [] s''
            else rev cur :: splitlines_from [] s'
        | [] => [rev cur]
        end
      else splitlines_from (c :: cur) s'
  end.

Definition splitlines (s : str) : list str := splitlines_from [] s.

(** [sep.join(parts)]. *)
Fixpoint join (sep : str) (parts : list str) : str :=
  match parts with
  | [] => []
  | [p] => p
  | p :: ps => p ++ sep ++ join sep ps
  end.

(** ** Integers *)

(** [sys.maxint] of a 64-bit CPython 2. *)
Definition sys_maxint : Z := 2 ^ 63 - 1.

(** [isinstance(z, int)]: Python 2 keeps a number that does not fit a machine
    word as a [long], which is not an [int]. *)
Definition isinstance_int (z : Z) : bool :=
  (- sys_maxint - 1 <=? z)%Z && (z <=? sys_maxint)%Z.

Fixpoint chars_of_uint (u : Decimal.uint) : str :=
  match u with
  | Decimal.Nil => []
  | Decimal.D0 u => "0" :: chars_of_uint u
  | Decimal.D1 u => "1" :: chars_of_uint u
  | Decimal.D2 u => "2" :: chars_of_uint u
  | Decimal.D3 u => "3" :: chars_of_uint u
  | Decimal.D4 u => "4" :: chars_of_uint u
  | Decimal.D5 u => "5" :: chars_of_uint u
  | Decimal.D6 u => "6" :: chars_of_uint u
  | Decimal.D7 u => "7" :: chars_of_uint u
  | Decimal.D8 u => "8" :: chars_of_uint u
  | Decimal.D9 u => "9" :: chars_of_uint u
  end.

Fixpoint uint_of_chars (s : str) : option Decimal.uint :=
  match s with
  | [] => Some Decimal.Nil
  | c :: s' =>
      match uint_of_chars s' with
      | None => None
      | Some u =>
          match nat_of_ascii c with
          | 48 => Some (Decimal.D0 u)
          | 49 => Some (Decimal.D1 u)
          | 50 => Some (Decimal.D2 u)
          | 51 => Some (Decimal.D3 u)
          | 52 => Some (Decimal.D4 u)
          | 53 => Some (Decimal.D5 u)
          | 54 => Some (Decimal.D6 u)
          | 55 => Some (Decimal.D7 u)
          | 56 => Some (Decimal.D8 u)
          | 57 => Some (Decimal.D9 u)
          | _ => None
          end
      end
  end.

(** [str(z)], which is also ['%s' % z] and ['%d' % z]: decimal digits, with a
    minus sign when negative. *)
Definition str_of_int (z : Z) : str :=
  match Z.to_int z with
  | Decimal.Pos u => chars_of_uint u
  | Decimal.Neg u => "-" :: chars_of_uint u
  end.

(** [int(s)] on a string of decimal digits, the only strings the code passes
    to it (captures of [\d+] and [[0-9]+]); [None] stands for the
    [ValueError] Python raises on the empty string or on another byte. *)
Definition int_of_str (s : str) : option Z :=
  match s with
  | [] => None
  | _ :: _ => option_map Z.of_uint (uint_of_chars s)
  end.

(** ** Exceptions *)

(** The argument of an exception: the code asserts with a formatted string,
    with the month string, with the year integer, or with nothing. *)
Inductive pyval : Type :=
  | PStr (s : str)
  | PInt (z : Z).

Inductive exn : Type :=
  | AssertionError (arg : option pyval)
  | IndexError                    (* lines[0] of an empty list *)
  | UnboundLocalError             (* a loop variable read before any iteration *)
  | ValueError                    (* int() of something that is no number *)
  | TypeError                     (* None where a string is needed *)
  | AttributeError.               (* a method of None *)

Inductive result (A : Type) : Type :=
  | Ok (a : A)
  | Raise (e : exn).

Arguments Ok {A} a.
Arguments Raise {A} e.

Definition bind {A B} (r : result A) (f : A -> result B) : result B :=
  match r with
  | Ok a => f a
  | Raise e => Raise e
  end.

Notation "'do' x <- r ; k" := (bind r (fun x => k))
  (at level 10, x name, r at level 100, k at level 200).

(** [assert cond, arg]. *)
Definition assert (cond : bool) (arg : option pyval) : result unit :=
  if cond then Ok tt else Raise (AssertionError arg).

(** Runs [f] over a list, stopping at the first exception. *)
Fixpoint mapM {A B} (f : A -> result B) (l : list A) : result (list B) :=
  match l with
  | [] => Ok []
  | a :: l' => do b <- f a; do bs <- mapM f l'; Ok (b :: bs)
  end.

(** ** [crop_line_padding] *)

(** The index of the first truthy line, as the loops
    [for i, line in enumerate(...): if line: ...; break] find it. *)
Fixpoint first_truthy (lines : list str) : option nat :=
  match lines with
  | [] => None
  | l :: ls => if truthy l then Some 0%nat else option_map S (first_truthy ls)
  end.

(** The function on a list of lines. *)
Definition crop_lines (lines : list str) : list str :=
  let lines := map strip lines in
  let lines :=
    match first_truthy lines with
    | Some i => skipn i lines                       (* lines[i:] *)
    | None => lines
    end in
  match first_truthy (rev lines) with
  | Some i =>                                       (* lines[:-i or len(lines)] *)
      firstn (match i with O => length lines | S _ => length lines - i end) lines
  | None => lines
  end.

(** The argument of [crop_line_padding]: a string or a list of lines. *)
Inductive text : Type :=
  | Text (s : str)
  | Lines (ls : list str).

Definition crop_line_padding (arg : text) : list str :=
  match arg with
  | Text s => crop_lines (splitlines s)
  | Lines ls => crop_lines ls
  end.

(** ** The fragment of Python's [re] the code uses

    Patterns are matched the way [re] does it, by backtracking: alternatives
    from left to right, greedy repetitions from the longest to the shortest,
    lazy ones from the shortest to the longest, and the first way that lets
    the rest of the pattern succeed wins.  Every repetition in the patterns of
    [changelog.py] is over a single character class. *)

Inductive regex : Type :=
  | Eps                           (* the empty pattern *)
  | Never                         (* an alternation of nothing *)
  | Bos                           (* ^ *)
  | Eos                           (* $ *)
  | Chr (c : ascii)               (* a literal byte *)
  | Cls (p : ascii -> bool)       (* a class: \s \d . [...] *)
  | Seq (r1 r2 : regex)           (* r1 r2 *)
  | Alt (r1 r2 : regex)           (* r1|r2 *)
  | Star (p : ascii -> bool)      (* p* *)
  | Plus (p : ascii -> bool)      (* p+ *)
  | StarLazy (p : ascii -> bool)  (* p*? *)
  | Opt (r : regex)               (* r? *)
  | Grp (n : nat) (r : regex).    (* capturing group number n *)

(** The groups captured so far, latest first. *)
Definition groups := list (nat * str).

(** [m.group(n)], [None] when the group took no part in the match. *)
Fixpoint group (g : groups) (n : nat) : option str :=
  match g with
  | [] => None
  | (i, s) :: g' => if Nat.eqb i n then Some s else group g' n
  end.

(** The class [.]: any byte but a newline. *)
Definition dot (c : ascii) : bool := if ascii_dec c LF then false else true.

Definition ascii_eqb (a b : ascii) : bool := if ascii_dec a b then true else false.

(** [[^#]] *)
Definition not_hash (c : ascii) : bool := negb (ascii_eqb c "#").

(** [[\*-]] *)
Definition star_or_dash (c : ascii) : bool := ascii_eqb c "*" || ascii_eqb c "-".

Section Matcher.

(** [re.IGNORECASE] *)
Variable ic : bool.
(** The subject string, which [^] needs. *)
Variable whole : str.
Variable A : Type.

(** Under [re.IGNORECASE] the subject byte is lower-cased before it is
    compared, and so is a literal of the pattern. *)
Definition fold_case (c : ascii) : ascii := if ic then lower_char c else c.

Definition test (p : ascii -> bool) (c : ascii) : bool := p (fold_case c).

Fixpoint star_greedy (q : ascii -> bool) (s : str) (k : str -> option A) : option A :=
  match s with
  | c :: s' =>
      if q c then
        match star_greedy q s' k with
        | Some a => Some a
        | None => k s
        end
      else k s
  | [] => k []
  end.

Fixpoint star_lazy (q : ascii -> bool) (s : str) (k : str -> option A) : option A :=
  match k s with
  | Some a => Some a
  | None =>
      match s with
      | c :: s' => if q c then star_lazy q s' k else None
      | [] => None
      end
  end.

(** [rmatch r s g k]: match [r] at the front of [s], with groups [g]
    captured so far, and hand what is left of the subject to [k]. *)
Fixpoint rmatch (r : regex) (s : str) (g : groups)
    (k : str -> groups -> option A) : option A :=
  match r with
  | Eps => k s g
  | Never => None
  | Bos => if Nat.eqb (length s) (length whole) then k s g else None
  | Eos =>
      match s with
      | [] => k s g
      | [c] => if ascii_dec c LF then k s g else None
      | _ => None
      end
  | Chr c =>
      match s with
      | x :: s' => if ascii_eqb (fold_case x) (fold_case c) then k s' g else None
      | [] => None
      end
  | Cls p =>
      match s with
      | x :: s' => if test p x then k s' g else None
      | [] => None
      end
  | Seq r1 r2 => rmatch r1 s g (fun s' g' => rmatch r2 s' g' k)
  | Alt r1 r2 =>
      match rmatch r1 s g k with
      | Some a => Some a
      | None => rmatch r2 s g k
      end
  | Star p => star_greedy (test p) s (fun s' => k s' g)
  | Plus p =>
      match s with
      | x :: s' => if test p x then star_greedy (test p) s' (fun s'' => k s'' g) else None
      | [] => None
      end
  | StarLazy p => star_lazy (test p) s (fun s' => k s' g)
  | Opt r =>
      match rmatch r s g k with
      | Some a => Some a
      | None => k s g
      end
  | Grp n r =>
      rmatch r s g (fun s' g' => k s' ((n, firstn (length s - length s') s) :: g'))
  end.

End Matcher.

Arguments star_greedy {A} q s k.
Arguments star_lazy {A} q s k.
Arguments rmatch ic whole {A} r s g k.

(** [re.match(pattern, s, flags)]: the pattern has to match at the start of
    [s], not all of it. *)
Definition re_match (ic : bool) (r : regex) (s : str) : option groups :=
  rmatch ic s r s [] (fun _ g => Some g).

Definition matches (ic : bool) (r : regex) (s : str) : bool :=
  match re_match ic r s with Some _ => true | None => false end.

(** A literal word of a pattern. *)
Fixpoint word (s : str) : regex :=
  match s with
  | [] => Eps
  | c :: s' => Seq (Chr c) (word s')
  end.

(** A pattern written as the sequence of its items. *)
Definition cat (rs : list regex) : regex := fold_right Seq Eps rs.

(** ['|'.join(words)] inside a pattern. *)
Fixpoint alts (ws : list str) : regex :=
  match ws with
  | [] => Never
  | [w] => word w
  | w :: ws' => Alt (word w) (alts ws')
  end.

(** ** The patterns of [changelog.py] *)

Definition MONTHS : list str :=
  map lit ["Jan"; "Feb"; "Mar"; "Apr"; "May"; "Jun";
           "Jul"; "Aug"; "Sep"; "Oct"; "Nov"; "Dec"]%string.

Definition KINDS : list str :=
  map lit ["Changes"; "Bugfix"; "Feature"; "Optimization"]%string.

(** ['^#\s*changelog\s*$'] *)
Definition re_top_header : regex :=
  cat [Bos; Chr "#"; Star is_space; word (lit "changelog"); Star is_space; Eos].

(** ['^##[^#]'] *)
Definition re_level_two : regex :=
  cat [Bos; Chr "#"; Chr "#"; Cls not_hash].

(** [v\d+\.\d+\.\d+], the start of both patterns of a version name. *)
Definition re_version_core : list regex :=
  [Chr "v"; Plus is_digit; Chr "."; Plus is_digit; Chr "."; Plus is_digit].

(** [r'^v\d+\.\d+\.\d+(-.+)?$'] *)
Definition re_version_name : regex :=
  cat [Bos; cat re_version_core; Opt (Grp 1 (cat [Chr "-"; Plus dot])); Eos].

(** [r'^##\s*(v\d+\.\d+\.\d+(?:-.+)?)\s*\(\s*(\d+)\s*(%s)\s*(\d+)\s*\)\s*$' % months] *)
Definition re_version_header : regex :=
  cat [Bos; Chr "#"; Chr "#"; Star is_space;
       Grp 1 (cat [cat re_version_core; Opt (cat [Chr "-"; Plus dot])]);
       Star is_space; Chr "("; Star is_space;
       Grp 2 (Plus is_digit); Star is_space;
       Grp 3 (alts MONTHS); Star is_space;
       Grp 4 (Plus is_digit); Star is_space;
       Chr ")"; Star is_space; Eos].

(** [r'^###\s*changes\s*$'] *)
Definition re_changes_header : regex :=
  cat [Bos; Chr "#"; Chr "#"; Chr "#"; Star is_space; word (lit "changes");
       Star is_space; Eos].

(** [r'^\s*[\*-]?\s*(%s)\s*:\s*(.*?)\s*(?:\(!([0-9]+)\))?\s*$' % kinds] *)
Definition re_change : regex :=
  cat [Bos; Star is_space; Opt (Cls star_or_dash); Star is_space;
       Grp 1 (alts KINDS); Star is_space; Chr ":"; Star is_space;
       Grp 2 (StarLazy dot); Star is_space;
       Opt (cat [Chr "("; Chr "!"; Grp 3 (Plus is_digit); Chr ")"]);
       Star is_space; Eos].

(** ** [class Change] *)

Record Change : Type := mkChange {
  title : str;
  kind : str;
  mr : Z
}.

Definition quoted (before : String.string) (s : str) (after : String.string) : option pyval :=
  Some (PStr (lit before ++ s ++ lit after)).

(** [Change.__init__(self, title, kind, mr)] *)
Definition Change_init (title kind : str) (mr : Z) : result Change :=
  do _ <- assert (truthy title) None;
  do _ <- assert (existsb (str_eqb kind) KINDS)
            (quoted "Invalid change type '" kind "'");
  do _ <- assert ((mr =? 0)%Z || isinstance_int mr)
            (quoted "Invalid MR number '" (str_of_int mr) "'");
  Ok (mkChange title kind mr).

(** [int(mr or 0)] *)
Definition int_or_0 (mr : option str) : result Z :=
  match mr with
  | None => Ok 0%Z
  | Some d =>
      if truthy d then
        match int_of_str d with
        | Some z => Ok z
        | None => Raise ValueError
        end
      else Ok 0%Z
  end.

(** [Change.from_string(cls, string)] *)
Definition Change_from_string (string : str) : result Change :=
  match re_match true re_change string with
  | None =>
      Raise (AssertionError
        (quoted "Couldn't parse change information from string '" string "'."))
  | Some m =>
      do kind <- match group m 1 with
                 | Some k => Ok (capitalize k)
                 | None => Raise AttributeError
                 end;
      do mr <- int_or_0 (group m 3);
      match group m 2 with
      | Some title => Change_init title kind mr
      | None => Raise (AssertionError None)
      end
  end.

(** [Change.to_string(self)] *)
Definition Change_to_string (c : Change) : str :=
  let msg := lit "* " ++ kind c ++ lit ": " ++ title c in
  if (mr c =? 0)%Z then msg
  else msg ++ lit " (!" ++ str_of_int (mr c) ++ lit ")".

(** ** [class Version] *)

Record Version : Type := mkVersion {
  name : str;
  prerelease : bool;
  day : Z;
  month : str;
  year : Z;
  notes : str;
  changes : list Change
}.

(** [Version.__init__(self, name, day, month, year, notes)] *)
Definition Version_init (name : str) (day : Z) (month : str) (year : Z)
    (notes : str) : result Version :=
  match re_match false re_version_name name with
  | None => Raise (AssertionError (quoted "Invalid version name '" name "'"))
  | Some m =>
      let prerelease :=
        match group m 1 with Some s => truthy s | None => false end in
      do _ <- assert (isinstance_int day && (0 <? day)%Z && (day <? 32)%Z)
                (quoted "Invalid day '" (str_of_int day) "'");
      let month := capitalize month in
      do _ <- assert (existsb (str_eqb month) MONTHS) (Some (PStr month));
      do _ <- assert (isinstance_int year && (2017 <=? year)%Z && (year <? 2030)%Z)
                (Some (PInt year));
      Ok (mkVersion name prerelease day month year notes [])
  end.

(** The loop of [Version.from_string] that collects the notes:
    [for i, line in enumerate(lines)], appending to [notes] until a line is the
    header of the changes.  It returns the notes and the last value of [i],
    [None] when the loop body never ran and [i] is unbound. *)
Fixpoint notes_loop (lines : list str) (i : nat) (notes : list str)
    (last_i : option nat) : list str * option nat :=
  match lines with
  | [] => (notes, last_i)
  | line :: rest =>
      if matches true re_changes_header line then (notes, Some i)
      else notes_loop rest (S i) (notes ++ [line]) (Some i)
  end.

(** [int(s)] of a captured group. *)
Definition int_group (s : option str) : result Z :=
  match s with
  | None => Raise TypeError
  | Some d =>
      match int_of_str d with
      | Some z => Ok z
      | None => Raise ValueError
      end
  end.

Definition str_group (s : option str) : result str :=
  match s with
  | None => Raise TypeError
  | Some d => Ok d
  end.

Definition set_changes (v : Version) (cs : list Change) : Version :=
  mkVersion (name v) (prerelease v) (day v) (month v) (year v) (notes v) cs.

(** [Version.from_string(cls, string)] *)
Definition Version_from_string (string : str) : result Version :=
  match crop_line_padding (Text string) with
  | [] => Raise IndexError
  | line0 :: rest =>
      match re_match true re_version_header line0 with
      | None =>
          Raise (AssertionError (quoted "Invalid version header '" line0 "'"))
      | Some m =>
          let lines := crop_line_padding (Lines rest) in
          let '(notes, i) := notes_loop lines 0 [] None in
          let notes := join [LF] notes in
          match i with
          | None => Raise UnboundLocalError
          | Some i =>
              let lines :=
                filter truthy (crop_line_padding (Lines (skipn (i + 1) lines))) in
              do name <- str_group (group m 1);
              do day <- int_group (group m 2);
              do month <- str_group (group m 3);
              do year <- int_group (group m 4);
              do version <- Version_init name day month year notes;
              do changes <- mapM Change_from_string lines;
              Ok (set_changes version changes)
          end
      end
  end.

(** [Version.to_string(self)] *)
Definition Version_to_string (v : Version) : str :=
  let msg := lit "## " ++ name v ++ lit " (" ++ str_of_int (day v) ++ lit " "
             ++ month v ++ lit " " ++ str_of_int (year v) ++ lit ")" ++ [LF; LF] in
  let msg := if truthy (notes v) then msg ++ notes v ++ [LF; LF] else msg in
  let msg := msg ++ lit "### Changes" ++ [LF; LF] in
  fold_left (fun msg change => msg ++ Change_to_string change ++ [LF]) (changes v) msg.

(** ** [class Changelog] *)

Record Changelog : Type := mkChangelog {
  versions : list Version
}.

(** [sections[-1].append(line)] *)
Definition append_to_last (sections : list (list str)) (line : str) : list (list str) :=
  removelast sections ++ [last sections [] ++ [line]].

(** The loop of [Changelog.from_string] that groups the lines into sections. *)
Fixpoint sections_loop (lines : list str) (sections : list (list str))
    : result (list (list str)) :=
  match lines with
  | [] => Ok sections
  | line :: rest =>
      do sections <-
        (if matches false re_level_two line then Ok (sections ++ [[]])
         else
           do _ <- assert (match sections with [] => false | _ :: _ => true end)
                     (Some (PStr (lit "Changelog body doesn't start with level two header.")));
           Ok sections);
      sections_loop rest (append_to_last sections line)
  end.

(** [Changelog.from_string(cls, string)]: what is printed on standard error,
    and the value returned or the exception raised. *)
Definition Changelog_from_string (string : str) : list str * result Changelog :=
  match crop_line_padding (Text string) with
  | [] => ([lit "WARNING: Changelog is emtpy"], Ok (mkChangelog []))
  | line0 :: rest =>
      ([],
       do _ <- assert (matches false re_top_header (lower line0))
                 (Some (PStr (lit "Changelog missing top header.")));
       let lines := crop_line_padding (Lines rest) in
       do sections <- sections_loop lines [];
       do versions <- mapM (fun section => Version_from_string (join [LF] section))
                        sections;
       Ok (mkChangelog versions))
  end.

(** [Changelog.to_string(self)] *)
Definition Changelog_to_string (c : Changelog) : str :=
  lit "# Changelog" ++ [LF; LF; LF]
  ++ join [LF; LF] (map Version_to_string (rev (versions c))).

(** * The command line of the tool

    The prompts [prompt_string] and [prompt_boolean] read the answers of the
    user with [raw_input] and write warnings on the standard error.  The
    console is passed along explicitly: the lines still to be read, what was
    written on the standard output (the prompts, which [raw_input] writes
    with no newline) and the lines printed on the standard error. *)

(** The exceptions of the command line, beside those of the parsers. *)
Inductive error : Type :=
  | InputError (msg : str)        (* class InputError(Exception) *)
  | EOFError                      (* raw_input when there is no line left *)
  | RequestFailed                 (* the Exception(resp) of GitlabRequest.get *)
  | Py (e : exn).

Inductive outcome (A : Type) : Type :=
  | Return (a : A)
  | Throw (e : error).

Arguments Return {A} a.
Arguments Throw {A} e.

Record console : Type := mkConsole {
  stdin : list str;
  stdout : list str;
  stderr : list str
}.

(** [print >> sys.stderr, line] *)
Definition print_stderr (line : str) (w : console) : console :=
  mkConsole (stdin w) (stdout w) (stderr w ++ [line]).

(** [raw_input(prompt)]: writes the prompt, then reads a line, which comes
    without its newline. *)
Definition raw_input (prompt : str) (w : console) : console * outcome str :=
  let w := mkConsole (stdin w) (stdout w ++ [prompt]) (stderr w) in
  match stdin w with
  | [] => (w, Throw EOFError)
  | line :: rest => (mkConsole rest (stdout w) (stderr w), Return line)
  end.

(** A pattern given as a string, with what [re] compiles it to; the empty
    string, which is the default of [match], stands for no pattern. *)
Record pattern : Type := mkPattern {
  source : str;
  compiled : regex
}.

Definition no_pattern : pattern := mkPattern [] Eps.

(** The prompt of [prompt_string]. *)
Definition prompt_text (msg : str) (default : option str) (required : bool) : str :=
  match default with
  | Some d =>
      if truthy d || negb required
      then msg ++ lit " (default is '" ++ d ++ lit "'): "
      else msg ++ lit ": "
  | None => msg ++ lit ": "
  end.

(** [value or default or ''] *)
Definition or_default (value : str) (default : option str) : str :=
  if truthy value then value
  else match default with
       | Some d => if truthy d then d else []
       | None => []
       end.

(** The [try] block of [prompt_string]: the message of the [InputError] it
    raises, if any. *)
Definition check_value (value : str) (match_ : pattern) (required : bool)
    : option str :=
  if required && negb (truthy value)
  then Some (lit "Required value can't be empty.")
  else if truthy (source match_) && negb (matches false (compiled match_) value)
  then Some (lit "Input value must match '" ++ source match_ ++ lit "'.")
  else None.

(** The loop [while True] of [prompt_string].  Every round reads a line, so
    the loop ends at the latest when the input does, with [EOFError]; [fuel]
    bounds the number of rounds and is set above the number of lines, so that
    it never runs out.  [confirm] is the confirmation asked when the argument
    [confirm] is set, which is [prompt_boolean]. *)
Fixpoint prompt_loop (fuel : nat) (prompt : str) (default : option str)
    (match_ : pattern) (required retry : bool)
    (confirm : option (str -> console -> console * outcome bool))
    (w : console) : console * outcome str :=
  match fuel with
  | O => (w, Throw EOFError)
  | S fuel =>
      match raw_input prompt w with
      | (w, Throw e) => (w, Throw e)
      | (w, Return line) =>
          let value := or_default (strip line) default in
          match check_value value match_ required with
          | Some msg =>
              if retry then
                prompt_loop fuel prompt default match_ required retry confirm
                  (print_stderr (lit "WARNING: " ++ msg) w)
              else (w, Throw (InputError msg))
          | None =>
              match confirm with
              | None => (w, Return value)
              | Some ask =>
                  match ask value w with
                  | (w, Throw e) => (w, Throw e)
                  | (w, Return true) => (w, Return value)
                  | (w, Return false) =>
                      prompt_loop fuel prompt default match_ required retry
                        confirm w
                  end
              end
          end
      end
  end.

(** [prompt_string] with the confirmation to ask, if any. *)
Definition prompt_string_with
    (confirm : option (str -> console -> console * outcome bool))
    (msg : str) (default : option str) (match_ : pattern)
    (required retry : bool) (w : console) : console * outcome str :=
  prompt_loop (S (length (stdin w))) (prompt_text msg default required)
    default match_ required retry confirm w.

(** [[yYnN]] *)
Definition is_yn (c : ascii) : bool :=
  ascii_eqb c "y" || ascii_eqb c "Y" || ascii_eqb c "n" || ascii_eqb c "N".

(** [r'^[yYnN]?$'] *)
Definition yes_no : pattern :=
  mkPattern (lit "^[yYnN]?$") (cat [Bos; Opt (Cls is_yn); Eos]).

(** [prompt_boolean(msg, default, retry)]; [default] is [True], [False] or
    [None], which is what its first assertion checks.  It calls
    [prompt_string] with no confirmation. *)
Definition prompt_boolean (msg : str) (default : option bool) (retry : bool)
    (w : console) : console * outcome bool :=
  let opts :=
    match default with
    | Some true => lit "[Y/n]"
    | Some false => lit "[y/N]"
    | None => lit "[y/n]"
    end in
  let prompt := msg ++ lit " " ++ opts in
  let required := match default with None => true | Some _ => false end in
  match prompt_string_with None prompt None yes_no required retry w with
  | (w, Throw e) => (w, Throw e)
  | (w, Return value) =>
      let value := lower value in
      if str_eqb value (lit "y") then (w, Return true)
      else if str_eqb value (lit "n") then (w, Return false)
      else if truthy value
      then (w, Throw (Py (AssertionError (Some (PStr value)))))
      else match default with
           | None => (w, Throw (Py (AssertionError None)))
           | Some d => (w, Return d)
           end
  end.

(** [prompt_string(msg, default, match, required, retry, confirm)] *)
Definition prompt_string (msg : str) (default : option str) (match_ : pattern)
    (required retry confirm : bool) (w : console) : console * outcome str :=
  prompt_string_with
    (if confirm
     then Some (fun value =>
                  prompt_boolean
                    (lit "Input value is '" ++ value ++ lit "'. Please confirm.")
                    (Some true) true)
     else None)
    msg default match_ required retry w.

(** * Merge requests: [get_mrs]

    The answers of Gitlab are what the function is given: the pages of the
    list of merge requests and the commits, each either the decoded answer
    or the exception that [GitlabRequest.get] raises.  Dates are the values
    that [dateutil.parser.parse] makes of them, as numbers.  The progress
    that the function writes on the standard error is left out. *)

(** The fields of a merge request that the tool reads. *)
Record merge_request : Type := mkMR {
  mr_id : Z;
  mr_title : str;
  updated_at : Z;
  target_branch : str;
  merge_commit_sha : str          (* empty when Gitlab gives none *)
}.

Record gitlab : Type := mkGitlab {
  (** [gitlab.get('merge_requests', {..., 'page': page})] *)
  merge_requests : nat -> outcome (list merge_request);
  (** [created_at] of [gitlab.get('repository/commits/%s' % sha)] *)
  commit_created_at : str -> outcome Z
}.

Definition per_page : nat := 100.

(** [since and updated_at < since] *)
Definition older (since : option Z) (t : Z) : bool :=
  match since with
  | Some s => (t <? s)%Z
  | None => false
  end.

(** [branches and mr['target_branch'] not in branches] *)
Definition other_branch (branches : list str) (mr : merge_request) : bool :=
  match branches with
  | [] => false
  | _ :: _ => negb (existsb (str_eqb (target_branch mr)) branches)
  end.

(** The loop [for mr in batch] of [get_mrs]: the merge requests kept so far
    and [break_updated_at]. *)
Fixpoint scan_batch (branches : list str) (since : option Z)
    (batch : list merge_request) (mrs : list merge_request)
    : list merge_request * bool :=
  match batch with
  | [] => (mrs, false)
  | mr :: batch' =>
      if older since (updated_at mr) then (mrs, true)
      else if other_branch branches mr then scan_batch branches since batch' mrs
      else scan_batch branches since batch' (mrs ++ [mr])
  end.

(** The loop [while True] of [get_mrs], which asks for one page after the
    other; it goes on for as long as Gitlab gives full pages, so [fuel] bounds
    the number of pages and [None] says that the bound was reached. *)
Fixpoint fetch_pages (fuel : nat) (g : gitlab) (branches : list str)
    (since : option Z) (page : nat) (mrs : list merge_request)
    : option (outcome (list merge_request)) :=
  match fuel with
  | O => None
  | S fuel =>
      match merge_requests g page with
      | Throw e => Some (Throw e)
      | Return batch =>
          let '(mrs, break_updated_at) := scan_batch branches since batch mrs in
          if break_updated_at then Some (Return mrs)
          else if (length batch <? per_page)%nat then Some (Return mrs)
          else fetch_pages fuel g branches since (S page) mrs
      end
  end.

(** [l.pop(i)], for the list that is left. *)
Definition pop {A : Type} (i : nat) (l : list A) : outcome (list A) :=
  if (i <? length l)%nat then Return (firstn i l ++ skipn (S i) l)
  else Throw (Py IndexError).

(** The loop [for i, mr in enumerate(list(mrs))] of [get_mrs]: it goes
    through a copy of the list and pops from the list itself. *)
Fixpoint drop_old_commits (g : gitlab) (since : Z) (copy : list merge_request)
    (i : nat) (mrs : list merge_request) : outcome (list merge_request) :=
  match copy with
  | [] => Return mrs
  | mr :: copy' =>
      let sha := merge_commit_sha mr in
      if truthy sha then
        match commit_created_at g sha with
        | Throw e => Throw e
        | Return created_at =>
            if (created_at <? since)%Z then
              match pop i mrs with
              | Throw e => Throw e
              | Return mrs => drop_old_commits g since copy' (S i) mrs
              end
            else drop_old_commits g since copy' (S i) mrs
        end
      else Throw (Py (AssertionError None))
  end.

(** [get_mrs(gitlab, branches, since)]; [since] is [None] or a date, which is
    what its first assertion checks. *)
Definition get_mrs (fuel : nat) (g : gitlab) (branches : list str)
    (since : option Z) : option (outcome (list merge_request)) :=
  match fetch_pages fuel g branches since 1 [] with
  | None => None
  | Some (Throw e) => Some (Throw e)
  | Some (Return mrs) =>
      match since with
      | Some s => Some (drop_old_commits g s mrs 0 mrs)
      | None => Some (Return mrs)
      end
  end.

(** * The changelog as a dictionary: [to_dict]

    The values that the three [to_dict] methods build; a dictionary is the
    list of its items, in the order of the source. *)

#[local] Unset Elimination Schemes.

Inductive pyobj : Type :=
  | PyNone
  | PyBool (b : bool)
  | PyInt (z : Z)
  | PyStr (s : str)
  | PyList (l : list pyobj)
  | PyDict (items : list (str * pyobj)).

#[local] Set Elimination Schemes.

(** [Change.to_dict(self)] *)
Definition Change_to_dict (c : Change) : pyobj :=
  PyDict [(lit "title", PyStr (title c));
          (lit "kind", PyStr (kind c));
          (lit "mr", if (mr c =? 0)%Z then PyNone else PyInt (mr c))].

(** [Version.to_dict(self)] *)
Definition Version_to_dict (v : Version) : pyobj :=
  PyDict [(lit "name", PyStr (name v));
          (lit "prerelease", PyBool (prerelease v));
          (lit "date", PyDict [(lit "day", PyInt (day v));
                               (lit "month", PyStr (month v));
                               (lit "year", PyInt (year v))]);
          (lit "notes", PyStr (notes v));
          (lit "changes", PyList (map Change_to_dict (changes v)))].

(** [Changelog.to_dict(self)] *)
Definition Changelog_to_dict (c : Changelog) : pyobj :=
  PyDict [(lit "versions", PyList (map Version_to_dict (versions c)))].

(** * The words of the properties *)

(** [dropwhile f l]: [l] without its longest prefix of elements that satisfy
    [f]. *)
Fixpoint dropwhile {T : Type} (f : T -> bool) (l : list T) : list T :=
  match l with
  | x :: l' => if f x then dropwhile f l' else l
  | [] => []
  end.

(** [trim f l]: [l] without the elements that satisfy [f] at both ends. *)
Definition trim {T : Type} (f : T -> bool) (l : list T) : list T :=
  rev (dropwhile f (rev (dropwhile f l))).

(** The first element, if any, is not one that is dropped. *)
Definition head_kept {T : Type} (f : T -> bool) (l : list T) : bool :=
  match l with
  | x :: _ => negb (f x)
  | [] => true
  end.

Definition ends_kept {T : Type} (f : T -> bool) (l : list T) : bool :=
  head_kept f l && head_kept f (rev l).

(** No whitespace at the start nor at the end. *)
Definition no_pad (s : str) : bool := ends_kept is_space s.

Definition blank (l : str) : bool := negb (truthy l).

(** The lines without the blank ones at the start and at the end. *)
Definition trim_blank (ls : list str) : list str := trim blank ls.

(** [den ic whole r s g s' g']: [r] can match at the front of [s], leaving [s'], and
    turning the captured groups [g] into [g']. *)
Fixpoint den (ic : bool) (whole : str) (r : regex) (s : str) (g : groups)
    (s' : str) (g' : groups) : Prop :=
  match r with
  | Eps => s' = s /\ g' = g
  | Never => False
  | Bos => s' = s /\ g' = g /\ length s = length whole
  | Eos => s' = s /\ g' = g /\ (s = [] \/ s = [LF])
  | Chr c => exists x, s = x :: s' /\ fold_case ic x = fold_case ic c /\ g' = g
  | Cls p => exists x, s = x :: s' /\ test ic p x = true /\ g' = g
  | Seq r1 r2 => exists s1 g1, den ic whole r1 s g s1 g1 /\ den ic whole r2 s1 g1 s' g'
  | Alt r1 r2 => den ic whole r1 s g s' g' \/ den ic whole r2 s g s' g'
  | Star p | StarLazy p =>
      exists pre, s = pre ++ s' /\ forallb (test ic p) pre = true /\ g' = g
  | Plus p =>
      exists x pre, s = x :: pre ++ s' /\ test ic p x = true
                    /\ forallb (test ic p) pre = true /\ g' = g
  | Opt r => den ic whole r s g s' g' \/ (s' = s /\ g' = g)
  | Grp n r =>
      exists g1, den ic whole r s g s' g1
                 /\ g' = (n, firstn (length s - length s') s) :: g1
  end.

Definition missing_top_header : exn :=
  AssertionError (Some (PStr (lit "Changelog missing top header."))).

(** A level-one header reading "changelog", in any case. *)
Definition is_top_header (line : str) : Prop :=
  exists ws, forallb is_space ws = true /\ lower line = "#" :: ws ++ lit "changelog".

Definition day_in_range (d : Z) : Prop := (1 <= d <= 31)%Z.
Definition year_in_range (y : Z) : Prop := (2017 <= y < 2030)%Z.
(** One of the twelve abbreviations, in any case. *)
Definition month_in_range (m : str) : Prop :=
  exists M, In M MONTHS /\ lower m = lower M.

(** The next byte, if any, is outside the class. *)
Definition stops (q : ascii -> bool) (s : str) : Prop :=
  match s with
  | c :: _ => q c = false
  | [] => True
  end.

(** Strings of decimal digits, not empty. *)
Definition digits (s : str) : Prop := s <> [] /\ forallb is_digit s = true.

(** [v<major>.<minor>.<patch>] *)
Definition version_core (major minor patch : str) : str :=
  "v" :: major ++ "." :: minor ++ "." :: patch.

(** The [-<suffix>] of a version name: nothing, or a dash and at least one
    byte, none of them a newline. *)
Definition valid_suffix (suffix : str) : Prop :=
  suffix = []
  \/ exists body, body <> [] /\ forallb dot body = true /\ suffix = "-" :: body.

(** The title of a change ends with something that reads as a reference to a
    merge request. *)
Definition ends_with_mr (t : str) : Prop :=
  exists pre ds, digits ds /\ t = pre ++ lit "(!" ++ ds ++ lit ")".

(** What follows the title in the pattern of a change:
    [\s*(?:\(!([0-9]+)\))?\s*$] *)
Definition re_change_tail : regex :=
  cat [Star is_space;
       Opt (cat [Chr "("; Chr "!"; Grp 3 (Plus is_digit); Chr ")"]);
       Star is_space; Eos].

(** No line break inside. *)
Definition one_line (s : str) : bool :=
  forallb (fun c => negb (ascii_eqb c LF) && negb (ascii_eqb c CR)) s.

(** A title that a line of the changelog can hold as it is. *)
Definition clean_title (t : str) : Prop :=
  t <> [] /\ one_line t = true /\ no_pad t = true /\ ~ ends_with_mr t.

(** A title that is read back as it is before the reference of merge
    request [n]; when there is no reference to write, the title must not end
    with one. *)
Definition stable_title (t : str) (n : Z) : Prop :=
  t <> [] /\ forallb dot t = true /\ no_pad t = true
  /\ (n = 0%Z -> ~ ends_with_mr t).

Definition wf_change (c : Change) : Prop :=
  In (kind c) KINDS /\ clean_title (title c) /\ (0 <= mr c <= sys_maxint)%Z.

(** [" (!<mr>)"], or nothing when there is no merge request. *)
Definition mr_suffix (mr : Z) : str :=
  if (mr =? 0)%Z then [] else lit " (!" ++ str_of_int mr ++ lit ")".

(** The header line of a version, as [Version.to_string] writes it. *)
Definition header_line (name : str) (day : Z) (month : str) (year : Z) : str :=
  lit "## " ++ name ++ lit " (" ++ str_of_int day ++ lit " " ++ month ++ lit " "
  ++ str_of_int year ++ lit ")".

(** What follows the name in the pattern of a header. *)
Definition re_header_date : regex :=
  cat [Star is_space; Chr "("; Star is_space;
       Grp 2 (Plus is_digit); Star is_space;
       Grp 3 (alts MONTHS); Star is_space;
       Grp 4 (Plus is_digit); Star is_space;
       Chr ")"; Star is_space; Eos].

Definition date_text (D M Y : str) : str :=
  "(" :: D ++ " " :: M ++ " " :: Y ++ [")"].

(** The blank that the pattern of a header takes into the name of a
    prerelease. *)
Definition name_pad (suffix : str) : str :=
  match suffix with
  | [] => []
  | _ :: _ => [" "]
  end.

(** The text made of the given lines, each ended by a newline. *)
Definition unlines (ls : list str) : str := concat (map (fun l => l ++ [LF]) ls).

(** A section of the changelog: a level-two header and the lines up to the
    next one. *)
Definition is_section (b : list str) : Prop :=
  match b with
  | [] => False
  | h :: t =>
      matches false re_level_two h = true
      /\ Forall (fun l => matches false re_level_two l = false) t
  end.

(** ["### Changes"] *)
Definition changes_line : str := lit "### Changes".

(** A name [v<major>.<minor>.<patch>[-<suffix>]] on one line, and the
    prerelease flag the constructor derives from it. *)
Definition wf_name (nm : str) (pre : bool) : Prop :=
  exists major minor patch suffix,
    digits major /\ digits minor /\ digits patch
    /\ (suffix = []
        \/ exists body, body <> [] /\ one_line body = true /\ suffix = "-" :: body)
    /\ nm = version_core major minor patch ++ suffix
    /\ pre = truthy suffix.

(** A line of the notes that is read back as it is: on one line, with no
    blank around it, and not the header of the changes. *)
Definition note_line (l : str) : Prop :=
  one_line l = true /\ no_pad l = true
  /\ matches true re_changes_header l = false.

(** A line of the notes that the text of a whole changelog can hold: it does
    not start a section either. *)
Definition doc_note_line (l : str) : Prop :=
  note_line l /\ matches false re_level_two l = false.

(** Notes made of lines that satisfy [P], joined by newlines, the first and
    the last line not empty. *)
Definition wf_notes (P : str -> Prop) (n : str) : Prop :=
  exists nls,
    n = join [LF] nls /\ Forall P nls /\ ends_kept blank nls = true.

(** A version the text can hold: a name of the grammar, a date in range,
    notes and changes that are read back. *)
Definition wf_version (P : str -> Prop) (v : Version) : Prop :=
  wf_name (name v) (prerelease v)
  /\ day_in_range (day v) /\ In (month v) MONTHS /\ year_in_range (year v)
  /\ wf_notes P (notes v)
  /\ Forall wf_change (changes v).

(** What [Version.from_string] returns for the text of [v]: the name of a
    prerelease gains a blank, and notes that are not empty gain a newline. *)
Definition reparsed (v : Version) : Version :=
  mkVersion (name v ++ (if prerelease v then [" "] else [])) (prerelease v)
    (day v) (month v) (year v)
    (notes v ++ (if truthy (notes v) then [LF] else []))
    (changes v).

(** The lines of the notes in the text, with the blank line after them. *)
Definition notes_block (nls : list str) : list str :=
  match nls with
  | [] => []
  | _ :: _ => nls ++ [[]]
  end.

(** The lines after the header of the changes, in the cropped text. *)
Definition changes_tail (cs : list Change) : list str :=
  match cs with
  | [] => []
  | _ :: _ => [] :: map Change_to_string cs
  end.

(** The lines of the text of a version, without the blank lines at its end. *)
Definition version_body (v : Version) (nls : list str) : list str :=
  header_line (name v) (day v) (month v) (year v) :: []
  :: notes_block nls ++ changes_line :: changes_tail (changes v).

(** The lines of the text of a version. *)
Definition version_lines (v : Version) (nls : list str) : list str :=
  header_line (name v) (day v) (month v) (year v) :: []
  :: notes_block nls ++ changes_line :: [] :: map Change_to_string (changes v).

(** The blank line that ends the text of a version with no change. *)
Definition version_end (v : Version) : list str :=
  match changes v with
  | [] => [[]]
  | _ :: _ => []
  end.

(** Two notes with the same lines once cropped: they differ by whitespace
    around the lines and by blank lines at both ends only. *)
Definition same_notes (a b : str) : Prop :=
  crop_line_padding (Text a) = crop_line_padding (Text b).


(** A version with the lines of its notes. *)
Definition noted : Type := (Version * list str)%type.

(** The lines of the versions of the text, two blank lines between two
    versions. *)
Fixpoint doc_lines (ps : list noted) : list str :=
  match ps with
  | [] => []
  | p :: ps' =>
      version_lines (fst p) (snd p)
      ++ match ps' with
         | [] => []
         | _ :: _ => [[]; []] ++ doc_lines ps'
         end
  end.

(** The sections the cropped text splits into: one for each version, with the
    blank lines that follow it, but for the last one. *)
Fixpoint doc_sections (ps : list noted) : list (list str) :=
  match ps with
  | [] => []
  | p :: ps' =>
      (version_body (fst p) (snd p)
       ++ match ps' with
          | [] => []
          | _ :: _ => version_end (fst p) ++ [[]; []]
          end)
      :: doc_sections ps'
  end.

(** The blank lines at the end of the text. *)
Fixpoint doc_end (ps : list noted) : list str :=
  match ps with
  | [] => []
  | p :: ps' =>
      match ps' with
      | [] => version_end (fst p)
      | _ :: _ => doc_end ps'
      end
  end.

(** The version and the lines of its notes fit together, and the text of a
    changelog can hold them. *)
Definition wf_noted (p : noted) : Prop :=
  wf_name (name (fst p)) (prerelease (fst p))
  /\ day_in_range (day (fst p)) /\ In (month (fst p)) MONTHS
  /\ year_in_range (year (fst p))
  /\ notes (fst p) = join [LF] (snd p)
  /\ Forall doc_note_line (snd p) /\ ends_kept blank (snd p) = true
  /\ Forall wf_change (changes (fst p)).

(** ["# Changelog"] *)
Definition top_line : str := lit "# Changelog".

(** A change of the example of the file format. *)
Definition example_change : Change :=
  mkChange (lit "added widget support") (lit "Feature") 42.

(** Two versions, the second one with notes and no change. *)
Definition example_version : Version :=
  mkVersion (lit "v1.2.0") false 15 (lit "Mar") 2020 []
    [example_change; mkChange (lit "fixed crash on startup") (lit "Bugfix") 0].

Definition example_version' : Version :=
  mkVersion (lit "v1.3.0") false 2 (lit "Apr") 2021
    (lit "Widget release" ++ [LF] ++ lit "with notes") [].

Definition missing_level_two : exn :=
  AssertionError
    (Some (PStr (lit "Changelog body doesn't start with level two header."))).

(** What the constructor of [Change] has checked. *)
Definition valid_change (c : Change) : Prop :=
  In (kind c) KINDS /\ title c <> [] /\ (0 <= mr c <= sys_maxint)%Z.

(** What the constructor of [Version] has checked, and the constructor of
    [Change] for each of its changes. *)
Definition valid_version (v : Version) : Prop :=
  matches false re_version_name (name v) = true
  /\ day_in_range (day v) /\ In (month v) MONTHS /\ year_in_range (year v)
  /\ Forall valid_change (changes v).

(** The warning printed for a line that is not accepted, and nothing for a
    line that is. *)
Definition warning_of (default : option str) (match_ : pattern)
    (required : bool) (line : str) : str :=
  match check_value (or_default (strip line) default) match_ required with
  | Some msg => lit "WARNING: " ++ msg
  | None => []
  end.

(** A line that [prompt_string] accepts. *)
Definition accepted (default : option str) (match_ : pattern)
    (required : bool) (line : str) : bool :=
  match check_value (or_default (strip line) default) match_ required with
  | Some _ => false
  | None => true
  end.

(** The answer that a line gives to a yes/no question: "y" or "n" in either
    case, with blanks around; an empty line for the default, if there is one;
    nothing else. *)
Definition answer (default : option bool) (line : str) : option bool :=
  match strip line with
  | [] => default
  | [c] => if is_yn c then Some (ascii_eqb (lower_char c) "y") else None
  | _ :: _ :: _ => None
  end.

(** A confirmation that leaves no more lines to read than it was given. *)
Definition reads_only (ask : str -> console -> console * outcome bool) : Prop :=
  forall v w, (length (stdin (fst (ask v w))) <= length (stdin w))%nat.

Definition confirm_reads_only
    (confirm : option (str -> console -> console * outcome bool)) : Prop :=
  match confirm with
  | None => True
  | Some ask => reads_only ask
  end.

(** The prompt of [prompt_boolean]. *)
Definition yes_no_prompt (msg : str) (default : option bool) : str :=
  msg ++ lit " "
  ++ match default with
     | Some true => lit "[Y/n]"
     | Some false => lit "[y/N]"
     | None => lit "[y/n]"
     end
  ++ lit ": ".

(** The warning that [prompt_boolean] prints for a line that is no answer. *)
Definition yes_no_warning (line : str) : str :=
  lit "WARNING: "
  ++ (if truthy (strip line) then lit "Input value must match '^[yYnN]?$'."
      else lit "Required value can't be empty.").

(** No default means that an answer is required. *)
Definition no_default (default : option bool) : bool :=
  match default with None => true | Some _ => false end.

(** What [prompt_boolean] makes of a value that [prompt_string] returned. *)
Definition decide_answer (default : option bool) (value : str) (w : console)
    : console * outcome bool :=
  if str_eqb (lower value) (lit "y") then (w, Return true)
  else if str_eqb (lower value) (lit "n") then (w, Return false)
  else if truthy (lower value)
  then (w, Throw (Py (AssertionError (Some (PStr (lower value))))))
  else match default with
       | None => (w, Throw (Py (AssertionError None)))
       | Some d => (w, Return d)
       end.

(** The merge commit of the merge request is known to Gitlab. *)
Definition has_commit (g : gitlab) (mr : merge_request) : Prop :=
  truthy (merge_commit_sha mr) = true
  /\ exists t, commit_created_at g (merge_commit_sha mr) = Return t.

(** The merge commit was created before [since]. *)
Definition old_commit (g : gitlab) (since : Z) (mr : merge_request) : bool :=
  match commit_created_at g (merge_commit_sha mr) with
  | Return t => (t <? since)%Z
  | Throw _ => false
  end.

Definition new_commit (g : gitlab) (since : Z) (mr : merge_request) : bool :=
  negb (old_commit g since mr).

Fixpoint takewhile {A : Type} (f : A -> bool) (l : list A) : list A :=
  match l with
  | x :: l' => if f x then x :: takewhile f l' else []
  | [] => []
  end.

(** Updated at [since] or later, or there is no [since]. *)
Definition recent (since : option Z) (mr : merge_request) : bool :=
  negb (older since (updated_at mr)).

(** Merged into one of the branches, or there is no branch to tell. *)
Definition on_branch (branches : list str) (mr : merge_request) : bool :=
  negb (other_branch branches mr).

(** Gitlab gives the merge requests [all], most recently updated first, in
    pages of [per_page], the first page being page 1. *)
Definition serves (g : gitlab) (all : list merge_request) : Prop :=
  forall p,
    merge_requests g (S p) = Return (firstn per_page (skipn (p * per_page) all)).

(** What the first loop of [get_mrs] keeps of them. *)
Definition fetched (branches : list str) (since : option Z)
    (all : list merge_request) : list merge_request :=
  filter (on_branch branches) (takewhile (recent since) all).

(** A Gitlab that serves [all] and knows the date of every commit. *)
Definition serving (all : list merge_request) (created : str -> Z) : gitlab :=
  mkGitlab
    (fun page =>
       match page with
       | O => Throw RequestFailed
       | S p => Return (firstn per_page (skipn (p * per_page) all))
       end)
    (fun sha => Return (created sha)).

(** Four merge requests, most recently updated first; the third one was
    merged into another branch. *)
Definition example_mrs : list merge_request :=
  [mkMR 1 (lit "one") 100 (lit "master") (lit "a1");
   mkMR 2 (lit "two") 90 (lit "staging") (lit "b2");
   mkMR 3 (lit "three") 80 (lit "dev") (lit "c3");
   mkMR 4 (lit "four") 10 (lit "master") (lit "d4")].

Definition example_branches : list str := [lit "master"; lit "staging"].

(** Dates of the merge commits: the first one is old, the others are not. *)
Definition one_old (sha : str) : Z :=
  if str_eqb sha (lit "a1") then 40 else 60.

(** Dates of the merge commits: the first two are old. *)
Definition two_old (sha : str) : Z :=
  if str_eqb sha (lit "a1") then 40
  else if str_eqb sha (lit "b2") then 45 else 60.

(** A pattern with no capturing group. *)
Fixpoint group_free (r : regex) : bool :=
  match r with
  | Seq r1 r2 | Alt r1 r2 => group_free r1 && group_free r2
  | Opt r => group_free r
  | Grp _ _ => false
  | _ => true
  end.


(** * Properties *)

(** ** Dropping a prefix, and trimming both ends *)

Section Trim.
Context {T : Type} (f : T -> bool).

Lemma dropwhile_head_kept l : head_kept f (dropwhile f l) = true.
Proof.
  induction l as [|x l IH]; simpl; auto.
  destruct (f x) eqn:E; auto. simpl. now rewrite E.
Qed.

Lemma dropwhile_kept l : head_kept f l = true -> dropwhile f l = l.
Proof.
  destruct l as [|x l]; simpl; auto.
  destruct (f x); simpl; congruence.
Qed.

Lemma dropwhile_app_kept u x v :
  f x = false -> dropwhile f (u ++ x :: v) = dropwhile f u ++ x :: v.
Proof.
  intros Hx. induction u as [|y u IH]; simpl.
  - now rewrite Hx.
  - destruct (f y); auto.
Qed.

Lemma dropwhile_all l : forallb f l = true -> dropwhile f l = [].
Proof.
  induction l as [|x l IH]; simpl; auto.
  destruct (f x); simpl; auto. discriminate.
Qed.

Lemma dropwhile_app_all u v : forallb f u = true -> dropwhile f (u ++ v) = dropwhile f v.
Proof.
  induction u as [|x u IH]; simpl; auto.
  destruct (f x); simpl; auto. discriminate.
Qed.

Lemma dropwhile_incl l : incl (dropwhile f l) l.
Proof.
  induction l as [|x l IH]; simpl; [apply incl_refl|].
  destruct (f x); [apply incl_tl, IH | apply incl_refl].
Qed.

Lemma trim_incl l : incl (trim f l) l.
Proof.
  unfold trim. intros x Hx. rewrite <- in_rev in Hx.
  apply dropwhile_incl in Hx. rewrite <- in_rev in Hx.
  apply dropwhile_incl in Hx. exact Hx.
Qed.

Lemma trim_kept l : ends_kept f l = true -> trim f l = l.
Proof.
  unfold ends_kept, trim. intros H. apply andb_prop in H as [H1 H2].
  rewrite (dropwhile_kept _ H1), (dropwhile_kept _ H2). apply rev_involutive.
Qed.

Lemma trim_ends_kept l : ends_kept f (trim f l) = true.
Proof.
  unfold ends_kept, trim.
  rewrite rev_involutive, dropwhile_head_kept, andb_true_r.
  pose proof (dropwhile_head_kept l) as H.
  destruct (dropwhile f l) as [|x t]; simpl in *; auto.
  apply negb_true_iff in H.
  rewrite (dropwhile_app_kept (rev t) x [] H), rev_app_distr. simpl.
  now rewrite H.
Qed.

Lemma trim_idem l : trim f (trim f l) = trim f l.
Proof. apply trim_kept, trim_ends_kept. Qed.

Lemma existsb_rev (g : T -> bool) l : existsb g (rev l) = existsb g l.
Proof.
  induction l as [|a l IH]; simpl; auto.
  rewrite existsb_app, IH. simpl. rewrite orb_false_r. apply orb_comm.
Qed.

Lemma existsb_dropwhile l :
  existsb (fun x => negb (f x)) (dropwhile f l) = existsb (fun x => negb (f x)) l.
Proof.
  induction l as [|x l IH]; simpl; auto.
  destruct (f x) eqn:E; simpl; auto. now rewrite E.
Qed.

Lemma existsb_trim l :
  existsb (fun x => negb (f x)) (trim f l) = existsb (fun x => negb (f x)) l.
Proof.
  unfold trim.
  now rewrite existsb_rev, existsb_dropwhile, existsb_rev, existsb_dropwhile.
Qed.

End Trim.

(** ** Whitespace at the ends of a string *)

Lemma lstrip_dropwhile s : lstrip s = dropwhile is_space s.
Proof. induction s as [|c s IH]; simpl; [reflexivity|]. now rewrite IH. Qed.

Lemma strip_trim s : strip s = trim is_space s.
Proof. unfold strip, rstrip, trim. now rewrite !lstrip_dropwhile. Qed.

Lemma strip_no_pad s : no_pad (strip s) = true.
Proof. rewrite strip_trim. apply trim_ends_kept. Qed.

Lemma strip_clean s : no_pad s = true -> strip s = s.
Proof. rewrite strip_trim. apply trim_kept. Qed.

Lemma map_strip_clean ls :
  Forall (fun l => no_pad l = true) ls -> map strip ls = ls.
Proof.
  induction 1 as [|l ls Hl _ IH]; simpl; auto.
  now rewrite (strip_clean _ Hl), IH.
Qed.

Lemma map_strip_no_pad ls : Forall (fun l => no_pad l = true) (map strip ls).
Proof. induction ls; simpl; constructor; auto using strip_no_pad. Qed.

(** ** Blank lines at the ends of a list of lines *)

Lemma truthy_not_blank ls : existsb truthy ls = existsb (fun l => negb (blank l)) ls.
Proof.
  induction ls as [|l ls IH]; simpl; auto.
  unfold blank at 1. now rewrite negb_involutive, IH.
Qed.

Lemma first_truthy_some ls i :
  first_truthy ls = Some i -> skipn i ls = dropwhile blank ls.
Proof.
  revert i. induction ls as [|l ls IH]; simpl; intros i H; [discriminate|].
  unfold blank at 1. destruct (truthy l); simpl.
  - injection H as <-. reflexivity.
  - destruct (first_truthy ls) as [j|]; simpl in H; [|discriminate].
    injection H as <-. simpl. auto.
Qed.

Lemma first_truthy_exists ls :
  first_truthy ls = None <-> existsb truthy ls = false.
Proof.
  induction ls as [|l ls IH]; simpl; [tauto|].
  destruct (truthy l); simpl.
  - split; discriminate.
  - rewrite <- IH. destruct (first_truthy ls); simpl; split; congruence.
Qed.

Lemma crop_tail_spec ls i :
  first_truthy (rev ls) = Some i ->
  firstn (match i with O => length ls | S _ => length ls - i end) ls
  = rev (dropwhile blank (rev ls)).
Proof.
  intros H. rewrite <- (first_truthy_some _ _ H), skipn_rev, rev_involutive.
  destruct i; auto. now rewrite Nat.sub_0_r.
Qed.

(** What [crop_line_padding] does to a list of lines: with a line that is
    not blank once stripped, the stripped lines without the blank ones at
    both ends; with none, all the stripped (hence empty) lines. *)
Lemma crop_lines_spec ls :
  crop_lines ls =
  if existsb truthy (map strip ls) then trim_blank (map strip ls)
  else map strip ls.
Proof.
  unfold crop_lines, trim_blank, trim.
  destruct (first_truthy (map strip ls)) as [i|] eqn:E.
  - assert (Hex : existsb truthy (map strip ls) = true).
    { destruct (existsb truthy (map strip ls)) eqn:E'; auto.
      apply first_truthy_exists in E'. congruence. }
    rewrite Hex, (first_truthy_some _ _ E).
    destruct (first_truthy (rev (dropwhile blank (map strip ls)))) as [j|] eqn:Ej.
    + apply crop_tail_spec, Ej.
    + apply first_truthy_exists in Ej.
      rewrite truthy_not_blank, existsb_rev, existsb_dropwhile,
        <- truthy_not_blank in Ej. congruence.
  - pose proof E as E'. apply first_truthy_exists in E'. rewrite E'.
    destruct (first_truthy (rev (map strip ls))) as [j|] eqn:Ej; auto.
    assert (first_truthy (rev (map strip ls)) = None).
    { apply first_truthy_exists. now rewrite existsb_rev. }
    congruence.
Qed.

Lemma crop_lines_no_pad ls : Forall (fun l => no_pad l = true) (crop_lines ls).
Proof.
  rewrite crop_lines_spec.
  destruct (existsb truthy (map strip ls)); [|apply map_strip_no_pad].
  apply Forall_forall. intros l Hl. apply trim_incl in Hl.
  revert l Hl. apply Forall_forall, map_strip_no_pad.
Qed.

Lemma crop_lines_idem ls : crop_lines (crop_lines ls) = crop_lines ls.
Proof.
  rewrite (crop_lines_spec (crop_lines ls)).
  rewrite (map_strip_clean _ (crop_lines_no_pad ls)).
  rewrite crop_lines_spec.
  destruct (existsb truthy (map strip ls)) eqn:E.
  - unfold trim_blank.
    rewrite truthy_not_blank, existsb_trim, <- truthy_not_blank, E.
    apply trim_idem.
  - now rewrite E.
Qed.

(** C10: cropping what [crop_line_padding] returned changes nothing, and no
    returned line starts or ends with whitespace. *)
Theorem crop_line_padding_idempotent (arg : text) :
  crop_line_padding (Lines (crop_line_padding arg)) = crop_line_padding arg
  /\ Forall (fun l => no_pad l = true) (crop_line_padding arg).
Proof.
  destruct arg as [s|ls]; simpl; split;
    auto using crop_lines_idem, crop_lines_no_pad.
Qed.

(** ** What a pattern matches, without the order of the search *)

Section Search.
Context {A : Type}.
Implicit Types (q : ascii -> bool) (s : str) (k : str -> option A).

Lemma star_greedy_sound q s k a :
  star_greedy q s k = Some a ->
  exists pre rest, s = pre ++ rest /\ forallb q pre = true /\ k rest = Some a.
Proof.
  induction s as [|c s IH]; simpl; intros H.
  - exists [], []. auto.
  - destruct (q c) eqn:Hc.
    + destruct (star_greedy q s k) as [a'|] eqn:E.
      * injection H as ->. destruct (IH eq_refl) as (pre & rest & -> & Hp & Hk).
        exists (c :: pre), rest. simpl. rewrite Hc. auto.
      * exists [], (c :: s). auto.
    + exists [], (c :: s). auto.
Qed.

Lemma star_greedy_complete q pre rest k :
  forallb q pre = true -> k rest <> None -> star_greedy q (pre ++ rest) k <> None.
Proof.
  induction pre as [|c pre IH]; simpl; intros Hp Hk.
  - destruct rest as [|c r]; simpl; auto.
    destruct (q c); auto. destruct (star_greedy q r k); auto. discriminate.
  - apply andb_prop in Hp as [Hc Hp]. rewrite Hc.
    specialize (IH Hp Hk). destruct (star_greedy q (pre ++ rest) k); congruence.
Qed.

(** The longest prefix that lets the rest succeed wins. *)
Lemma star_greedy_pick q pre rest k a :
  forallb q pre = true ->
  k rest = Some a ->
  (forall mid rest', rest = mid ++ rest' -> mid <> [] -> forallb q mid = true ->
                     k rest' = None) ->
  star_greedy q (pre ++ rest) k = Some a.
Proof.
  intros Hp Hk Hlonger.
  assert (Hrest : star_greedy q rest k = Some a).
  { clear Hp. destruct (star_greedy q rest k) as [a'|] eqn:E.
    - apply star_greedy_sound in E as (mid & rest' & -> & Hm & Hk').
      destruct mid as [|c mid]; [simpl in Hk; congruence|].
      rewrite (Hlonger (c :: mid) rest' eq_refl) in Hk'; [discriminate| |exact Hm].
      discriminate.
    - exfalso. revert E. change rest with ([] ++ rest).
      apply star_greedy_complete; auto. congruence. }
  clear Hlonger Hk. induction pre as [|c pre IH]; simpl; auto.
  simpl in Hp. apply andb_prop in Hp as [Hc Hp]. now rewrite Hc, (IH Hp).
Qed.

(** The usual case: the repetition stops at a byte outside the class. *)
Lemma star_greedy_max q pre rest k a :
  forallb q pre = true ->
  match rest with c :: _ => q c = false | [] => True end ->
  k rest = Some a ->
  star_greedy q (pre ++ rest) k = Some a.
Proof.
  intros Hp Hstop Hk. apply star_greedy_pick; auto.
  intros [|c mid] rest' -> Hne Hm; [congruence|].
  simpl in *. apply andb_prop in Hm as [Hc _]. congruence.
Qed.

Lemma star_greedy_none q s k :
  (forall pre rest, s = pre ++ rest -> forallb q pre = true -> k rest = None) ->
  star_greedy q s k = None.
Proof.
  intros H. destruct (star_greedy q s k) as [a|] eqn:E; auto.
  apply star_greedy_sound in E as (pre & rest & -> & Hp & Hk).
  rewrite (H pre rest eq_refl Hp) in Hk. discriminate.
Qed.

Lemma star_greedy_ext q q' s k :
  (forall c, q c = q' c) -> star_greedy q s k = star_greedy q' s k.
Proof.
  intros H. induction s as [|c s IH]; simpl; auto. now rewrite H, IH.
Qed.

Lemma star_lazy_sound q s k a :
  star_lazy q s k = Some a ->
  exists pre rest, s = pre ++ rest /\ forallb q pre = true /\ k rest = Some a.
Proof.
  induction s as [|c s IH]; simpl; intros H.
  - exists [], []. destruct (k []); auto.
  - destruct (k (c :: s)) as [a'|] eqn:E.
    + exists [], (c :: s). injection H as ->. auto.
    + destruct (q c) eqn:Hc; [|discriminate].
      destruct (IH H) as (pre & rest & -> & Hp & Hk).
      exists (c :: pre), rest. simpl. rewrite Hc. auto.
Qed.

Lemma star_lazy_complete q pre rest k :
  forallb q pre = true -> k rest <> None -> star_lazy q (pre ++ rest) k <> None.
Proof.
  induction pre as [|c pre IH]; simpl; intros Hp Hk.
  - destruct rest as [|c r]; simpl; destruct (k _); congruence.
  - apply andb_prop in Hp as [Hc Hp]. rewrite Hc.
    destruct (k (c :: pre ++ rest)); [discriminate|]. auto.
Qed.

(** The shortest prefix that lets the rest succeed wins. *)
Lemma star_lazy_pick q pre rest k a :
  forallb q pre = true ->
  k rest = Some a ->
  (forall p1 p2, pre = p1 ++ p2 -> p2 <> [] -> k (p2 ++ rest) = None) ->
  star_lazy q (pre ++ rest) k = Some a.
Proof.
  induction pre as [|c pre IH]; intros Hp Hk Hshorter.
  - simpl. destruct rest; simpl; now rewrite Hk.
  - simpl in Hp. apply andb_prop in Hp as [Hc Hp]. simpl.
    pose proof (Hshorter [] (c :: pre) eq_refl) as H0. simpl in H0.
    rewrite H0, Hc by discriminate.
    apply IH; auto. intros p1 p2 -> Hne. apply (Hshorter (c :: p1) p2); auto.
Qed.

End Search.

Section Soundness.
Context (ic : bool) (whole : str) {A : Type}.

(** Whatever the search finds is a match. *)
Lemma rmatch_sound r : forall s g (k : str -> groups -> option A) a,
  rmatch ic whole r s g k = Some a ->
  exists s' g', den ic whole r s g s' g' /\ k s' g' = Some a.
Proof.
  induction r as [| | | |c|p|r1 IH1 r2 IH2|r1 IH1 r2 IH2|p|p|p|r IH|n r IH];
    simpl; intros s g k a H.
  - exists s, g. auto.
  - discriminate.
  - destruct (Nat.eqb_spec (length s) (length whole)); [|discriminate].
    exists s, g. auto.
  - destruct s as [|c [|c' s]]; try discriminate.
    + exists [], g. auto.
    + destruct (ascii_dec c LF) as [->|]; [|discriminate]. exists [LF], g. auto.
  - destruct s as [|x s]; [discriminate|].
    unfold ascii_eqb in H.
    destruct (ascii_dec (fold_case ic x) (fold_case ic c)); [|discriminate].
    exists s, g. split; auto. exists x. auto.
  - destruct s as [|x s]; [discriminate|].
    destruct (test ic p x) eqn:E; [|discriminate].
    exists s, g. split; auto. exists x. auto.
  - apply IH1 in H as (s1 & g1 & H1 & H). apply IH2 in H as (s2 & g2 & H2 & H).
    exists s2, g2. split; auto. exists s1, g1. auto.
  - destruct (rmatch ic whole r1 s g k) as [a'|] eqn:E.
    + injection H as ->. apply IH1 in E as (s' & g' & H1 & H).
      exists s', g'. auto.
    + apply IH2 in H as (s' & g' & H2 & H). exists s', g'. auto.
  - apply star_greedy_sound in H as (pre & rest & -> & Hp & Hk).
    exists rest, g. split; auto. exists pre. auto.
  - destruct s as [|x s]; [discriminate|].
    destruct (test ic p x) eqn:E; [|discriminate].
    apply star_greedy_sound in H as (pre & rest & -> & Hp & Hk).
    exists rest, g. split; auto. exists x, pre. auto.
  - apply star_lazy_sound in H as (pre & rest & -> & Hp & Hk).
    exists rest, g. split; auto. exists pre. auto.
  - destruct (rmatch ic whole r s g k) as [a'|] eqn:E.
    + injection H as ->. apply IH in E as (s' & g' & H1 & H).
      exists s', g'. auto.
    + exists s, g. auto.
  - apply IH in H as (s' & g1 & H1 & H).
    exists s', ((n, firstn (length s - length s') s) :: g1). split; auto.
    exists g1. auto.
Qed.

(** The search finds a match whenever there is one. *)
Lemma rmatch_complete r : forall s g s' g' (k : str -> groups -> option A),
  den ic whole r s g s' g' -> k s' g' <> None ->
  rmatch ic whole r s g k <> None.
Proof.
  induction r as [| | | |c|p|r1 IH1 r2 IH2|r1 IH1 r2 IH2|p|p|p|r IH|n r IH];
    simpl; intros s g s' g' k D K.
  - destruct D as [-> ->]. exact K.
  - contradiction.
  - destruct D as (-> & -> & ->). now rewrite Nat.eqb_refl.
  - destruct D as (-> & -> & [->| ->]); auto.
  - destruct D as (x & -> & E & ->). unfold ascii_eqb. rewrite E.
    destruct (ascii_dec _ _); congruence.
  - destruct D as (x & -> & E & ->). now rewrite E.
  - destruct D as (s1 & g1 & D1 & D2). eapply IH1; eauto.
  - destruct D as [D|D].
    + specialize (IH1 _ _ _ _ _ D K).
      destruct (rmatch ic whole r1 s g k); congruence.
    + specialize (IH2 _ _ _ _ _ D K).
      destruct (rmatch ic whole r1 s g k); congruence.
  - destruct D as (pre & -> & Hp & ->). now apply star_greedy_complete.
  - destruct D as (x & pre & -> & Hx & Hp & ->). rewrite Hx.
    now apply star_greedy_complete.
  - destruct D as (pre & -> & Hp & ->). now apply star_lazy_complete.
  - destruct D as [D|[-> ->]].
    + specialize (IH _ _ _ _ _ D K).
      destruct (rmatch ic whole r s g k); congruence.
    + destruct (rmatch ic whole r s g k); congruence.
  - destruct D as (g1 & D & ->). eapply IH; eauto.
Qed.

End Soundness.

(** A pattern used as a test: it matches exactly when there is a match. *)
Lemma matches_iff ic r s :
  matches ic r s = true <-> exists s' g', den ic s r s [] s' g'.
Proof.
  unfold matches, re_match. split.
  - destruct (rmatch ic s r s [] _) as [g|] eqn:E; [|discriminate].
    intros _. apply rmatch_sound in E as (s' & g' & D & _). eauto.
  - intros (s' & g' & D).
    pose proof (rmatch_complete ic s r s [] s' g' (fun _ g => Some g) D) as H.
    destruct (rmatch ic s r s [] _); auto. exfalso. apply H; [discriminate | reflexivity].
Qed.

(** ** The classes of the patterns hold no letter *)

Ltac by_cases_on_byte c :=
  destruct c as [[] [] [] [] [] [] [] []]; reflexivity.

Lemma is_space_lower c : is_space (lower_char c) = is_space c.
Proof. by_cases_on_byte c. Qed.

Lemma is_digit_lower c : is_digit (lower_char c) = is_digit c.
Proof. by_cases_on_byte c. Qed.

Lemma dot_lower c : dot (lower_char c) = dot c.
Proof. by_cases_on_byte c. Qed.

Lemma test_is_space ic c : test ic is_space c = is_space c.
Proof. destruct ic; [apply is_space_lower | reflexivity]. Qed.

Lemma test_is_digit ic c : test ic is_digit c = is_digit c.
Proof. destruct ic; [apply is_digit_lower | reflexivity]. Qed.

Lemma test_dot ic c : test ic dot c = dot c.
Proof. destruct ic; [apply dot_lower | reflexivity]. Qed.

Lemma forallb_ext' {T} (f g : T -> bool) l :
  (forall x, f x = g x) -> forallb f l = forallb g l.
Proof. intros H. induction l as [|x l IH]; simpl; auto. now rewrite H, IH. Qed.

Lemma is_digit_not_space c : is_digit c = true -> is_space c = false.
Proof. destruct c as [[] [] [] [] [] [] [] []]; simpl; auto; discriminate. Qed.

(** ** Decimal numbers *)

Lemma uint_of_chars_of_uint u : uint_of_chars (chars_of_uint u) = Some u.
Proof. induction u; simpl; auto; rewrite IHu; reflexivity. Qed.

Lemma chars_of_uint_digits u : forallb is_digit (chars_of_uint u) = true.
Proof. induction u; simpl; auto. Qed.

Lemma chars_of_uint_nil u : chars_of_uint u = [] -> u = Decimal.Nil.
Proof. destruct u; simpl; auto; discriminate. Qed.

Lemma str_of_int_digits z : (0 <= z)%Z -> forallb is_digit (str_of_int z) = true.
Proof.
  unfold str_of_int. destruct z; simpl; intros H; auto using chars_of_uint_digits.
Qed.

Lemma str_of_int_nonempty z : str_of_int z <> [].
Proof.
  unfold str_of_int. destruct z; simpl; try discriminate.
  intros H. apply chars_of_uint_nil in H. now apply DecimalPos.Unsigned.to_uint_nonnil in H.
Qed.

(** [int(str(z)) == z] for a natural number. *)
Lemma int_of_str_of_int z : (0 <= z)%Z -> int_of_str (str_of_int z) = Some z.
Proof.
  intros Hz. unfold int_of_str.
  destruct (str_of_int z) eqn:E; [now apply str_of_int_nonempty in E|].
  rewrite <- E. unfold str_of_int. destruct z; simpl; [reflexivity| |lia].
  rewrite uint_of_chars_of_uint. simpl. unfold Z.of_uint.
  now rewrite DecimalPos.Unsigned.of_to.
Qed.

Lemma int_of_str_nonneg s z : int_of_str s = Some z -> (0 <= z)%Z.
Proof.
  unfold int_of_str. destruct s; [discriminate|].
  destruct (uint_of_chars (a :: s)); simpl; [|discriminate].
  intros [= <-]. unfold Z.of_uint. lia.
Qed.

Lemma uint_of_chars_digits s :
  forallb is_digit s = true -> uint_of_chars s <> None.
Proof.
  induction s as [|c s IH]; simpl; [discriminate|].
  intros H. apply andb_prop in H as [Hc Hs]. specialize (IH Hs).
  destruct (uint_of_chars s); [|congruence].
  destruct c as [[] [] [] [] [] [] [] []]; simpl in *; discriminate.
Qed.

(** [int] accepts every capture of [\d+]. *)
Lemma int_of_str_digits s :
  s <> [] -> forallb is_digit s = true -> exists z, int_of_str s = Some z.
Proof.
  intros Hne Hd. unfold int_of_str. destruct s; [congruence|].
  apply uint_of_chars_digits in Hd.
  destruct (uint_of_chars (a :: s)); [|congruence]. simpl. eauto.
Qed.

(** C6: the line ["* Bugfix: fixed login bug (!17)"] is read as the change
    titled "fixed login bug", of kind "Bugfix", with merge request 17, and
    that change is written as the same line; a change is written with the
    suffix [" (!<mr>)"] exactly when its merge request is not zero. *)
Theorem change_line_example :
  Change_from_string (lit "* Bugfix: fixed login bug (!17)")
  = Ok (mkChange (lit "fixed login bug") (lit "Bugfix") 17)
  /\ Change_to_string (mkChange (lit "fixed login bug") (lit "Bugfix") 17)
     = lit "* Bugfix: fixed login bug (!17)"
  /\ forall c : Change,
       Change_to_string c
       = lit "* " ++ kind c ++ lit ": " ++ title c
         ++ (if (mr c =? 0)%Z then []
             else lit " (!" ++ str_of_int (mr c) ++ lit ")").
Proof.
  split; [vm_compute; reflexivity|]. split; [vm_compute; reflexivity|].
  intros c. unfold Change_to_string.
  destruct (mr c =? 0)%Z.
  - now rewrite app_nil_r.
  - now rewrite <- !app_assoc.
Qed.

(** C3: a text of blanks only is not taken for an empty changelog: a list
    of blank lines is returned whole by [crop_line_padding], and
    [Changelog.from_string] then fails on the missing top header.  Only the
    empty string gives the empty changelog and its warning. *)
Theorem blank_changelog_rejected :
  Changelog_from_string (lit " ") = ([], Raise missing_top_header)
  /\ Changelog_from_string [LF] = ([], Raise missing_top_header)
  /\ crop_line_padding (Lines [[]; []]) = [[]; []]
  /\ Changelog_from_string []
     = ([lit "WARNING: Changelog is emtpy"], Ok (mkChangelog [])).
Proof. repeat split; vm_compute; reflexivity. Qed.

(** C2: exceptions other than the assertion of a format escape the parsers:
    a version made of its header only raises [UnboundLocalError], also
    inside a changelog; the empty text raises [IndexError]; and a change with
    no title fails on an assertion that carries no message. *)
Theorem header_only_version_crashes :
  Version_from_string (lit "## v1.0.0 (1 Jan 2017)") = Raise UnboundLocalError
  /\ snd (Changelog_from_string
            (lit "# Changelog" ++ [LF] ++ lit "## v1.0.0 (1 Jan 2017)"))
     = Raise UnboundLocalError
  /\ Version_from_string [] = Raise IndexError
  /\ Change_from_string (lit "* Bugfix: ") = Raise (AssertionError None).
Proof. repeat split; vm_compute; reflexivity. Qed.

Lemma int_or_0_nonneg m z : int_or_0 m = Ok z -> (0 <= z)%Z.
Proof.
  unfold int_or_0. destruct m as [d|]; [|intros [= <-]; lia].
  destruct (truthy d); [|intros [= <-]; lia].
  destruct (int_of_str d) eqn:E; [|discriminate].
  intros [= <-]. eapply int_of_str_nonneg; eauto.
Qed.

Lemma Change_init_fields t k m c :
  Change_init t k m = Ok c -> title c = t /\ kind c = k /\ mr c = m.
Proof.
  unfold Change_init, assert, bind.
  destruct (truthy t); [|discriminate].
  destruct (existsb (str_eqb k) KINDS); [|discriminate].
  destruct ((m =? 0)%Z || isinstance_int m); [|discriminate].
  intros [= <-]. auto.
Qed.

Lemma negative_mr_constructed :
  ~ (forall t k m c, Change_init t k m = Ok c -> (0 <= mr c)%Z).
Proof.
  intros H.
  specialize (H (lit "x") (lit "Changes") (-5)%Z
                (mkChange (lit "x") (lit "Changes") (-5)) eq_refl).
  simpl in H. lia.
Qed.

Lemma no_pad_lower l : no_pad (lower l) = no_pad l.
Proof.
  unfold no_pad, ends_kept, lower. rewrite <- map_rev.
  f_equal.
  - destruct l; simpl; auto. now rewrite is_space_lower.
  - destruct (rev l); simpl; auto. now rewrite is_space_lower.
Qed.

Lemma padded_end u t :
  forallb is_space t = true -> t <> [] -> no_pad (u ++ t) = false.
Proof.
  intros Ht Hne. unfold no_pad, ends_kept. rewrite rev_app_distr.
  destruct (rev t) as [|c r] eqn:E.
  - apply (f_equal (@rev ascii)) in E. rewrite rev_involutive in E. now subst.
  - assert (Hc : is_space c = true).
    { rewrite forallb_forall in Ht. apply Ht, in_rev. rewrite E. now left. }
    simpl. rewrite Hc. apply andb_false_r.
Qed.

Ltac break :=
  repeat match goal with
  | H : exists _, _ |- _ => destruct H
  | H : _ /\ _ |- _ => destruct H
  end.

Lemma top_header_matches l :
  no_pad l = true -> matches false re_top_header (lower l) = true ->
  is_top_header l.
Proof.
  intros Hpad H. apply matches_iff in H as (s' & g' & D). simpl in D.
  break. subst. unfold fold_case in *. subst.
  match goal with
  | E0 : lower l = _ :: ?w ++ _, Hw : forallb _ ?w = true |- _ =>
      rename E0 into E; rename Hw into Hws; rename w into ws
  end.
  match goal with
  | E0 : lower l = _ :: _ ++ _ :: _ :: _ :: _ :: _ :: _ :: _ :: _ :: _ :: ?w ++ ?e0,
    Hw : forallb _ ?w = true, He0 : ?e0 = [] \/ _ |- _ =>
      rename Hw into Hws2; rename w into ws2; rename He0 into He; rename e0 into e
  end.
  exists ws. split; [exact Hws|].
  assert (Hpad' : no_pad (("#" :: ws ++ lit "changelog") ++ (ws2 ++ e)) = true).
  { assert (Heq : ("#" :: ws ++ lit "changelog") ++ (ws2 ++ e) = lower l).
    { rewrite E. simpl. now rewrite <- app_assoc. }
    now rewrite Heq, no_pad_lower. }
  assert (Hnil : ws2 ++ e = []).
  { destruct (ws2 ++ e) as [|c t] eqn:Et; auto. exfalso.
    rewrite <- Et, padded_end in Hpad'.
    - discriminate.
    - rewrite forallb_app. apply andb_true_intro. split; [exact Hws2|].
      destruct He; subst; reflexivity.
    - rewrite Et. discriminate. }
  rewrite E. simpl. rewrite Hnil. reflexivity.
Qed.

(** C9: when the first line of the cropped text is not a level-one header
    reading "changelog", in any letter case, [Changelog.from_string] fails
    with the assertion "Changelog missing top header.". *)
Theorem top_header_required (string line0 : str) (rest : list str) :
  crop_line_padding (Text string) = line0 :: rest ->
  ~ is_top_header line0 ->
  Changelog_from_string string = ([], Raise missing_top_header).
Proof.
  intros Hcrop Hno. unfold Changelog_from_string. rewrite Hcrop.
  destruct (matches false re_top_header (lower line0)) eqn:E; [|reflexivity].
  exfalso. apply Hno, top_header_matches; auto.
  pose proof (crop_lines_no_pad (splitlines string)) as Hp.
  simpl in Hcrop. rewrite Hcrop in Hp. now inversion Hp.
Qed.

Lemma top_header_required_witness :
  Changelog_from_string (lit "## v1.0.0 (1 Jan 2017)")
  = ([], Raise missing_top_header).
Proof.
  apply (top_header_required (lit "## v1.0.0 (1 Jan 2017)")
           (lit "## v1.0.0 (1 Jan 2017)") []).
  - vm_compute. reflexivity.
  - intros (ws & Hws & H). destruct ws as [|c ws]; [discriminate|].
    injection H as H1 _. subst c. discriminate.
Defined.

Lemma str_eqb_eq a b : str_eqb a b = true <-> a = b.
Proof.
  unfold str_eqb. destruct (list_eq_dec ascii_dec a b); split; congruence.
Qed.

Lemma str_eqb_refl a : str_eqb a a = true.
Proof. now apply str_eqb_eq. Qed.

Lemma lower_upper_char c : lower_char (upper_char c) = lower_char c.
Proof. by_cases_on_byte c. Qed.

Lemma lower_lower_char c : lower_char (lower_char c) = lower_char c.
Proof. by_cases_on_byte c. Qed.

Lemma upper_lower_char c : upper_char (lower_char c) = upper_char c.
Proof. by_cases_on_byte c. Qed.

Lemma lower_idem s : lower (lower s) = lower s.
Proof.
  unfold lower. rewrite map_map. apply map_ext. exact lower_lower_char.
Qed.

Lemma lower_capitalize s : lower (capitalize s) = lower s.
Proof.
  destruct s as [|c s]; simpl; auto.
  now rewrite lower_upper_char, lower_idem.
Qed.

Lemma capitalize_lower s : capitalize (lower s) = capitalize s.
Proof.
  destruct s as [|c s]; simpl; auto.
  now rewrite upper_lower_char, lower_idem.
Qed.

Lemma capitalize_month M : In M MONTHS -> capitalize M = M.
Proof.
  intros H. repeat (destruct H as [<-|H]; [reflexivity|]). destruct H.
Qed.

Lemma month_check_iff m :
  existsb (str_eqb (capitalize m)) MONTHS = true <-> month_in_range m.
Proof.
  unfold month_in_range. rewrite existsb_exists. split.
  - intros (M & HM & E). apply str_eqb_eq in E. exists M. split; auto.
    now rewrite <- E, lower_capitalize.
  - intros (M & HM & E). exists M. split; auto. apply str_eqb_eq.
    now rewrite <- capitalize_lower, E, capitalize_lower, capitalize_month.
Qed.

Lemma day_check_iff d :
  isinstance_int d && (0 <? d)%Z && (d <? 32)%Z = true <-> day_in_range d.
Proof.
  unfold day_in_range, isinstance_int. change sys_maxint with 9223372036854775807%Z.
  rewrite !andb_true_iff. lia.
Qed.

Lemma year_check_iff y :
  isinstance_int y && (2017 <=? y)%Z && (y <? 2030)%Z = true <-> year_in_range y.
Proof.
  unfold year_in_range, isinstance_int. change sys_maxint with 9223372036854775807%Z.
  rewrite !andb_true_iff. lia.
Qed.

Lemma not_true_false b : b <> true -> b = false.
Proof. destruct b; congruence. Qed.

(** C8, as the code has it: [Version.__init__] fails with an assertion when
    the day is not an [int] from 1 to 31, when the month is not one of the
    twelve abbreviations in some letter case, or when the year is not an
    [int] from 2017 to 2029.  With a valid name, the assertion is that of the
    first of the three that fails: it carries "Invalid day '<day>'" for the
    day, the capitalised month alone for the month, and the year alone for
    the year.  With a valid name and the three in range the construction
    succeeds and stores the capitalised month. *)
Theorem version_date_validation (name : str) (day : Z) (month : str) (year : Z)
    (notes : str) :
  (~ (day_in_range day /\ month_in_range month /\ year_in_range year) ->
   exists arg, Version_init name day month year notes = Raise (AssertionError arg))
  /\ (re_match false re_version_name name <> None ->
      (~ day_in_range day ->
       Version_init name day month year notes
       = Raise (AssertionError (quoted "Invalid day '" (str_of_int day) "'")))
      /\ (day_in_range day -> ~ month_in_range month ->
          Version_init name day month year notes
          = Raise (AssertionError (Some (PStr (capitalize month)))))
      /\ (day_in_range day -> month_in_range month -> ~ year_in_range year ->
          Version_init name day month year notes
          = Raise (AssertionError (Some (PInt year))))
      /\ (day_in_range day -> month_in_range month -> year_in_range year ->
          exists pre,
            Version_init name day month year notes
            = Ok (mkVersion name pre day (capitalize month) year notes []))).
Proof.
  unfold Version_init, assert, bind.
  rewrite <- day_check_iff, <- month_check_iff, <- year_check_iff.
  destruct (re_match false re_version_name name) as [m|].
  - destruct (isinstance_int day && (0 <? day)%Z && (day <? 32)%Z);
    destruct (existsb (str_eqb (capitalize month)) MONTHS);
    destruct (isinstance_int year && (2017 <=? year)%Z && (year <? 2030)%Z);
    (split; [intros H; try (exfalso; apply H; tauto); eauto | intros _]);
    repeat split; try congruence; try tauto; eauto.
  - split; [eauto | congruence].
Qed.

Lemma version_date_validation_witness :
  exists pre,
    Version_init (lit "v1.2.0") 15 (lit "mar") 2020 []
    = Ok (mkVersion (lit "v1.2.0") pre 15 (lit "Mar") 2020 [] []).
Proof.
  apply (version_date_validation (lit "v1.2.0") 15 (lit "mar") 2020 []).
  - vm_compute. discriminate.
  - unfold day_in_range. lia.
  - exists (lit "Mar"). split; [vm_compute; tauto | reflexivity].
  - unfold year_in_range. lia.
Defined.

(** ** Following the search along one way through a pattern *)

Section Steps.
Context (ic : bool) (whole : str) {A : Type}.
Implicit Types (s : str) (g : groups) (k : str -> groups -> option A) (a : A).

Lemma m_seq r1 r2 s g k a :
  rmatch ic whole r1 s g (fun s' g' => rmatch ic whole r2 s' g' k) = Some a ->
  rmatch ic whole (Seq r1 r2) s g k = Some a.
Proof. auto. Qed.

Lemma m_eps s g k a : k s g = Some a -> rmatch ic whole Eps s g k = Some a.
Proof. auto. Qed.

Lemma m_bos s g k a :
  length s = length whole -> k s g = Some a -> rmatch ic whole Bos s g k = Some a.
Proof. simpl. intros ->. now rewrite Nat.eqb_refl. Qed.

Lemma m_eos g k a : k [] g = Some a -> rmatch ic whole Eos [] g k = Some a.
Proof. auto. Qed.

Lemma m_chr c x s g k a :
  fold_case ic x = fold_case ic c -> k s g = Some a ->
  rmatch ic whole (Chr c) (x :: s) g k = Some a.
Proof.
  simpl. intros ->. unfold ascii_eqb. now destruct (ascii_dec _ _).
Qed.

Lemma m_cls p x s g k a :
  test ic p x = true -> k s g = Some a ->
  rmatch ic whole (Cls p) (x :: s) g k = Some a.
Proof. simpl. now intros ->. Qed.

Lemma m_star p pre rest g k a :
  forallb (test ic p) pre = true -> stops (test ic p) rest ->
  k rest g = Some a ->
  rmatch ic whole (Star p) (pre ++ rest) g k = Some a.
Proof. intros. simpl. now apply star_greedy_max. Qed.

Lemma m_star_none p rest g k a :
  stops (test ic p) rest -> k rest g = Some a ->
  rmatch ic whole (Star p) rest g k = Some a.
Proof. intros. now apply (m_star p [] rest). Qed.

Lemma m_plus p pre rest g k a :
  pre <> [] -> forallb (test ic p) pre = true -> stops (test ic p) rest ->
  k rest g = Some a ->
  rmatch ic whole (Plus p) (pre ++ rest) g k = Some a.
Proof.
  intros Hne Hp Hs Hk. destruct pre as [|x pre]; [congruence|].
  simpl in *. apply andb_prop in Hp as [-> Hp]. now apply star_greedy_max.
Qed.

Lemma m_star_end p pre g k a :
  forallb (test ic p) pre = true -> k [] g = Some a ->
  rmatch ic whole (Star p) pre g k = Some a.
Proof.
  intros. rewrite <- (app_nil_r pre). apply m_star; auto. exact I.
Qed.

Lemma m_plus_end p pre g k a :
  pre <> [] -> forallb (test ic p) pre = true -> k [] g = Some a ->
  rmatch ic whole (Plus p) pre g k = Some a.
Proof.
  intros. rewrite <- (app_nil_r pre). apply m_plus; auto. exact I.
Qed.

Lemma m_opt_take r s g k a :
  rmatch ic whole r s g k = Some a -> rmatch ic whole (Opt r) s g k = Some a.
Proof. simpl. now intros ->. Qed.

Lemma m_opt_skip r s g k a :
  rmatch ic whole r s g k = None -> k s g = Some a ->
  rmatch ic whole (Opt r) s g k = Some a.
Proof. simpl. now intros ->. Qed.

Lemma m_alt_l r1 r2 s g k a :
  rmatch ic whole r1 s g k = Some a -> rmatch ic whole (Alt r1 r2) s g k = Some a.
Proof. simpl. now intros ->. Qed.

Lemma m_alt_r r1 r2 s g k a :
  rmatch ic whole r1 s g k = None -> rmatch ic whole r2 s g k = Some a ->
  rmatch ic whole (Alt r1 r2) s g k = Some a.
Proof. simpl. now intros ->. Qed.

Lemma m_grp n r s g k a :
  rmatch ic whole r s g
    (fun s' g' => k s' ((n, firstn (length s - length s') s) :: g')) = Some a ->
  rmatch ic whole (Grp n r) s g k = Some a.
Proof. auto. Qed.

End Steps.

(** What a group captured: the bytes between where it began and where it
    ended. *)
Lemma consumed (s pre s' : str) : s = pre ++ s' -> firstn (length s - length s') s = pre.
Proof.
  intros ->. rewrite length_app, Nat.add_sub.
  rewrite firstn_app, Nat.sub_diag, firstn_all. simpl. apply app_nil_r.
Qed.

Ltac by_consumed :=
  apply consumed; cbn [app]; rewrite <- ?app_assoc, ?app_nil_r; cbn [app];
  reflexivity.

Lemma forallb_test_digit ic s :
  forallb is_digit s = true -> forallb (test ic is_digit) s = true.
Proof. intros <-. apply forallb_ext', test_is_digit. Qed.

Lemma forallb_test_space ic s :
  forallb is_space s = true -> forallb (test ic is_space) s = true.
Proof. intros <-. apply forallb_ext', test_is_space. Qed.

Lemma forallb_test_dot ic s :
  forallb dot s = true -> forallb (test ic dot) s = true.
Proof. intros <-. apply forallb_ext', test_dot. Qed.

Ltac unfold_pattern :=
  cbn [cat fold_right re_version_core re_version_name re_version_header app].

Ltac stop_here :=
  cbn [stops]; rewrite ?test_is_digit, ?test_is_space, ?test_dot;
  solve [reflexivity | assumption | exact I].

Lemma version_core_matches ic whole {A} major minor patch rest g
    (k : str -> groups -> option A) a :
  digits major -> digits minor -> digits patch ->
  stops is_digit rest ->
  k rest g = Some a ->
  rmatch ic whole (cat re_version_core) (version_core major minor patch ++ rest) g k
  = Some a.
Proof.
  intros [N1 D1] [N2 D2] [N3 D3] Hstop Hk. unfold version_core.
  unfold_pattern. rewrite <- !app_assoc. cbn [app]. rewrite <- !app_assoc. cbn [app].
  apply m_seq; apply m_chr; [reflexivity|].
  apply m_seq; apply m_plus; auto using forallb_test_digit; [stop_here|].
  apply m_seq; apply m_chr; [reflexivity|].
  apply m_seq; apply m_plus; auto using forallb_test_digit; [stop_here|].
  apply m_seq; apply m_chr; [reflexivity|].
  apply m_seq; apply m_plus; auto using forallb_test_digit.
  destruct rest; simpl in *; auto. now rewrite test_is_digit.
Qed.

Lemma version_name_plain major minor patch :
  digits major -> digits minor -> digits patch ->
  re_match false re_version_name (version_core major minor patch) = Some [].
Proof.
  intros H1 H2 H3. unfold re_match.
  rewrite <- (app_nil_r (version_core major minor patch)) at 2.
  cbn [cat fold_right re_version_name].
  apply m_seq; apply m_bos; [now rewrite app_nil_r|].
  apply m_seq; apply version_core_matches; auto. exact I.
Qed.

Lemma version_name_suffixed major minor patch body :
  digits major -> digits minor -> digits patch ->
  body <> [] -> forallb dot body = true ->
  re_match false re_version_name (version_core major minor patch ++ "-" :: body)
  = Some [(1, "-" :: body)].
Proof.
  intros H1 H2 H3 Hne Hdot. unfold re_match.
  cbn [cat fold_right re_version_name].
  apply m_seq; apply m_bos; [reflexivity|].
  apply m_seq; apply version_core_matches; auto; [reflexivity|].
  apply m_seq; apply m_opt_take; apply m_grp; apply m_seq; apply m_chr; [reflexivity|].
  apply m_seq; apply m_plus_end; auto using forallb_test_dot.
  apply m_eps; apply m_seq; apply m_eos. cbn [rmatch]. do 3 f_equal.
  by_consumed.
Qed.

Lemma date_checks_pass name day month year notes m :
  re_match false re_version_name name = Some m ->
  day_in_range day -> month_in_range month -> year_in_range year ->
  Version_init name day month year notes
  = Ok (mkVersion name
          match group m 1 with Some s => truthy s | None => false end
          day (capitalize month) year notes []).
Proof.
  intros Hm Hd Hmo Hy. unfold Version_init. rewrite Hm.
  apply day_check_iff in Hd. apply month_check_iff in Hmo.
  apply year_check_iff in Hy. now rewrite Hd, Hmo, Hy.
Qed.

(** C7: for a name of the grammar [v<major>.<minor>.<patch>[-<suffix>]] the
    constructed version is a prerelease exactly when the name has a
    suffix. *)
Theorem prerelease_iff_suffix (major minor patch suffix : str) (day : Z)
    (month : str) (year : Z) (notes : str) :
  digits major -> digits minor -> digits patch -> valid_suffix suffix ->
  day_in_range day -> month_in_range month -> year_in_range year ->
  exists v,
    Version_init (version_core major minor patch ++ suffix) day month year notes
    = Ok v
    /\ name v = version_core major minor patch ++ suffix
    /\ (prerelease v = true <-> suffix <> []).
Proof.
  intros H1 H2 H3 [->|(body & Hne & Hdot & ->)] Hd Hm Hy.
  - rewrite app_nil_r.
    rewrite (date_checks_pass _ _ _ _ _ _ (version_name_plain _ _ _ H1 H2 H3))
      by assumption.
    eexists. split; [reflexivity|]. simpl. split; [reflexivity|].
    split; congruence.
  - rewrite (date_checks_pass _ _ _ _ _ _
               (version_name_suffixed _ _ _ _ H1 H2 H3 Hne Hdot)) by assumption.
    eexists. split; [reflexivity|]. simpl. split; [reflexivity|].
    split; congruence.
Qed.

Lemma prerelease_iff_suffix_witness :
  exists v,
    Version_init (lit "v1.2.0-rc1") 15 (lit "Mar") 2020 [] = Ok v
    /\ name v = lit "v1.2.0-rc1"
    /\ (prerelease v = true <-> lit "-rc1" <> []).
Proof.
  apply (prerelease_iff_suffix (lit "1") (lit "2") (lit "0") (lit "-rc1")
           15 (lit "Mar") 2020 []).
  - split; [discriminate | reflexivity].
  - split; [discriminate | reflexivity].
  - split; [discriminate | reflexivity].
  - right. exists (lit "rc1"). repeat split. discriminate.
  - unfold day_in_range. lia.
  - exists (lit "Mar"). split; [vm_compute; tauto | reflexivity].
  - unfold year_in_range. lia.
Defined.

(** A run of bytes of a class, up to a byte outside it, is read in one way. *)
Lemma span_unique {T} (q : T -> bool) (a b r r' : list T) :
  forallb q a = true -> forallb q b = true ->
  match r with c :: _ => q c = false | [] => True end ->
  match r' with c :: _ => q c = false | [] => True end ->
  a ++ r = b ++ r' -> a = b /\ r = r'.
Proof.
  revert b. induction a as [|x a IH]; intros [|y b] Ha Hb Hr Hr' E; simpl in *.
  - auto.
  - subst r. apply andb_prop in Hb as [Hy _]. congruence.
  - subst r'. apply andb_prop in Ha as [Hx _]. congruence.
  - injection E as -> E. apply andb_prop in Ha as [_ Ha].
    apply andb_prop in Hb as [_ Hb].
    destruct (IH b Ha Hb Hr Hr' E) as [-> ->]. auto.
Qed.

Lemma forallb_test_space_inv ic s :
  forallb (test ic is_space) s = true -> forallb is_space s = true.
Proof. intros <-. symmetry. apply forallb_ext', test_is_space. Qed.

Lemma forallb_test_digit_inv ic s :
  forallb (test ic is_digit) s = true -> forallb is_digit s = true.
Proof. intros <-. symmetry. apply forallb_ext', test_is_digit. Qed.

Lemma fold_case_paren ic x : fold_case ic x = fold_case ic "(" -> x = "(".
Proof.
  destruct ic; [|exact (fun H => H)].
  destruct x as [[] [] [] [] [] [] [] []]; cbv; congruence.
Qed.

Lemma fold_case_bang ic x : fold_case ic x = fold_case ic "!" -> x = "!".
Proof.
  destruct ic; [|exact (fun H => H)].
  destruct x as [[] [] [] [] [] [] [] []]; cbv; congruence.
Qed.

Lemma fold_case_close ic x : fold_case ic x = fold_case ic ")" -> x = ")".
Proof.
  destruct ic; [|exact (fun H => H)].
  destruct x as [[] [] [] [] [] [] [] []]; cbv; congruence.
Qed.

Lemma end_is_space (ws e : str) :
  forallb is_space ws = true -> e = [] \/ e = [LF] ->
  forallb is_space (ws ++ e) = true.
Proof.
  intros Hws He. rewrite forallb_app, Hws. destruct He; subst; reflexivity.
Qed.

(** What the end of the pattern of a change accepts: blanks, or blanks, a
    reference and blanks. *)
Lemma change_tail_shape ic whole {A} s g (k : str -> groups -> option A) a :
  rmatch ic whole re_change_tail s g k = Some a ->
  forallb is_space s = true
  \/ exists ws ds ws2,
       s = ws ++ lit "(!" ++ ds ++ ")" :: ws2
       /\ forallb is_space ws = true /\ digits ds /\ forallb is_space ws2 = true.
Proof.
  intros H. apply rmatch_sound in H as (s' & g' & D & _).
  cbn [re_change_tail cat fold_right den] in D.
  destruct D as (s1 & g1 & (ws & -> & Hws & ->) & D).
  destruct D as (s2 & g2 & [D1|[-> ->]] & (s3 & g3 & (ws2 & -> & Hws2 & ->) & D)).
  - right. break. subst.
    repeat match goal with
    | H : fold_case _ _ = fold_case _ "(" |- _ => apply fold_case_paren in H
    | H : fold_case _ _ = fold_case _ "!" |- _ => apply fold_case_bang in H
    | H : fold_case _ _ = fold_case _ ")" |- _ => apply fold_case_close in H
    end. subst.
    match goal with
    | Hx : test ic is_digit ?x = true, Hd : forallb (test ic is_digit) ?d = true,
      He : ?e = [] \/ _ |- _ =>
        exists ws, (x :: d), (ws2 ++ e); split; [|split; [|split; [split|]]];
        [ simpl; now rewrite <- ?app_assoc
        | now apply forallb_test_space_inv in Hws
        | discriminate
        | simpl; rewrite test_is_digit in Hx;
          apply forallb_test_digit_inv in Hd; now rewrite Hx, Hd
        | apply end_is_space; eauto using forallb_test_space_inv ]
    end.
  - left. break. subst. rewrite forallb_app.
    apply forallb_test_space_inv in Hws. rewrite Hws.
    apply end_is_space; eauto using forallb_test_space_inv.
Qed.

Ltac norm_app := repeat first [rewrite <- app_assoc | progress simpl].
Ltac norm_app_in H :=
  repeat first [rewrite <- app_assoc in H | progress simpl in H].

Lemma last_cases {T} (l : list T) : l = [] \/ exists l' x, l = l' ++ [x].
Proof. destruct l using rev_ind; eauto. Qed.

(** A part that ends a string with no blank at its end has none either. *)
Lemma last_clean (p1 p2 : str) :
  no_pad (p1 ++ p2) = true -> p2 <> [] ->
  exists u c, p2 = u ++ [c] /\ is_space c = false.
Proof.
  intros Hpad Hne. destruct (last_cases p2) as [->|(u & c & ->)]; [congruence|].
  exists u, c. split; auto.
  unfold no_pad, ends_kept in Hpad. apply andb_prop in Hpad as [_ H].
  rewrite !rev_app_distr in H. simpl in H. now apply negb_true_iff in H.
Qed.

Lemma forallb_last {T} (q : T -> bool) u c :
  forallb q (u ++ [c]) = true -> q c = true.
Proof.
  rewrite forallb_app. simpl. intros H. apply andb_prop in H as [_ H].
  now rewrite andb_true_r in H.
Qed.

Lemma forallb_rev {T} (q : T -> bool) l : forallb q (rev l) = forallb q l.
Proof.
  induction l as [|x l IH]; simpl; auto.
  rewrite forallb_app, IH. simpl. rewrite andb_true_r. apply andb_comm.
Qed.

Lemma rev_inj {T} (a b : list T) : rev a = rev b -> a = b.
Proof.
  intros H. apply (f_equal (@rev T)) in H. now rewrite !rev_involutive in H.
Qed.

(** The end of the pattern of a change accepts nothing that starts inside a
    title, when the title ends with no blank and with nothing that reads as a
    reference. *)
Lemma change_tail_rejects_cut (t p1 p2 N sfx s : str) :
  no_pad t = true -> (sfx = [] -> ~ ends_with_mr t) ->
  t = p1 ++ p2 -> p2 <> [] ->
  sfx = [] \/ (digits N /\ sfx = lit " (!" ++ N ++ lit ")") ->
  s = p2 ++ sfx ->
  forallb is_space s = true
  \/ (exists ws ds ws2,
        s = ws ++ lit "(!" ++ ds ++ ")" :: ws2
        /\ forallb is_space ws = true /\ digits ds /\ forallb is_space ws2 = true) ->
  False.
Proof.
  intros Hpad Hmr -> Hne Hsfx -> Hshape.
  destruct (last_clean _ _ Hpad Hne) as (u & c & -> & Hc).
  destruct Hshape as [Hsp|(ws & ds & ws2 & E & Hws & [Hdne Hds] & Hws2)].
  - rewrite forallb_app in Hsp. apply andb_prop in Hsp as [Hsp _].
    apply forallb_last in Hsp. congruence.
  - destruct Hsfx as [->|[[HNne HN] ->]].
    + rewrite app_nil_r in E.
      destruct (last_cases ws2) as [->|(w' & y & ->)].
      * apply (Hmr eq_refl). exists (p1 ++ ws), ds. split; [split; auto|].
        rewrite E. norm_app. reflexivity.
      * apply forallb_last in Hws2.
        assert (E' : u ++ [c] = (ws ++ lit "(!" ++ ds ++ ")" :: w') ++ [y]).
        { rewrite E. norm_app. reflexivity. }
        apply app_inj_tail in E' as [_ ->]. congruence.
    + destruct (last_cases ws2) as [->|(w' & y & ->)].
      * assert (E' : ((u ++ [c]) ++ lit " (!" ++ N) ++ [")"]
                     = (ws ++ lit "(!" ++ ds) ++ [")"]).
        { norm_app. norm_app_in E. exact E. }
        apply app_inj_tail in E' as [E' _].
        apply (f_equal (@rev ascii)) in E'.
        rewrite !rev_app_distr in E'. norm_app_in E'.
        apply span_unique with (q := is_digit) in E' as [_ E'].
        -- injection E' as E'.
           assert (Hin : In c (rev ws)) by (rewrite <- E'; simpl; auto).
           rewrite <- in_rev in Hin. rewrite forallb_forall in Hws.
           apply Hws in Hin. congruence.
        -- now rewrite forallb_rev.
        -- now rewrite forallb_rev.
        -- reflexivity.
        -- reflexivity.
      * apply forallb_last in Hws2.
        assert (E' : ((u ++ [c]) ++ lit " (!" ++ N) ++ [")"]
                     = (ws ++ lit "(!" ++ ds ++ ")" :: w') ++ [y]).
        { norm_app. norm_app_in E. exact E. }
        apply app_inj_tail in E' as [_ <-]. discriminate.
Qed.

Lemma one_line_dot s : one_line s = true -> forallb dot s = true.
Proof.
  unfold one_line. induction s as [|c s IH]; simpl; auto.
  intros H. apply andb_prop in H as [Hc Hs]. rewrite (IH Hs), andb_true_r.
  apply andb_prop in Hc as [Hc _]. unfold dot, ascii_eqb in *.
  now destruct (ascii_dec c LF).
Qed.

Section MoreSteps.
Context (ic : bool) (whole : str) {A : Type}.
Implicit Types (s : str) (g : groups) (k : str -> groups -> option A) (a : A).

Lemma m_word w rest g k a :
  k rest g = Some a -> rmatch ic whole (word w) (w ++ rest) g k = Some a.
Proof.
  revert g. induction w as [|c w IH]; intros g Hk; simpl; auto.
  unfold ascii_eqb. destruct (ascii_dec _ _); [|congruence]. now apply IH.
Qed.

Lemma m_lazy p pre rest g k a :
  forallb (test ic p) pre = true ->
  k rest g = Some a ->
  (forall p1 p2, pre = p1 ++ p2 -> p2 <> [] -> k (p2 ++ rest) g = None) ->
  rmatch ic whole (StarLazy p) (pre ++ rest) g k = Some a.
Proof. intros. simpl. now apply star_lazy_pick. Qed.

End MoreSteps.

Lemma m_kinds whole {A} (K rest : str) g (k : str -> groups -> option A) a :
  In K KINDS -> k rest g = Some a ->
  rmatch true whole (alts KINDS) (K ++ rest) g k = Some a.
Proof.
  intros H Hk. cbn [alts KINDS map].
  repeat (destruct H as [<-|H];
          [repeat (apply m_alt_r; [reflexivity|]);
           first [apply m_alt_l; now apply m_word | now apply m_word]|]).
  destruct H.
Qed.

Lemma kinds_head (K rest : str) :
  In K KINDS -> stops (test true is_space) (K ++ rest).
Proof.
  intros H. repeat (destruct H as [<-|H]; [reflexivity|]). destruct H.
Qed.

Lemma capitalize_kind K : In K KINDS -> capitalize K = K.
Proof.
  intros H. repeat (destruct H as [<-|H]; [reflexivity|]). destruct H.
Qed.

Lemma kind_check K : In K KINDS -> existsb (str_eqb K) KINDS = true.
Proof.
  intros H. apply existsb_exists. exists K. split; auto. apply str_eqb_refl.
Qed.

Lemma clean_head ic (t rest : str) :
  t <> [] -> no_pad t = true -> stops (test ic is_space) (t ++ rest).
Proof.
  intros Hne Hpad. destruct t as [|c t]; [congruence|]. simpl.
  rewrite test_is_space. unfold no_pad, ends_kept in Hpad.
  apply andb_prop in Hpad as [H _]. now apply negb_true_iff in H.
Qed.

Lemma change_tail_mr whole (N : str) g :
  digits N ->
  rmatch true whole re_change_tail (lit " (!" ++ N ++ lit ")") g
    (fun _ g => Some g)
  = Some ((3, N) :: g).
Proof.
  intros [Hne Hd].
  cbn [re_change_tail cat fold_right lit String.list_ascii_of_string app].
  apply m_seq; apply (m_star _ _ _ [" "]); [reflexivity|reflexivity|].
  apply m_seq; apply m_opt_take.
  apply m_seq; apply m_chr; [reflexivity|].
  apply m_seq; apply m_chr; [reflexivity|].
  apply m_seq; apply m_grp; apply m_plus; auto using forallb_test_digit;
    [reflexivity|].
  apply m_seq; apply m_chr; [reflexivity|].
  cbn [rmatch star_greedy]. do 3 f_equal. by_consumed.
Qed.

(** The pattern of a change reads back the line [Change.to_string] writes. *)
Lemma change_line_matches (K t sfx N : str) (tg : groups) :
  In K KINDS ->
  t <> [] -> forallb dot t = true -> no_pad t = true ->
  (sfx = [] -> ~ ends_with_mr t) ->
  sfx = [] \/ (digits N /\ sfx = lit " (!" ++ N ++ lit ")") ->
  (forall whole g,
     rmatch true whole re_change_tail sfx g (fun _ g => Some g) = Some (tg ++ g)) ->
  re_match true re_change (lit "* " ++ K ++ lit ": " ++ t ++ sfx)
  = Some (tg ++ [(2, t); (1, K)]).
Proof.
  intros HK Hne Hline Hpad Hmr Hsfx Htail.
  unfold re_match. cbn [re_change cat fold_right lit String.list_ascii_of_string app].
  apply m_seq; apply m_bos; [reflexivity|].
  apply m_seq; apply m_star_none; [reflexivity|].
  apply m_seq; apply m_opt_take; apply m_cls; [reflexivity|].
  apply m_seq; apply (m_star _ _ _ [" "]); [reflexivity|now apply kinds_head|].
  apply m_seq; apply m_grp; apply m_kinds; [assumption|].
  apply m_seq; apply m_star_none; [reflexivity|].
  apply m_seq; apply m_chr; [reflexivity|].
  apply m_seq; apply (m_star _ _ _ [" "]); [reflexivity|now apply clean_head|].
  apply m_seq; apply m_grp; apply m_lazy.
  - now apply forallb_test_dot.
  - rewrite (consumed _ t sfx eq_refl).
    rewrite (consumed _ K (":" :: " " :: t ++ sfx) eq_refl).
    apply Htail.
  - intros p1 p2 E Hp2.
    match goal with
    | |- ?lhs = None => destruct lhs eqn:Hk; [exfalso|reflexivity]
    end.
    apply (change_tail_shape true) in Hk.
    eapply change_tail_rejects_cut;
      [exact Hpad | exact Hmr | exact E | exact Hp2 | exact Hsfx | reflexivity
      | exact Hk].
Qed.

Lemma title_truthy t : t <> [] -> truthy t = true.
Proof. destruct t; simpl; congruence. Qed.

Lemma isinstance_nat z : (0 <= z <= sys_maxint)%Z -> isinstance_int z = true.
Proof.
  unfold isinstance_int. change sys_maxint with 9223372036854775807%Z.
  intros H. apply andb_true_intro. split; lia.
Qed.

(** A change that a line of the changelog can hold is read back as it was
    written. *)
Lemma Change_roundtrip_stable (c : Change) :
  In (kind c) KINDS -> stable_title (title c) (mr c) ->
  (0 <= mr c <= sys_maxint)%Z ->
  Change_from_string (Change_to_string c) = Ok c.
Proof.
  destruct c as [t K n]. cbn [title kind mr].
  intros HK (Hne & Hdot & Hpad & Hends) Hmr.
  unfold Change_from_string, Change_to_string. cbn [title kind mr].
  destruct (n =? 0)%Z eqn:E.
  - apply Z.eqb_eq in E. subst n.
    pose proof (change_line_matches K t [] [] [] HK Hne Hdot Hpad
                  (fun _ => Hends eq_refl) (or_introl eq_refl)
                  (fun _ _ => eq_refl)) as H.
    rewrite app_nil_r in H. cbn [app] in *.
    rewrite H. cbn [group Nat.eqb bind int_or_0].
    rewrite (capitalize_kind _ HK). unfold Change_init.
    rewrite (title_truthy _ Hne), (kind_check _ HK).
    reflexivity.
  - assert (Hd : digits (str_of_int n)).
    { split; [apply str_of_int_nonempty | apply str_of_int_digits; lia]. }
    assert (Hsfx : lit " (!" ++ str_of_int n ++ lit ")" = [] -> ~ ends_with_mr t)
      by discriminate.
    pose proof (change_line_matches K t _ (str_of_int n) [(3, str_of_int n)]
                  HK Hne Hdot Hpad Hsfx (or_intror (conj Hd eq_refl))
                  (fun w g => change_tail_mr w _ g Hd)) as H.
    rewrite <- !app_assoc. cbn [app] in *.
    rewrite H. cbn [group Nat.eqb bind int_or_0].
    rewrite (capitalize_kind _ HK), (title_truthy _ (proj1 Hd)).
    rewrite int_of_str_of_int by lia. cbn [bind]. unfold Change_init.
    rewrite (title_truthy _ Hne), (kind_check _ HK).
    rewrite (isinstance_nat _ Hmr), orb_true_r. reflexivity.
Qed.

Lemma Change_roundtrip (c : Change) :
  wf_change c -> Change_from_string (Change_to_string c) = Ok c.
Proof.
  intros (HK & (Hne & Hline & Hpad & Hends) & Hmr).
  apply Change_roundtrip_stable; auto.
  repeat split; auto. now apply one_line_dot.
Qed.

Section PickSteps.
Context (ic : bool) (whole : str) {A : Type}.
Implicit Types (s : str) (g : groups) (k : str -> groups -> option A) (a : A).

Lemma m_plus_pick p pre rest g k a :
  pre <> [] -> forallb (test ic p) pre = true ->
  k rest g = Some a ->
  (forall mid rest', rest = mid ++ rest' -> mid <> [] -> k rest' g = None) ->
  rmatch ic whole (Plus p) (pre ++ rest) g k = Some a.
Proof.
  intros Hne Hp Hk Hlonger. destruct pre as [|x pre]; [congruence|].
  simpl in *. apply andb_prop in Hp as [-> Hp].
  apply star_greedy_pick; auto. intros mid rest' E Hm _. eauto.
Qed.

End PickSteps.

Lemma m_months whole {A} (M rest : str) g (k : str -> groups -> option A) a :
  In M MONTHS -> k rest g = Some a ->
  rmatch true whole (alts MONTHS) (M ++ rest) g k = Some a.
Proof.
  intros H Hk. cbn [alts MONTHS map].
  repeat (destruct H as [<-|H];
          [repeat (apply m_alt_r; [reflexivity|]);
           first [apply m_alt_l; now apply m_word | now apply m_word]|]).
  destruct H.
Qed.

Lemma months_head (M rest : str) :
  In M MONTHS -> stops (test true is_space) (M ++ rest).
Proof.
  intros H. repeat (destruct H as [<-|H]; [reflexivity|]). destruct H.
Qed.

Lemma month_no_paren (M : str) : In M MONTHS -> ~ In "(" M.
Proof.
  intros H. repeat (destruct H as [<-|H]; [simpl; intuition discriminate|]).
  destruct H.
Qed.

Lemma digits_head_space ic (d rest : str) :
  digits d -> stops (test ic is_space) (d ++ rest).
Proof.
  intros [Hne Hd]. destruct d as [|c d]; [congruence|]. simpl in *.
  apply andb_prop in Hd as [Hc _]. rewrite test_is_space.
  now apply is_digit_not_space.
Qed.

Lemma digits_no_paren (d : str) : forallb is_digit d = true -> ~ In "(" d.
Proof.
  intros Hd Hin. rewrite forallb_forall in Hd. apply Hd in Hin. discriminate.
Qed.

Lemma header_date_matches whole (ws D M Y : str) g :
  forallb is_space ws = true -> digits D -> In M MONTHS -> digits Y ->
  rmatch true whole re_header_date (ws ++ date_text D M Y) g (fun _ g => Some g)
  = Some ((4, Y) :: (3, M) :: (2, D) :: g).
Proof.
  intros Hws HD HM HY. unfold date_text.
  cbn [re_header_date cat fold_right].
  apply m_seq; apply m_star; [now apply forallb_test_space|reflexivity|].
  apply m_seq; apply m_chr; [reflexivity|].
  apply m_seq; apply m_star_none; [now apply digits_head_space|].
  apply m_seq; apply m_grp; apply m_plus;
    [apply HD | apply forallb_test_digit, HD | reflexivity |].
  apply m_seq; apply (m_star _ _ _ [" "]); [reflexivity|now apply months_head|].
  apply m_seq; apply m_grp; apply m_months; [assumption|].
  apply m_seq; apply (m_star _ _ _ [" "]);
    [reflexivity|now apply digits_head_space|].
  apply m_seq; apply m_grp; apply m_plus;
    [apply HY | apply forallb_test_digit, HY | reflexivity |].
  apply m_seq; apply m_star_none; [reflexivity|].
  apply m_seq; apply m_chr; [reflexivity|].
  cbn [rmatch star_greedy].
  rewrite (consumed _ Y [")"] eq_refl).
  rewrite (consumed _ M (" " :: Y ++ [")"]) eq_refl).
  rewrite (consumed _ D (" " :: M ++ " " :: Y ++ [")"]) eq_refl).
  reflexivity.
Qed.

(** The pattern of the date finds no date in a text with no opening
    parenthesis. *)
Lemma header_date_needs_paren whole {A} (s : str) g
    (k : str -> groups -> option A) :
  ~ In "(" s -> rmatch true whole re_header_date s g k = None.
Proof.
  intros Hno. destruct (rmatch true whole re_header_date s g k) eqn:H; auto.
  exfalso. apply rmatch_sound in H as (s' & g' & D & _).
  cbn [re_header_date cat fold_right den] in D.
  destruct D as (s1 & g1 & (ws & -> & Hws & ->) & D).
  destruct D as (s2 & g2 & (x & -> & Hx & ->) & _).
  apply fold_case_paren in Hx. subst x. apply Hno, in_or_app. right. now left.
Qed.

Lemma date_text_paren (D M Y mid rest' : str) :
  digits D -> In M MONTHS -> digits Y ->
  date_text D M Y = mid ++ rest' -> mid <> [] -> ~ In "(" rest'.
Proof.
  intros HD HM HY E Hne Hin. unfold date_text in E.
  destruct mid as [|c mid]; [congruence|]. injection E as _ E.
  assert (H : In "(" (D ++ " " :: M ++ " " :: Y ++ [")"])).
  { rewrite E. apply in_or_app. now right. }
  apply in_app_or in H as [H|[H|H]].
  - now apply (digits_no_paren D (proj2 HD)).
  - discriminate.
  - apply in_app_or in H as [H|[H|H]].
    + now apply (month_no_paren M HM).
    + discriminate.
    + apply in_app_or in H as [H|[H|[]]].
      * now apply (digits_no_paren Y (proj2 HY)).
      * discriminate.
Qed.

Lemma header_line_split name day M year :
  header_line name day M year
  = "#" :: "#" :: " " :: name
    ++ " " :: date_text (str_of_int day) M (str_of_int year).
Proof. unfold header_line, date_text. norm_app. reflexivity. Qed.

Lemma digits_str_of_int z : (0 <= z)%Z -> digits (str_of_int z).
Proof.
  split; [apply str_of_int_nonempty | now apply str_of_int_digits].
Qed.

(** The pattern of a header reads back the line [Version.to_string] writes,
    but for the name of a prerelease, which comes back with a blank after
    it. *)
Lemma version_header_matches (major minor patch suffix : str) (day : Z)
    (M : str) (year : Z) :
  digits major -> digits minor -> digits patch -> valid_suffix suffix ->
  (0 <= day)%Z -> In M MONTHS -> (0 <= year)%Z ->
  re_match true re_version_header
    (header_line (version_core major minor patch ++ suffix) day M year)
  = Some [(4, str_of_int year); (3, M); (2, str_of_int day);
          (1, version_core major minor patch ++ suffix ++ name_pad suffix)].
Proof.
  intros H1 H2 H3 Hsfx Hday HM Hyear.
  apply digits_str_of_int in Hday, Hyear.
  rewrite header_line_split, <- app_assoc.
  set (D := str_of_int day) in *. set (Y := str_of_int year) in *.
  unfold re_match.
  change re_version_header with
    (Seq Bos (Seq (Chr "#") (Seq (Chr "#") (Seq (Star is_space)
       (Seq (Grp 1 (Seq (cat re_version_core)
                      (Seq (Opt (Seq (Chr "-") (Seq (Plus dot) Eps))) Eps)))
            re_header_date))))).
  apply m_seq; apply m_bos; [reflexivity|].
  apply m_seq; apply m_chr; [reflexivity|].
  apply m_seq; apply m_chr; [reflexivity|].
  apply m_seq; apply (m_star _ _ _ [" "]); [reflexivity|reflexivity|].
  apply m_seq; apply m_grp; apply m_seq.
  destruct Hsfx as [->|(body & Hne & Hdot & ->)].
  - apply version_core_matches; [assumption|assumption|assumption|reflexivity|].
    apply m_seq; apply m_opt_skip; [reflexivity|]. apply m_eps.
    cbn [app name_pad].
    rewrite (consumed _ (version_core major minor patch)
               (" " :: date_text D M Y) eq_refl), app_nil_r.
    now apply (header_date_matches _ [" "]).
  - change (("-" :: body) ++ " " :: date_text D M Y)
      with ("-" :: body ++ [" "] ++ date_text D M Y).
    rewrite (app_assoc body [" "]).
    apply version_core_matches; [assumption|assumption|assumption|reflexivity|].
    apply m_seq; apply m_opt_take; apply m_seq; apply m_chr; [reflexivity|].
    apply m_seq; apply m_plus_pick.
    + destruct body; simpl; discriminate.
    + apply forallb_test_dot. rewrite forallb_app, Hdot. reflexivity.
    + apply m_eps; apply m_eps. cbn [name_pad].
      rewrite (consumed _ (version_core major minor patch ++ "-" :: body ++ [" "])
                 (date_text D M Y))
        by (rewrite <- (app_assoc (version_core major minor patch)); reflexivity).
      rewrite <- (app_assoc body). now apply (header_date_matches _ []).
    + intros mid rest' E Hmid.
      change (rmatch true
                ("#" :: "#" :: " " :: version_core major minor patch
                 ++ "-" :: (body ++ [" "]) ++ date_text D M Y)
                re_header_date rest'
                [(1, firstn
                       (length (version_core major minor patch
                                ++ "-" :: (body ++ [" "]) ++ date_text D M Y)
                        - length rest')
                       (version_core major minor patch
                        ++ "-" :: (body ++ [" "]) ++ date_text D M Y))]
                (fun _ g => Some g) = None).
      apply header_date_needs_paren.
      apply (date_text_paren D M Y mid rest'); assumption.
Qed.

(** ** Lines and text *)

Ltac assoc := repeat first [rewrite <- app_assoc | progress cbn [app]].

Lemma one_line_app a b : one_line (a ++ b) = one_line a && one_line b.
Proof. apply forallb_app. Qed.

Lemma splitlines_from_line cur l rest :
  one_line l = true ->
  splitlines_from cur (l ++ LF :: rest) = (rev cur ++ l) :: splitlines_from [] rest.
Proof.
  revert cur. induction l as [|c l IH]; intros cur H; simpl.
  - now rewrite app_nil_r.
  - simpl in H. apply andb_prop in H as [Hc Hl].
    apply andb_prop in Hc as [H1 H2]. unfold ascii_eqb in *.
    destruct (ascii_dec c LF); [discriminate|].
    destruct (ascii_dec c CR); [discriminate|].
    rewrite (IH _ Hl). simpl. now rewrite <- app_assoc.
Qed.

Lemma splitlines_from_last cur l :
  one_line l = true ->
  splitlines_from cur l = match rev cur ++ l with [] => [] | _ :: _ => [rev cur ++ l] end.
Proof.
  revert cur. induction l as [|c l IH]; intros cur H; simpl.
  - rewrite app_nil_r. destruct cur as [|x cur]; simpl; auto.
    destruct (rev cur ++ [x]) eqn:E; auto.
    now destruct (rev cur).
  - simpl in H. apply andb_prop in H as [Hc Hl].
    apply andb_prop in Hc as [H1 H2]. unfold ascii_eqb in *.
    destruct (ascii_dec c LF); [discriminate|].
    destruct (ascii_dec c CR); [discriminate|].
    rewrite (IH _ Hl). simpl. now rewrite <- app_assoc.
Qed.

(** Splitting the text of some lines gives the lines back. *)
Lemma splitlines_unlines ls :
  Forall (fun l => one_line l = true) ls -> splitlines (unlines ls) = ls.
Proof.
  unfold splitlines, unlines.
  induction 1 as [|l ls Hl _ IH]; simpl; auto.
  rewrite <- app_assoc. simpl. rewrite (splitlines_from_line [] l _ Hl).
  simpl. now rewrite IH.
Qed.

Lemma join_cons sep l ls :
  ls <> [] -> join sep (l :: ls) = l ++ sep ++ join sep ls.
Proof. destruct ls; [congruence|reflexivity]. Qed.

Lemma join_unlines ls : ls <> [] -> join [LF] ls ++ [LF] = unlines ls.
Proof.
  unfold unlines. induction ls as [|l ls IH]; [congruence|]. intros _.
  destruct ls as [|l' ls].
  - simpl. now rewrite app_nil_r.
  - rewrite join_cons by discriminate.
    change (concat (map (fun l0 => l0 ++ [LF]) (l :: l' :: ls)))
      with ((l ++ [LF]) ++ concat (map (fun l0 => l0 ++ [LF]) (l' :: ls))).
    rewrite <- IH by discriminate. assoc. reflexivity.
Qed.

Lemma join_snoc_blank ls : ls <> [] -> join [LF] (ls ++ [[]]) = join [LF] ls ++ [LF].
Proof.
  induction ls as [|l ls IH]; [congruence|]. intros _.
  destruct ls as [|l' ls].
  - reflexivity.
  - change ((l :: l' :: ls) ++ [[]]) with (l :: ((l' :: ls) ++ [[]])).
    rewrite (join_cons _ l ((l' :: ls) ++ [[]])) by (simpl; discriminate).
    rewrite (join_cons _ l (l' :: ls)) by discriminate.
    rewrite IH by discriminate. assoc. reflexivity.
Qed.

(** Splitting the lines joined by newlines gives the lines back, but for a
    last line that is empty. *)
Lemma splitlines_join ls :
  Forall (fun l => one_line l = true) ls ->
  splitlines (join [LF] ls)
  = match rev ls with
    | [] :: before => rev before
    | _ => ls
    end.
Proof.
  unfold splitlines. induction 1 as [|l ls Hl Hls IH]; [reflexivity|].
  destruct ls as [|l' ls0].
  - simpl. rewrite (splitlines_from_last [] l Hl). simpl. now destruct l.
  - assert (Hne : l' :: ls0 <> []) by discriminate.
    remember (l' :: ls0) as tl eqn:Etl. clear Etl.
    rewrite join_cons by assumption.
    change (l ++ [LF] ++ join [LF] tl) with (l ++ LF :: join [LF] tl).
    rewrite (splitlines_from_line [] l _ Hl).
    change (rev [] ++ l) with l. rewrite IH.
    change (rev (l :: tl)) with (rev tl ++ [l]).
    destruct (rev tl) as [|x before] eqn:E.
    + apply (f_equal (@rev str)) in E. rewrite rev_involutive in E. contradiction.
    + cbn [app]. destruct x; [|reflexivity]. now rewrite rev_app_distr.
Qed.

(** ** Cropping lines that are already clean *)

Lemma trim_padded {T} (f : T -> bool) (pre core post : list T) :
  forallb f pre = true -> forallb f post = true -> ends_kept f core = true ->
  trim f (pre ++ core ++ post) = core.
Proof.
  intros Hpre Hpost Hcore. unfold trim.
  rewrite (dropwhile_app_all f pre _ Hpre).
  unfold ends_kept in Hcore. apply andb_prop in Hcore as [Hh Ht].
  destruct core as [|x core].
  - simpl. now rewrite (dropwhile_all f post Hpost).
  - assert (Hd : dropwhile f ((x :: core) ++ post) = (x :: core) ++ post).
    { apply dropwhile_kept. exact Hh. }
    rewrite Hd, rev_app_distr, dropwhile_app_all by now rewrite forallb_rev.
    rewrite (dropwhile_kept f _ Ht). apply rev_involutive.
Qed.

Lemma blank_no_pad ls :
  forallb blank ls = true -> Forall (fun l => no_pad l = true) ls.
Proof.
  intros H. apply Forall_forall. intros l Hl.
  rewrite forallb_forall in H. apply H in Hl. now destruct l.
Qed.

Lemma head_truthy core rest :
  core <> [] -> ends_kept blank core = true ->
  existsb truthy (core ++ rest) = true.
Proof.
  intros Hne H. destruct core as [|l core]; [congruence|].
  unfold ends_kept in H. apply andb_prop in H as [H _]. simpl in *.
  unfold blank in H. rewrite negb_involutive in H. now rewrite H.
Qed.

(** Cropping lines with no padding drops the blank lines around them. *)
Lemma crop_padded (pre core post : list str) :
  Forall (fun l => no_pad l = true) core ->
  forallb blank pre = true -> forallb blank post = true ->
  core <> [] -> ends_kept blank core = true ->
  crop_lines (pre ++ core ++ post) = core.
Proof.
  intros Hclean Hpre Hpost Hne Hends.
  rewrite crop_lines_spec, map_strip_clean.
  - assert (Hex : existsb truthy (pre ++ core ++ post) = true).
    { rewrite existsb_app, (head_truthy core post Hne Hends). apply orb_true_r. }
    rewrite Hex. now apply trim_padded.
  - apply Forall_app. split; [now apply blank_no_pad|].
    apply Forall_app. split; [assumption | now apply blank_no_pad].
Qed.

Lemma crop_unlines_padded (pre core post : list str) :
  Forall (fun l => one_line l = true) core ->
  Forall (fun l => no_pad l = true) core ->
  forallb blank pre = true -> forallb blank post = true ->
  core <> [] -> ends_kept blank core = true ->
  crop_line_padding (Text (unlines (pre ++ core ++ post))) = core.
Proof.
  intros Hline Hclean Hpre Hpost Hne Hends. simpl.
  rewrite splitlines_unlines; [now apply crop_padded|].
  assert (Hb : forall ls, forallb blank ls = true ->
                          Forall (fun l => one_line l = true) ls).
  { intros ls H. apply Forall_forall. intros l Hl.
    rewrite forallb_forall in H. apply H in Hl. now destruct l. }
  apply Forall_app. split; [now apply Hb|].
  apply Forall_app. split; [assumption | now apply Hb].
Qed.

Lemma last_kept_not_blank (core : list str) l before :
  ends_kept blank core = true -> rev core = l :: before -> l <> [].
Proof.
  unfold ends_kept. intros H E. apply andb_prop in H as [_ H].
  rewrite E in H. simpl in H. now destruct l.
Qed.

Lemma crop_join_padded (pre core post : list str) :
  Forall (fun l => one_line l = true) core ->
  Forall (fun l => no_pad l = true) core ->
  forallb blank pre = true -> forallb blank post = true ->
  core <> [] -> ends_kept blank core = true ->
  crop_line_padding (Text (join [LF] (pre ++ core ++ post))) = core.
Proof.
  intros Hline Hclean Hpre Hpost Hne Hends. simpl.
  assert (Hb : forall ls, forallb blank ls = true ->
                          Forall (fun l => one_line l = true) ls).
  { intros ls H. apply Forall_forall. intros l Hl.
    rewrite forallb_forall in H. apply H in Hl. now destruct l. }
  rewrite splitlines_join.
  2:{ apply Forall_app. split; [now apply Hb|].
      apply Forall_app. split; [assumption | now apply Hb]. }
  destruct (last_cases post) as [->|(post' & x & ->)].
  - rewrite app_nil_r, rev_app_distr.
    destruct (rev core) as [|l before] eqn:E.
    + apply (f_equal (@rev str)) in E. rewrite rev_involutive in E. contradiction.
    + pose proof (last_kept_not_blank core l before Hends E) as Hl.
      cbn [app]. destruct l; [congruence|].
      replace (pre ++ core) with (pre ++ core ++ []) by now rewrite app_nil_r.
      now apply crop_padded.
  - rewrite forallb_app in Hpost. apply andb_prop in Hpost as [Hpost' Hx].
    simpl in Hx. rewrite andb_true_r in Hx. destruct x; [|discriminate].
    rewrite !app_assoc, rev_app_distr. cbn [rev app].
    rewrite rev_involutive, <- app_assoc. now apply crop_padded.
Qed.

(** ** The loops over the lines *)

Lemma notes_loop_spec (pre : list str) hdr post i acc last_i :
  Forall (fun l => matches true re_changes_header l = false) pre ->
  matches true re_changes_header hdr = true ->
  notes_loop (pre ++ hdr :: post) i acc last_i
  = (acc ++ pre, Some (i + length pre)).
Proof.
  intros Hpre Hhdr. revert i acc last_i.
  induction Hpre as [|l pre Hl _ IH]; intros i acc last_i; simpl.
  - now rewrite Hhdr, app_nil_r, Nat.add_0_r.
  - rewrite Hl, IH, <- app_assoc. simpl. do 3 f_equal. lia.
Qed.

Lemma append_to_last_snoc acc cur line :
  append_to_last (acc ++ [cur]) line = acc ++ [cur ++ [line]].
Proof.
  unfold append_to_last. now rewrite removelast_last, last_last.
Qed.

Lemma sections_loop_rest (t rest : list str) acc cur :
  Forall (fun l => matches false re_level_two l = false) t ->
  sections_loop (t ++ rest) (acc ++ [cur])
  = sections_loop rest (acc ++ [cur ++ t]).
Proof.
  intros Ht. revert cur. induction Ht as [|l t Hl _ IH]; intros cur; simpl.
  - now rewrite app_nil_r.
  - rewrite Hl. destruct (acc ++ [cur]) eqn:E.
    + now destruct acc.
    + rewrite <- E. simpl. rewrite append_to_last_snoc, IH, <- app_assoc.
      reflexivity.
Qed.

Lemma sections_loop_spec (bs : list (list str)) acc :
  Forall is_section bs -> sections_loop (concat bs) acc = Ok (acc ++ bs).
Proof.
  intros H. revert acc. induction H as [|b bs Hb _ IH]; intros acc; simpl.
  - now rewrite app_nil_r.
  - destruct b as [|h t]; [destruct Hb|]. destruct Hb as [Hh Ht].
    simpl. rewrite Hh. simpl.
    change (append_to_last (acc ++ [[]]) h) with (append_to_last (acc ++ [[]]) h).
    rewrite append_to_last_snoc. simpl.
    rewrite sections_loop_rest by assumption.
    rewrite IH, <- app_assoc. reflexivity.
Qed.

Lemma mapM_Forall2 {A B} (f : A -> result B) (l : list A) (r : list B) :
  Forall2 (fun a b => f a = Ok b) l r -> mapM f l = Ok r.
Proof.
  induction 1 as [|a b l r Hab _ IH]; simpl; auto.
  now rewrite Hab, IH.
Qed.

Lemma mapM_roundtrip {A B} (f : A -> result B) (g : B -> A) (l : list B) :
  Forall (fun b => f (g b) = Ok b) l -> mapM f (map g l) = Ok l.
Proof.
  induction 1 as [|b l Hb _ IH]; simpl; auto.
  now rewrite Hb, IH.
Qed.

Lemma filter_truthy_all (ls : list str) :
  Forall (fun l => truthy l = true) ls -> filter truthy ls = ls.
Proof.
  induction 1 as [|l ls Hl _ IH]; simpl; auto. now rewrite Hl, IH.
Qed.

(** ** The lines [to_string] writes *)

Lemma change_line_text (c : Change) :
  Change_to_string c
  = "*" :: " " :: kind c ++ ":" :: " " :: title c ++ mr_suffix (mr c).
Proof.
  unfold Change_to_string, mr_suffix.
  destruct (mr c =? 0)%Z; assoc; [now rewrite app_nil_r | reflexivity].
Qed.

Lemma digits_one_line d : forallb is_digit d = true -> one_line d = true.
Proof.
  unfold one_line. induction d as [|c d IH]; simpl; auto.
  intros H. apply andb_prop in H as [Hc Hd]. rewrite (IH Hd), andb_true_r.
  destruct c as [[] [] [] [] [] [] [] []]; simpl in *; auto; discriminate.
Qed.

Lemma kind_one_line K : In K KINDS -> one_line K = true.
Proof.
  intros H. repeat (destruct H as [<-|H]; [reflexivity|]). destruct H.
Qed.

Lemma month_one_line M : In M MONTHS -> one_line M = true.
Proof.
  intros H. repeat (destruct H as [<-|H]; [reflexivity|]). destruct H.
Qed.

Lemma mr_suffix_one_line n : (0 <= n)%Z -> one_line (mr_suffix n) = true.
Proof.
  intros Hn. unfold mr_suffix. destruct (n =? 0)%Z; [reflexivity|].
  rewrite !one_line_app, (digits_one_line _ (str_of_int_digits n Hn)).
  reflexivity.
Qed.

Lemma no_pad_framed (x y : ascii) (mid : str) :
  is_space x = false -> is_space y = false -> no_pad (x :: mid ++ [y]) = true.
Proof.
  intros Hx Hy. unfold no_pad, ends_kept. simpl rev.
  rewrite rev_app_distr. simpl. now rewrite Hx, Hy.
Qed.

Lemma no_pad_last (s : str) : no_pad s = true -> s <> [] ->
  exists u c, s = u ++ [c] /\ is_space c = false.
Proof. intros H Hne. now apply (last_clean [] s). Qed.

Lemma change_line_clean (c : Change) :
  wf_change c ->
  one_line (Change_to_string c) = true
  /\ no_pad (Change_to_string c) = true
  /\ truthy (Change_to_string c) = true
  /\ matches false re_level_two (Change_to_string c) = false.
Proof.
  intros (HK & (Hne & Hline & Hpad & _) & Hmr).
  rewrite change_line_text. repeat split.
  - change ("*" :: " " :: kind c ++ ":" :: " " :: title c ++ mr_suffix (mr c))
      with (lit "* " ++ kind c ++ lit ": " ++ title c ++ mr_suffix (mr c)).
    rewrite !one_line_app, (kind_one_line _ HK), Hline, mr_suffix_one_line by lia.
    reflexivity.
  - destruct (no_pad_last _ Hpad Hne) as (u & x & Et & Hx).
    unfold mr_suffix. destruct (mr c =? 0)%Z.
    + rewrite app_nil_r, Et.
      replace (" " :: kind c ++ ":" :: " " :: u ++ [x])
        with ((" " :: kind c ++ ":" :: " " :: u) ++ [x]) by (assoc; reflexivity).
      now apply no_pad_framed.
    + replace (" " :: kind c ++ ":" :: " " :: title c
               ++ lit " (!" ++ str_of_int (mr c) ++ lit ")")
        with ((" " :: kind c ++ ":" :: " " :: title c
               ++ lit " (!" ++ str_of_int (mr c)) ++ [")"])
        by (assoc; reflexivity).
      now apply no_pad_framed.
  - unfold matches, re_match. cbn [re_level_two cat fold_right rmatch].
    now rewrite Nat.eqb_refl.
Qed.

(** ** Versions that the text of a changelog can hold *)

Lemma ends_kept_of {T} (f : T -> bool) (l : list T) x t u y :
  l = x :: t -> l = u ++ [y] -> f x = false -> f y = false ->
  ends_kept f l = true.
Proof.
  intros E1 E2 Hx Hy. unfold ends_kept. apply andb_true_intro. split.
  - rewrite E1. simpl. now rewrite Hx.
  - rewrite E2, rev_app_distr. simpl. now rewrite Hy.
Qed.

Lemma ends_kept_all {T} (f : T -> bool) (l : list T) :
  Forall (fun x => f x = false) l -> ends_kept f l = true.
Proof.
  intros H. unfold ends_kept.
  assert (Hh : forall m, Forall (fun x => f x = false) m -> head_kept f m = true).
  { intros m Hm. destruct Hm as [|x m Hx _]; simpl; auto. now rewrite Hx. }
  rewrite (Hh _ H), Hh; auto. now apply Forall_rev.
Qed.

Lemma ends_kept_head {T} (f : T -> bool) x (t : list T) :
  ends_kept f (x :: t) = true -> f x = false.
Proof.
  unfold ends_kept. intros H. apply andb_prop in H as [H _].
  now apply negb_true_iff in H.
Qed.

Lemma ends_kept_last {T} (f : T -> bool) (u : list T) y :
  ends_kept f (u ++ [y]) = true -> f y = false.
Proof.
  unfold ends_kept. intros H. apply andb_prop in H as [_ H].
  rewrite rev_app_distr in H. now apply negb_true_iff in H.
Qed.

Lemma skipn_past {T} (a : list T) x b : skipn (length a + 1) (a ++ x :: b) = b.
Proof.
  induction a as [|y a IH]; simpl; auto.
Qed.

Lemma unlines_cons l ls : unlines (l :: ls) = l ++ LF :: unlines ls.
Proof. unfold unlines. simpl. now rewrite <- app_assoc. Qed.

Lemma unlines_app a b : unlines (a ++ b) = unlines a ++ unlines b.
Proof. unfold unlines. now rewrite map_app, concat_app. Qed.

Lemma changes_fold (cs : list Change) (msg : str) :
  fold_left (fun msg change => msg ++ Change_to_string change ++ [LF]) cs msg
  = msg ++ unlines (map Change_to_string cs).
Proof.
  revert msg. induction cs as [|c cs IH]; intros msg; simpl.
  - now rewrite app_nil_r.
  - rewrite IH, unlines_cons. assoc. reflexivity.
Qed.

Lemma notes_truthy (n1 : str) (nls : list str) :
  ends_kept blank (n1 :: nls) = true -> truthy (join [LF] (n1 :: nls)) = true.
Proof.
  intros H. apply ends_kept_head in H.
  destruct n1; [discriminate H|]. destruct nls; reflexivity.
Qed.

Lemma Version_to_string_unlines (v : Version) (nls : list str) :
  notes v = join [LF] nls -> ends_kept blank nls = true ->
  Version_to_string v = unlines (version_lines v nls).
Proof.
  intros En Hends. unfold Version_to_string. rewrite changes_fold.
  unfold version_lines. rewrite !unlines_cons, unlines_app, !unlines_cons.
  destruct nls as [|n1 nls'].
  - simpl in En. rewrite En. cbn [truthy notes_block unlines map concat].
    unfold header_line, changes_line. assoc. reflexivity.
  - rewrite En, (notes_truthy _ _ Hends). cbn [notes_block].
    rewrite unlines_app, <- (join_unlines (n1 :: nls')) by discriminate.
    unfold header_line, changes_line. cbn [unlines map concat]. assoc.
    reflexivity.
Qed.

(** ** The lines of a version are clean *)

Lemma version_core_one_line major minor patch :
  digits major -> digits minor -> digits patch ->
  one_line (version_core major minor patch) = true.
Proof.
  intros [_ H1] [_ H2] [_ H3]. unfold version_core.
  change ("v" :: major ++ "." :: minor ++ "." :: patch)
    with (["v"] ++ major ++ ["."] ++ minor ++ ["."] ++ patch).
  rewrite !one_line_app, (digits_one_line _ H1), (digits_one_line _ H2),
    (digits_one_line _ H3). reflexivity.
Qed.

Lemma name_one_line nm pre : wf_name nm pre -> one_line nm = true.
Proof.
  intros (major & minor & patch & suffix & H1 & H2 & H3 & Hs & -> & _).
  rewrite one_line_app, version_core_one_line by assumption.
  destruct Hs as [->|(body & _ & Hb & ->)]; [reflexivity|].
  simpl. exact Hb.
Qed.

Lemma header_line_clean nm pre d M y :
  wf_name nm pre -> (0 <= d)%Z -> In M MONTHS -> (0 <= y)%Z ->
  one_line (header_line nm d M y) = true
  /\ no_pad (header_line nm d M y) = true
  /\ blank (header_line nm d M y) = false
  /\ matches false re_level_two (header_line nm d M y) = true.
Proof.
  intros Hn Hd HM Hy. repeat split.
  - unfold header_line.
    rewrite !one_line_app, (name_one_line _ _ Hn), (month_one_line _ HM),
      (digits_one_line _ (str_of_int_digits d Hd)),
      (digits_one_line _ (str_of_int_digits y Hy)).
    reflexivity.
  - rewrite header_line_split. unfold date_text.
    replace (" " :: nm ++ " " :: "(" :: str_of_int d ++ " " :: M ++ " "
             :: str_of_int y ++ [")"])
      with ((" " :: nm ++ " " :: "(" :: str_of_int d ++ " " :: M ++ " "
             :: str_of_int y) ++ [")"]) by (assoc; reflexivity).
    change ("#" :: "#" :: ?x) with ("#" :: ("#" :: x)).
    match goal with
    | |- no_pad ("#" :: "#" :: ?m ++ [")"]) = true =>
        apply (no_pad_framed "#" ")" ("#" :: m)); reflexivity
    end.
  - rewrite header_line_split. unfold matches, re_match.
    cbn [re_level_two cat fold_right rmatch]. now rewrite Nat.eqb_refl.
Qed.

Lemma changes_line_clean :
  one_line changes_line = true /\ no_pad changes_line = true
  /\ blank changes_line = false
  /\ matches true re_changes_header changes_line = true
  /\ matches false re_level_two changes_line = false.
Proof. repeat split. Qed.

Lemma change_lines_clean (cs : list Change) :
  Forall wf_change cs ->
  Forall (fun l => one_line l = true) (map Change_to_string cs)
  /\ Forall (fun l => no_pad l = true) (map Change_to_string cs)
  /\ Forall (fun l => blank l = false) (map Change_to_string cs)
  /\ Forall (fun l => matches false re_level_two l = false)
       (map Change_to_string cs).
Proof.
  intros H. repeat split; apply Forall_map;
    (eapply Forall_impl; [|exact H]); intros c Hc;
    destruct (change_line_clean c Hc) as (H1 & H2 & H3 & H4); auto.
  unfold blank. now rewrite H3.
Qed.

Lemma notes_block_clean (nls : list str) :
  Forall note_line nls ->
  Forall (fun l => one_line l = true) (notes_block nls)
  /\ Forall (fun l => no_pad l = true) (notes_block nls)
  /\ Forall (fun l => matches true re_changes_header l = false) (notes_block nls).
Proof.
  intros H. destruct nls as [|n1 nls']; [repeat split; constructor|].
  cbn [notes_block].
  repeat split; apply Forall_app; split;
    try (eapply Forall_impl; [|exact H]; intros l (H1 & H2 & H3); assumption);
    repeat constructor.
Qed.

Lemma head_notes_block (nls rest : list str) :
  ends_kept blank nls = true ->
  head_kept blank (notes_block nls ++ changes_line :: rest) = true.
Proof.
  intros H. destruct nls as [|n1 nls']; [reflexivity|].
  apply ends_kept_head in H. simpl. now rewrite H.
Qed.

Lemma last_changes_tail (before : list str) (cs : list Change) :
  Forall wf_change cs ->
  head_kept blank (rev (before ++ changes_line :: changes_tail cs)) = true.
Proof.
  intros H. destruct (last_cases cs) as [->|(cs' & c & ->)].
  - simpl. rewrite rev_app_distr. reflexivity.
  - assert (Hc : wf_change c).
    { rewrite Forall_forall in H. apply H, in_or_app. right. now left. }
    assert (Et : changes_tail (cs' ++ [c])
                 = ([] :: map Change_to_string cs') ++ [Change_to_string c]).
    { unfold changes_tail. destruct (cs' ++ [c]) eqn:E.
      - now destruct cs'.
      - rewrite <- E, map_app. reflexivity. }
    rewrite Et.
    replace (before ++ changes_line
             :: ([] :: map Change_to_string cs') ++ [Change_to_string c])
      with ((before ++ changes_line :: [] :: map Change_to_string cs')
            ++ [Change_to_string c]) by (assoc; reflexivity).
    rewrite rev_app_distr. simpl.
    destruct (change_line_clean c Hc) as (_ & _ & Ht & _).
    unfold blank. now rewrite Ht.
Qed.

Lemma changes_tail_forall (P : str -> Prop) (cs : list Change) :
  P [] -> Forall P (map Change_to_string cs) -> Forall P (changes_tail cs).
Proof.
  intros H0 H. destruct cs; [constructor|]. now constructor.
Qed.

(** The body of the text of a version: its lines are clean, and neither the
    first nor the last is blank. *)
Lemma version_body_clean (v : Version) (nls : list str) :
  wf_name (name v) (prerelease v) ->
  day_in_range (day v) -> In (month v) MONTHS -> year_in_range (year v) ->
  Forall note_line nls -> ends_kept blank nls = true ->
  Forall wf_change (changes v) ->
  Forall (fun l => one_line l = true) (version_body v nls)
  /\ Forall (fun l => no_pad l = true) (version_body v nls)
  /\ ends_kept blank (version_body v nls) = true.
Proof.
  intros Hn Hd HM Hy Hnl Hends Hcs.
  destruct (header_line_clean (name v) (prerelease v) (day v) (month v) (year v))
    as (Hh1 & Hh2 & Hh3 & _); auto;
    try (unfold day_in_range, year_in_range in *; lia).
  destruct (notes_block_clean nls Hnl) as (Hb1 & Hb2 & _).
  destruct (change_lines_clean _ Hcs) as (Hc1 & Hc2 & _).
  unfold version_body. repeat split.
  - constructor; [assumption|]. constructor; [reflexivity|].
    apply Forall_app. split; [assumption|]. constructor; [reflexivity|].
    now apply changes_tail_forall.
  - constructor; [assumption|]. constructor; [reflexivity|].
    apply Forall_app. split; [assumption|]. constructor; [reflexivity|].
    now apply changes_tail_forall.
  - unfold ends_kept. apply andb_true_intro. split.
    + cbn [head_kept]. now rewrite Hh3.
    + apply (last_changes_tail (_ :: _ :: notes_block nls)). assumption.
Qed.

(** ** Reading the text of a version *)

Lemma crop_changes_tail (cs : list Change) :
  Forall wf_change cs ->
  crop_lines (changes_tail cs) = map Change_to_string cs.
Proof.
  intros H. destruct cs as [|c cs]; [reflexivity|].
  destruct (change_lines_clean _ H) as (_ & Hp & Hb & _).
  replace (changes_tail (c :: cs))
    with ([[]] ++ map Change_to_string (c :: cs) ++ [])
    by (cbn [changes_tail app]; now rewrite app_nil_r).
  apply crop_padded; auto.
  - simpl. discriminate.
  - now apply ends_kept_all.
Qed.

Lemma change_lines_truthy (cs : list Change) :
  Forall wf_change cs ->
  Forall (fun l => truthy l = true) (map Change_to_string cs).
Proof.
  intros H. apply Forall_map. eapply Forall_impl; [|exact H].
  intros c Hc. now destruct (change_line_clean c Hc) as (_ & _ & Ht & _).
Qed.

Lemma month_in_range_exact M : In M MONTHS -> month_in_range M.
Proof. intros H. exists M. auto. Qed.

(** The constructor accepts the name that the pattern of a header captured. *)
Lemma Version_init_reparsed major minor patch suffix d M y n :
  digits major -> digits minor -> digits patch ->
  (suffix = []
   \/ exists body, body <> [] /\ one_line body = true /\ suffix = "-" :: body) ->
  day_in_range d -> In M MONTHS -> year_in_range y ->
  Version_init (version_core major minor patch ++ suffix ++ name_pad suffix)
    d M y n
  = Ok (mkVersion (version_core major minor patch ++ suffix ++ name_pad suffix)
          (truthy suffix) d M y n []).
Proof.
  intros H1 H2 H3 Hs Hd HM Hy.
  destruct Hs as [->|(body & Hne & Hb & ->)].
  - cbn [name_pad app truthy]. rewrite app_nil_r.
    rewrite (date_checks_pass _ _ _ _ _ _ (version_name_plain _ _ _ H1 H2 H3));
      auto using month_in_range_exact.
    now rewrite (capitalize_month _ HM).
  - cbn [name_pad app truthy].
    assert (Hm : re_match false re_version_name
                   (version_core major minor patch ++ "-" :: body ++ [" "])
                 = Some [(1, "-" :: body ++ [" "])]).
    { apply version_name_suffixed; auto.
      - destruct body; simpl; discriminate.
      - rewrite forallb_app, (one_line_dot _ Hb). reflexivity. }
    rewrite (date_checks_pass _ _ _ _ _ _ Hm); auto using month_in_range_exact.
    now rewrite (capitalize_month _ HM).
Qed.

Lemma wf_suffix_valid suffix :
  (suffix = []
   \/ exists body, body <> [] /\ one_line body = true /\ suffix = "-" :: body) ->
  valid_suffix suffix.
Proof.
  intros [->|(body & Hne & Hb & ->)]; [now left|right].
  exists body. auto using one_line_dot.
Qed.

Lemma name_pad_flag suffix :
  name_pad suffix = if truthy suffix then [" "] else [].
Proof. now destruct suffix. Qed.

(** [Version.from_string] on a text whose cropped lines are those of [v]. *)
Lemma Version_parse (v : Version) (nls : list str) (s : str) :
  wf_name (name v) (prerelease v) ->
  day_in_range (day v) -> In (month v) MONTHS -> year_in_range (year v) ->
  notes v = join [LF] nls -> Forall note_line nls ->
  ends_kept blank nls = true ->
  Forall wf_change (changes v) ->
  crop_line_padding (Text s) = version_body v nls ->
  Version_from_string s = Ok (reparsed v).
Proof.
  intros Hn Hd HM Hy En Hnl Hends Hcs Hcrop.
  destruct v as [nm pre d M y n cs]. cbn [name prerelease day month year notes changes] in *.
  destruct Hn as (major & minor & patch & suffix & H1 & H2 & H3 & Hs & -> & ->).
  unfold Version_from_string. rewrite Hcrop. unfold version_body.
  cbn [name prerelease day month year notes changes].
  rewrite version_header_matches; auto using wf_suffix_valid;
    try (unfold day_in_range, year_in_range in *; lia).
  assert (Hrest : crop_line_padding
                    (Lines ([] :: notes_block nls ++ changes_line :: changes_tail cs))
                  = notes_block nls ++ changes_line :: changes_tail cs).
  { destruct (notes_block_clean nls Hnl) as (_ & Hb2 & _).
    destruct (change_lines_clean _ Hcs) as (_ & Hc2 & _).
    change ([] :: notes_block nls ++ changes_line :: changes_tail cs)
      with ([[]] ++ (notes_block nls ++ changes_line :: changes_tail cs)).
    rewrite <- (app_nil_r (notes_block nls ++ changes_line :: changes_tail cs)) at 1.
    cbn [crop_line_padding]. apply crop_padded; auto.
    - apply Forall_app. split; [assumption|]. constructor; [reflexivity|].
      now apply changes_tail_forall.
    - destruct (notes_block nls); discriminate.
    - unfold ends_kept. apply andb_true_intro. split.
      + now apply head_notes_block.
      + now apply last_changes_tail. }
  rewrite Hrest.
  destruct (notes_block_clean nls Hnl) as (_ & _ & Hb3).
  rewrite (notes_loop_spec (notes_block nls) changes_line (changes_tail cs) 0 []
             None Hb3 eq_refl).
  cbv beta iota zeta. cbn [app Nat.add].
  rewrite skipn_past. cbn [crop_line_padding].
  rewrite crop_changes_tail, (filter_truthy_all _ (change_lines_truthy _ Hcs))
    by assumption.
  cbn [group Nat.eqb str_group int_group bind].
  rewrite !int_of_str_of_int by (unfold day_in_range, year_in_range in *; lia).
  cbn [bind].
  rewrite Version_init_reparsed by assumption.
  cbn [bind].
  rewrite (mapM_roundtrip Change_from_string Change_to_string cs).
  2:{ eapply Forall_impl; [|exact Hcs]. intros c Hc. now apply Change_roundtrip. }
  cbn [bind]. unfold set_changes, reparsed.
  cbn [name prerelease day month year notes changes].
  rewrite name_pad_flag, <- app_assoc.
  assert (Enotes : join [LF] (notes_block nls)
                   = n ++ (if truthy n then [LF] else [])).
  { rewrite En. destruct nls as [|n1 nls']; [reflexivity|].
    cbn [notes_block]. rewrite (notes_truthy _ _ Hends).
    now apply join_snoc_blank. }
  now rewrite Enotes.
Qed.

(** ** Writing a version and reading it back *)

Lemma version_lines_body (v : Version) (nls : list str) :
  version_lines v nls = version_body v nls ++ version_end v.
Proof.
  unfold version_lines, version_body, version_end, changes_tail.
  destruct (changes v); cbn [map app]; assoc; [reflexivity|].
  now rewrite app_nil_r.
Qed.

Lemma version_end_blank (v : Version) : forallb blank (version_end v) = true.
Proof. unfold version_end. now destruct (changes v). Qed.

Lemma note_line_weaken (nls : list str) :
  Forall doc_note_line nls -> Forall note_line nls.
Proof. apply Forall_impl. now intros l [H _]. Qed.

(** Reading the text of a version gives the version back, but for the
    blank after the name of a prerelease and the newline after the notes. *)
Lemma Version_roundtrip (v : Version) :
  wf_version note_line v ->
  Version_from_string (Version_to_string v) = Ok (reparsed v).
Proof.
  intros (Hn & Hd & HM & Hy & (nls & En & Hnl & Hends) & Hcs).
  rewrite (Version_to_string_unlines v nls En Hends).
  apply (Version_parse v nls); auto.
  destruct (version_body_clean v nls) as (H1 & H2 & H3); auto.
  rewrite version_lines_body.
  apply (crop_unlines_padded [] (version_body v nls) (version_end v)); auto.
  - apply version_end_blank.
  - unfold version_body. discriminate.
Qed.

Lemma same_notes_newline (nls : list str) :
  Forall note_line nls -> ends_kept blank nls = true -> nls <> [] ->
  same_notes (join [LF] nls ++ [LF]) (join [LF] nls).
Proof.
  intros Hnl Hends Hne. unfold same_notes. cbn [crop_line_padding].
  assert (Hline : Forall (fun l => one_line l = true) nls).
  { eapply Forall_impl; [|exact Hnl]. now intros l (H & _). }
  rewrite join_unlines, splitlines_unlines, splitlines_join by assumption.
  destruct (rev nls) as [|l before] eqn:E; [reflexivity|].
  pose proof (last_kept_not_blank nls l before Hends E) as Hl.
  now destruct l.
Qed.

(** A version whose name, notes and changes the text can hold
    is read back from its own text, and its notes come back with the same
    lines: exactly the notes when they are empty, and the notes followed by
    one newline when they are not. *)
Theorem notes_roundtrip (v : Version) :
  wf_version note_line v ->
  exists v',
    Version_from_string (Version_to_string v) = Ok v'
    /\ notes v' = notes v ++ (if truthy (notes v) then [LF] else [])
    /\ same_notes (notes v') (notes v).
Proof.
  intros Hwf. exists (reparsed v). split; [now apply Version_roundtrip|].
  split; [reflexivity|].
  destruct Hwf as (_ & _ & _ & _ & (nls & En & Hnl & Hends) & _).
  unfold reparsed. cbn [notes]. rewrite En.
  destruct nls as [|n1 nls']; [reflexivity|].
  rewrite (notes_truthy _ _ Hends). apply same_notes_newline; auto.
  discriminate.
Qed.

Lemma not_ends_with_mr (t u : str) (c : ascii) :
  t = u ++ [c] -> c <> ")" -> ~ ends_with_mr t.
Proof.
  intros -> Hc (pre & ds & _ & E).
  replace (pre ++ lit "(!" ++ ds ++ lit ")")
    with ((pre ++ lit "(!" ++ ds) ++ [")"]) in E by (assoc; reflexivity).
  apply app_inj_tail in E as [_ E]. contradiction.
Qed.

Lemma sys_maxint_value : sys_maxint = 9223372036854775807%Z.
Proof. reflexivity. Qed.

Lemma notes_roundtrip_witness :
  exists v',
    Version_from_string
      (Version_to_string
         (mkVersion (lit "v1.2.0") false 15 (lit "Mar") 2020
            (lit "Widget release")
            [mkChange (lit "added widget support") (lit "Feature") 42]))
    = Ok v'
    /\ notes v' = lit "Widget release" ++ [LF]
    /\ same_notes (notes v') (lit "Widget release").
Proof.
  apply (notes_roundtrip
           (mkVersion (lit "v1.2.0") false 15 (lit "Mar") 2020
              (lit "Widget release")
              [mkChange (lit "added widget support") (lit "Feature") 42])).
  split; [|split; [|split; [|split; [|split]]]].
  - exists (lit "1"), (lit "2"), (lit "0"), [].
    repeat split; try discriminate. now left.
  - unfold day_in_range. simpl. lia.
  - simpl. tauto.
  - unfold year_in_range. simpl. lia.
  - exists [lit "Widget release"]. repeat split. repeat constructor.
  - constructor; [|constructor]. split; [simpl; tauto|]. split.
    + repeat split; try discriminate.
      apply (not_ends_with_mr _ (lit "added widget suppor") "t");
        [reflexivity | discriminate].
    + simpl. rewrite sys_maxint_value. lia.
Defined.


(** ** The text of a changelog, as lines *)

Lemma doc_lines_sections (ps : list noted) :
  doc_lines ps = concat (doc_sections ps) ++ doc_end ps.
Proof.
  induction ps as [|p ps IH]; [reflexivity|].
  cbn [doc_lines doc_sections doc_end concat].
  rewrite version_lines_body. destruct ps as [|q ps].
  - cbn [doc_sections concat]. now rewrite !app_nil_r.
  - rewrite IH. assoc. reflexivity.
Qed.

Lemma doc_end_blank (ps : list noted) : forallb blank (doc_end ps) = true.
Proof.
  induction ps as [|p ps IH]; [reflexivity|].
  cbn [doc_end]. destruct ps; [apply version_end_blank | exact IH].
Qed.

Lemma join_versions (ps : list noted) :
  Forall wf_noted ps ->
  join [LF; LF] (map (fun p => Version_to_string (fst p)) ps)
  = unlines (doc_lines ps).
Proof.
  induction 1 as [|p ps Hp _ IH]; [reflexivity|].
  destruct Hp as (_ & _ & _ & _ & En & _ & Hends & _).
  cbn [doc_lines map]. rewrite unlines_app.
  rewrite <- (Version_to_string_unlines (fst p) (snd p) En Hends).
  destruct ps as [|q ps].
  - cbn [map join unlines concat]. now rewrite app_nil_r.
  - rewrite join_cons by discriminate. rewrite IH, unlines_app. reflexivity.
Qed.

Lemma wf_noted_doc (p : noted) : wf_noted p ->
  Forall (fun l => one_line l = true) (version_body (fst p) (snd p))
  /\ Forall (fun l => no_pad l = true) (version_body (fst p) (snd p))
  /\ ends_kept blank (version_body (fst p) (snd p)) = true.
Proof.
  intros (Hn & Hd & HM & Hy & En & Hnl & Hends & Hcs).
  apply version_body_clean; auto using note_line_weaken.
Qed.

Lemma blank_lines_clean (ls : list str) :
  forallb blank ls = true ->
  Forall (fun l => one_line l = true) ls
  /\ Forall (fun l => no_pad l = true) ls
  /\ Forall (fun l => matches false re_level_two l = false) ls.
Proof.
  intros H. repeat split; apply Forall_forall; intros l Hl;
    rewrite forallb_forall in H; apply H in Hl; now destruct l.
Qed.

Lemma section_pad_blank (p : noted) (ps : list noted) :
  forallb blank
    match ps with
    | [] => []
    | _ :: _ => version_end (fst p) ++ [[]; []]
    end = true.
Proof.
  destruct ps; [reflexivity|].
  now rewrite forallb_app, version_end_blank.
Qed.

(** The lines of the sections are clean. *)
Lemma doc_sections_clean (ps : list noted) :
  Forall wf_noted ps ->
  Forall (fun l => one_line l = true) (concat (doc_sections ps))
  /\ Forall (fun l => no_pad l = true) (concat (doc_sections ps)).
Proof.
  induction 1 as [|p ps Hp _ [IH1 IH2]]; [split; constructor|].
  destruct (wf_noted_doc p Hp) as (H1 & H2 & _).
  destruct (blank_lines_clean _ (section_pad_blank p ps)) as (B1 & B2 & _).
  cbn [doc_sections concat].
  split; repeat (apply Forall_app; split); assumption.
Qed.

Lemma ends_kept_app {T} (f : T -> bool) (a b : list T) :
  a <> [] -> head_kept f a = true ->
  b <> [] -> head_kept f (rev b) = true ->
  ends_kept f (a ++ b) = true.
Proof.
  intros Ha Hh Hb Hl. unfold ends_kept. rewrite rev_app_distr.
  destruct a as [|x a]; [congruence|].
  destruct (rev b) as [|y r] eqn:E.
  - apply (f_equal (@rev T)) in E. rewrite rev_involutive in E. contradiction.
  - simpl in *. now rewrite Hh, Hl.
Qed.

(** Neither the first nor the last line of the sections is blank. *)
Lemma doc_sections_ends (ps : list noted) :
  Forall wf_noted ps -> ps <> [] ->
  concat (doc_sections ps) <> []
  /\ ends_kept blank (concat (doc_sections ps)) = true.
Proof.
  induction 1 as [|p ps Hp Hps IH]; [congruence|]. intros _.
  destruct (wf_noted_doc p Hp) as (_ & _ & H3).
  cbn [doc_sections concat]. split; [unfold version_body; discriminate|].
  destruct ps as [|q ps].
  - cbn [doc_sections concat]. now rewrite !app_nil_r.
  - destruct IH as [IHne IHends]; [discriminate|].
    apply ends_kept_app.
    + unfold version_body. discriminate.
    + unfold ends_kept in H3. apply andb_prop in H3 as [H3 _].
      unfold version_body in *. exact H3.
    + exact IHne.
    + unfold ends_kept in IHends. now apply andb_prop in IHends as [_ ?].
Qed.

(** ** Writing a changelog and reading it back *)

Lemma section_is_section (p : noted) (pad : list str) :
  wf_noted p -> forallb blank pad = true ->
  is_section (version_body (fst p) (snd p) ++ pad).
Proof.
  intros (Hn & Hd & HM & Hy & En & Hnl & Hends & Hcs) Hpad.
  destruct (header_line_clean (name (fst p)) (prerelease (fst p)) (day (fst p))
              (month (fst p)) (year (fst p))) as (_ & _ & _ & Hh); auto;
    try (unfold day_in_range, year_in_range in *; lia).
  destruct (change_lines_clean _ Hcs) as (_ & _ & _ & Hc).
  destruct (blank_lines_clean _ Hpad) as (_ & _ & Hb).
  unfold version_body. cbn [app is_section]. split; [exact Hh|].
  constructor; [reflexivity|]. rewrite <- app_assoc.
  apply Forall_app. split.
  - destruct (snd p) as [|n1 nls'] eqn:E; [constructor|]. cbn [notes_block].
    apply Forall_app. split; [|repeat constructor].
    eapply Forall_impl; [|exact Hnl]. now intros l [_ H].
  - cbn [app]. constructor; [reflexivity|].
    apply Forall_app. split; [|exact Hb].
    now apply changes_tail_forall.
Qed.

Lemma section_parses (p : noted) (pad : list str) :
  wf_noted p -> forallb blank pad = true ->
  Version_from_string (join [LF] (version_body (fst p) (snd p) ++ pad))
  = Ok (reparsed (fst p)).
Proof.
  intros Hp Hpad. destruct (wf_noted_doc p Hp) as (H1 & H2 & H3).
  destruct Hp as (Hn & Hd & HM & Hy & En & Hnl & Hends & Hcs).
  apply (Version_parse (fst p) (snd p)); auto using note_line_weaken.
  apply (crop_join_padded [] (version_body (fst p) (snd p)) pad); auto.
  unfold version_body. discriminate.
Qed.

Lemma doc_sections_spec (ps : list noted) :
  Forall wf_noted ps ->
  Forall is_section (doc_sections ps)
  /\ Forall2 (fun b v => Version_from_string (join [LF] b) = Ok v)
       (doc_sections ps) (map (fun p => reparsed (fst p)) ps).
Proof.
  induction 1 as [|p ps Hp _ [IH1 IH2]]; [split; constructor|].
  cbn [doc_sections map]. split; constructor; auto.
  - apply section_is_section; auto. apply section_pad_blank.
  - apply section_parses; auto. apply section_pad_blank.
Qed.

Lemma Changelog_to_string_unlines (ps : list noted) (c : Changelog) :
  Forall wf_noted ps -> map fst ps = rev (versions c) ->
  Changelog_to_string c = unlines (top_line :: [] :: [] :: doc_lines ps).
Proof.
  intros Hps E. unfold Changelog_to_string.
  rewrite <- E, map_map, (join_versions ps Hps), !unlines_cons.
  unfold top_line. assoc. reflexivity.
Qed.

(** What is left of the text of a changelog once cropped: the header and,
    after two blank lines, the sections. *)
Lemma crop_changelog (ps : list noted) :
  Forall wf_noted ps ->
  crop_line_padding (Text (unlines (top_line :: [] :: [] :: doc_lines ps)))
  = top_line :: match ps with
                | [] => []
                | _ :: _ => [] :: [] :: concat (doc_sections ps)
                end.
Proof.
  intros Hps. destruct ps as [|p ps].
  - reflexivity.
  - destruct (doc_sections_clean _ Hps) as (H1 & H2).
    destruct (doc_sections_ends _ Hps) as (H3 & H4); [discriminate|].
    rewrite doc_lines_sections.
    apply (crop_unlines_padded []
             (top_line :: [] :: [] :: concat (doc_sections (p :: ps)))
             (doc_end (p :: ps))).
    + repeat (constructor; [reflexivity|]). exact H1.
    + repeat (constructor; [reflexivity|]). exact H2.
    + reflexivity.
    + apply doc_end_blank.
    + discriminate.
    + apply (ends_kept_app blank [top_line; []; []]); auto; try discriminate.
Qed.

Lemma crop_sections (ps : list noted) :
  Forall wf_noted ps ->
  crop_line_padding
    (Lines match ps with
           | [] => []
           | _ :: _ => [] :: [] :: concat (doc_sections ps)
           end)
  = concat (doc_sections ps).
Proof.
  intros Hps. destruct ps as [|p ps]; [reflexivity|].
  destruct (doc_sections_clean _ Hps) as (H1 & H2).
  destruct (doc_sections_ends _ Hps) as (H3 & H4); [discriminate|].
  cbn [crop_line_padding].
  replace ([] :: [] :: concat (doc_sections (p :: ps)))
    with ([[]; []] ++ concat (doc_sections (p :: ps)) ++ [])
    by (cbn [app]; now rewrite app_nil_r).
  now apply crop_padded.
Qed.

Lemma noted_versions (P : str -> Prop) (vs : list Version) :
  (forall l, P l -> doc_note_line l) ->
  Forall (wf_version P) vs ->
  exists ps, map fst ps = vs /\ Forall wf_noted ps.
Proof.
  intros HP. induction 1 as [|v vs Hv _ (ps & E & Hps)].
  - exists []. split; constructor.
  - destruct Hv as (Hn & Hd & HM & Hy & (nls & En & Hnl & Hends) & Hcs).
    exists ((v, nls) :: ps). split; [simpl; now rewrite E|].
    constructor; [|exact Hps]. unfold wf_noted. cbn [fst snd].
    repeat (split; [assumption|]). split; [|split; assumption].
    eapply Forall_impl; [|exact Hnl]. exact HP.
Qed.

(** Reading the text of a changelog gives its versions in the order of the
    text, each as [Version.from_string] reads it. *)
Lemma Changelog_roundtrip (c : Changelog) :
  Forall (wf_version doc_note_line) (versions c) ->
  Changelog_from_string (Changelog_to_string c)
  = ([], Ok (mkChangelog (map reparsed (rev (versions c))))).
Proof.
  intros Hwf.
  destruct (noted_versions doc_note_line (rev (versions c)) (fun l H => H))
    as (ps & E & Hps); [now apply Forall_rev|].
  rewrite (Changelog_to_string_unlines ps c Hps E).
  unfold Changelog_from_string. rewrite (crop_changelog ps Hps).
  f_equal.
  change (matches false re_top_header (lower top_line)) with true.
  cbn [assert bind]. rewrite (crop_sections ps Hps).
  destruct (doc_sections_spec ps Hps) as (Hsec & Hparse).
  rewrite (sections_loop_spec _ [] Hsec). cbn [app bind].
  rewrite (mapM_Forall2 _ _ _ Hparse). cbn [bind].
  now rewrite <- E, map_map.
Qed.

(** ** What is written is read back *)

Lemma example_change_wf : wf_change example_change.
Proof.
  split; [simpl; tauto|]. split.
  - repeat split; try discriminate.
    apply (not_ends_with_mr _ (lit "added widget suppor") "t");
      [reflexivity | discriminate].
  - simpl. rewrite sys_maxint_value. lia.
Qed.

Lemma example_version_wf : wf_version doc_note_line example_version.
Proof.
  split; [|split; [|split; [|split; [|split]]]].
  - exists (lit "1"), (lit "2"), (lit "0"), [].
    repeat split; try discriminate. now left.
  - unfold day_in_range. simpl. lia.
  - simpl. tauto.
  - unfold year_in_range. simpl. lia.
  - exists []. repeat split. constructor.
  - constructor; [exact example_change_wf|]. constructor; [|constructor].
    split; [simpl; tauto|]. split.
    + repeat split; try discriminate.
      apply (not_ends_with_mr _ (lit "fixed crash on startu") "p");
        [reflexivity | discriminate].
    + simpl. rewrite sys_maxint_value. lia.
Qed.

Lemma example_version'_wf : wf_version doc_note_line example_version'.
Proof.
  split; [|split; [|split; [|split; [|split]]]].
  - exists (lit "1"), (lit "3"), (lit "0"), [].
    repeat split; try discriminate. now left.
  - unfold day_in_range. simpl. lia.
  - simpl. tauto.
  - unfold year_in_range. simpl. lia.
  - exists [lit "Widget release"; lit "with notes"].
    split; [reflexivity|]. split; [|reflexivity].
    repeat constructor.
  - constructor.
Qed.

Lemma wf_version_weaken (v : Version) :
  wf_version doc_note_line v -> wf_version note_line v.
Proof.
  intros (Hn & Hd & HM & Hy & (nls & En & Hnl & Hends) & Hcs).
  repeat (split; [assumption|]). split; [|assumption].
  exists nls. auto using note_line_weaken.
Qed.

(** The line written for a change is read back as that change, when its kind
    is one of [KINDS], its title is a non-empty line with no blank around it
    that does not end with a merge request reference, and its merge request
    number is an [int] that is not negative. *)
Theorem change_reread (c : Change) :
  wf_change c -> Change_from_string (Change_to_string c) = Ok c.
Proof. exact (Change_roundtrip c). Qed.

Lemma change_reread_witness :
  Change_from_string (Change_to_string example_change) = Ok example_change.
Proof. apply (change_reread example_change). exact example_change_wf. Defined.

(** A change constructed with no merge request and a title that ends with a
    reference [" (!n)"] is accepted by the constructor, is written as the
    same line as the change with the shorter title and merge request [n], and
    is read back as that one. *)
Theorem title_reference_read_as_mr (t k : str) (n : Z) :
  In k KINDS -> clean_title t -> (0 < n <= sys_maxint)%Z ->
  Change_init (t ++ mr_suffix n) k 0 = Ok (mkChange (t ++ mr_suffix n) k 0)
  /\ Change_to_string (mkChange (t ++ mr_suffix n) k 0)
     = Change_to_string (mkChange t k n)
  /\ Change_from_string (Change_to_string (mkChange (t ++ mr_suffix n) k 0))
     = Ok (mkChange t k n).
Proof.
  intros Hk Ht Hn.
  assert (E : Change_to_string (mkChange (t ++ mr_suffix n) k 0)
              = Change_to_string (mkChange t k n)).
  { rewrite !change_line_text. cbn [title kind mr].
    change (mr_suffix 0) with (@nil ascii). now rewrite app_nil_r. }
  split; [|split; [exact E|]].
  - unfold Change_init. destruct Ht as (Hne & _).
    assert (Htr : truthy (t ++ mr_suffix n) = true)
      by (destruct t; [congruence | reflexivity]).
    rewrite Htr, (kind_check k Hk). reflexivity.
  - rewrite E. apply Change_roundtrip. unfold wf_change. cbn [kind title mr].
    split; [exact Hk|]. split; [exact Ht|]. lia.
Qed.

Lemma title_reference_read_as_mr_witness :
  Change_from_string
    (Change_to_string (mkChange (lit "fix (!5)") (lit "Bugfix") 0))
  = Ok (mkChange (lit "fix") (lit "Bugfix") 5).
Proof.
  apply (title_reference_read_as_mr (lit "fix") (lit "Bugfix") 5).
  - simpl. tauto.
  - repeat split; try discriminate.
    apply (not_ends_with_mr _ (lit "fi") "x"); [reflexivity | discriminate].
  - rewrite sys_maxint_value. lia.
Defined.

(** The text written for a version is read back as the same version, with
    two differences: the name of a prerelease comes back with a blank after
    it, and notes that are not empty come back with a newline after them. *)
Theorem version_reread (v : Version) :
  wf_version note_line v ->
  Version_from_string (Version_to_string v)
  = Ok (mkVersion (name v ++ (if prerelease v then [" "] else []))
          (prerelease v) (day v) (month v) (year v)
          (notes v ++ (if truthy (notes v) then [LF] else []))
          (changes v)).
Proof. exact (Version_roundtrip v). Qed.

Lemma version_reread_witness :
  Version_from_string (Version_to_string example_version) = Ok example_version.
Proof.
  apply (version_reread example_version).
  apply wf_version_weaken. exact example_version_wf.
Defined.

(** The text written for a changelog is read back, with no warning, as the
    changelog of the same versions in the reverse order, each version as
    [Version.from_string] reads its own text. *)
Theorem changelog_reread (c : Changelog) :
  Forall (wf_version doc_note_line) (versions c) ->
  Changelog_from_string (Changelog_to_string c)
  = ([], Ok (mkChangelog (map reparsed (rev (versions c))))).
Proof. exact (Changelog_roundtrip c). Qed.

Lemma changelog_reread_witness :
  Changelog_from_string
    (Changelog_to_string (mkChangelog [example_version; example_version']))
  = ([], Ok (mkChangelog [reparsed example_version'; example_version])).
Proof.
  apply (changelog_reread (mkChangelog [example_version; example_version'])).
  constructor; [exact example_version_wf|].
  constructor; [exact example_version'_wf|]. constructor.
Defined.

(** ** What [crop_line_padding] keeps *)

Lemma dropwhile_split {T} (f : T -> bool) (l : list T) :
  exists pre, l = pre ++ dropwhile f l /\ forallb f pre = true.
Proof.
  induction l as [|x l (pre & E & H)]; [now exists []|].
  simpl. destruct (f x) eqn:Hx.
  - exists (x :: pre). simpl. rewrite Hx, H. now rewrite <- E.
  - now exists [].
Qed.

Lemma trim_split {T} (f : T -> bool) (l : list T) :
  exists pre post,
    l = pre ++ trim f l ++ post
    /\ forallb f pre = true /\ forallb f post = true.
Proof.
  destruct (dropwhile_split f l) as (pre & E1 & H1).
  destruct (dropwhile_split f (rev (dropwhile f l))) as (q & E2 & H2).
  exists pre, (rev q). unfold trim. repeat split; auto.
  - rewrite <- rev_app_distr, <- E2, rev_involutive. exact E1.
  - now rewrite forallb_rev.
Qed.

Lemma not_truthy_nil (ls : list str) :
  existsb truthy ls = false -> ls = repeat [] (length ls).
Proof.
  induction ls as [|l ls IH]; [reflexivity|]. simpl.
  intros H. apply orb_false_elim in H as [Hl Hls].
  destruct l; [|discriminate]. now rewrite <- IH.
Qed.

(** When some line is not blank, [crop_line_padding] returns the stripped
    lines from the first one that is not empty to the last one that is not
    empty: what it leaves out before and after are empty lines, and the
    empty lines in between are kept. *)
Theorem crop_keeps_core (ls : list str) :
  existsb truthy (map strip ls) = true ->
  exists pre post,
    map strip ls = pre ++ crop_line_padding (Lines ls) ++ post
    /\ forallb blank pre = true /\ forallb blank post = true
    /\ crop_line_padding (Lines ls) <> []
    /\ ends_kept blank (crop_line_padding (Lines ls)) = true.
Proof.
  intros H. cbn [crop_line_padding]. rewrite crop_lines_spec, H.
  destruct (trim_split blank (map strip ls)) as (pre & post & E & Hpre & Hpost).
  exists pre, post. unfold trim_blank. repeat split; auto.
  - intros Hnil. rewrite truthy_not_blank, <- existsb_trim, Hnil in H.
    discriminate.
  - apply trim_ends_kept.
Qed.

Lemma crop_keeps_core_witness :
  exists pre post,
    map strip [lit "  "; lit " a "; []; lit "b"; lit " "]
    = pre ++ crop_line_padding (Lines [lit "  "; lit " a "; []; lit "b"; lit " "])
          ++ post
    /\ forallb blank pre = true /\ forallb blank post = true
    /\ crop_line_padding (Lines [lit "  "; lit " a "; []; lit "b"; lit " "]) <> []
    /\ ends_kept blank
         (crop_line_padding (Lines [lit "  "; lit " a "; []; lit "b"; lit " "]))
       = true.
Proof.
  apply (crop_keeps_core [lit "  "; lit " a "; []; lit "b"; lit " "]).
  reflexivity.
Defined.

(** A list of blank lines is not emptied: [crop_line_padding] returns as
    many empty lines as it was given. *)
Theorem crop_blank_lines (ls : list str) :
  existsb truthy (map strip ls) = false ->
  crop_line_padding (Lines ls) = repeat [] (length ls).
Proof.
  intros H. cbn [crop_line_padding]. rewrite crop_lines_spec, H.
  rewrite (not_truthy_nil _ H) at 1. now rewrite length_map.
Qed.

Lemma crop_blank_lines_witness :
  crop_line_padding (Lines [lit "  "; []; lit " "]) = [[]; []; []].
Proof. apply (crop_blank_lines [lit "  "; []; lit " "]). reflexivity. Defined.

(** ** What the parsers accept and return *)

Lemma existsb_str_eqb_In (x : str) (l : list str) :
  existsb (str_eqb x) l = true -> In x l.
Proof.
  intros H. apply existsb_exists in H as (y & Hy & E).
  apply str_eqb_eq in E. now subst.
Qed.

Lemma Change_from_string_valid (s : str) (c : Change) :
  Change_from_string s = Ok c -> valid_change c.
Proof.
  unfold Change_from_string.
  destruct (re_match true re_change s) as [m|]; [|discriminate].
  destruct (group m 1) as [k|]; simpl; [|discriminate].
  destruct (int_or_0 (group m 3)) as [z|] eqn:E; simpl; [|discriminate].
  apply int_or_0_nonneg in E.
  destruct (group m 2) as [t|]; [|discriminate].
  unfold Change_init, assert, bind.
  destruct (truthy t) eqn:Ht; [|discriminate].
  destruct (existsb (str_eqb (capitalize k)) KINDS) eqn:Hk; [|discriminate].
  destruct ((z =? 0)%Z || isinstance_int z) eqn:Hz; [|discriminate].
  intros [= <-]. unfold valid_change. cbn [kind title mr].
  split; [now apply existsb_str_eqb_In|]. split.
  - destruct t; [discriminate | congruence].
  - split; [exact E|]. apply orb_prop in Hz as [Hz|Hz].
    + apply Z.eqb_eq in Hz. subst. rewrite sys_maxint_value. lia.
    + unfold isinstance_int in Hz. apply andb_prop in Hz as [_ Hz].
      now apply Z.leb_le.
Qed.

Lemma mapM_Forall {A B} (f : A -> result B) (P : B -> Prop) (l : list A) r :
  (forall a b, f a = Ok b -> P b) -> mapM f l = Ok r -> Forall P r.
Proof.
  intros Hf. revert r. induction l as [|a l IH]; simpl; intros r.
  - intros [= <-]. constructor.
  - destruct (f a) as [b|] eqn:E; simpl; [|discriminate].
    destruct (mapM f l) as [bs|]; simpl; [|discriminate].
    intros [= <-]. constructor; eauto.
Qed.

Lemma mapM_length {A B} (f : A -> result B) (l : list A) r :
  mapM f l = Ok r -> length r = length l.
Proof.
  revert r. induction l as [|a l IH]; simpl; intros r.
  - now intros [= <-].
  - destruct (f a) as [b|]; simpl; [|discriminate].
    destruct (mapM f l) as [bs|]; simpl; [|discriminate].
    intros [= <-]. simpl. now rewrite (IH bs).
Qed.

Lemma Version_init_valid nm d M y n v :
  Version_init nm d M y n = Ok v ->
  matches false re_version_name (name v) = true
  /\ day_in_range (day v) /\ In (month v) MONTHS /\ year_in_range (year v)
  /\ notes v = n /\ changes v = [].
Proof.
  unfold Version_init, matches.
  destruct (re_match false re_version_name nm) as [m|] eqn:Em; [|discriminate].
  unfold assert, bind.
  destruct (isinstance_int d && (0 <? d)%Z && (d <? 32)%Z) eqn:Hd; [|discriminate].
  destruct (existsb (str_eqb (capitalize M)) MONTHS) eqn:HM; [|discriminate].
  destruct (isinstance_int y && (2017 <=? y)%Z && (y <? 2030)%Z) eqn:Hy;
    [|discriminate].
  intros [= <-]. cbn [name day month year notes changes]. rewrite Em.
  split; [reflexivity|]. split; [now apply day_check_iff|].
  split; [now apply existsb_str_eqb_In|]. split; [now apply year_check_iff|].
  now split.
Qed.

Lemma Version_from_string_valid (s : str) (v : Version) :
  Version_from_string s = Ok v -> valid_version v.
Proof.
  unfold Version_from_string.
  destruct (crop_line_padding (Text s)) as [|line0 rest]; [discriminate|].
  destruct (re_match true re_version_header line0) as [m|]; [|discriminate].
  destruct (notes_loop _ 0 [] None) as [ns [i|]]; [|discriminate].
  destruct (str_group (group m 1)) as [nm|]; simpl; [|discriminate].
  destruct (int_group (group m 2)) as [d|]; simpl; [|discriminate].
  destruct (str_group (group m 3)) as [M|]; simpl; [|discriminate].
  destruct (int_group (group m 4)) as [y|]; simpl; [|discriminate].
  destruct (Version_init nm d M y (join [LF] ns)) as [v0|] eqn:E; simpl;
    [|discriminate].
  destruct (mapM Change_from_string _) as [cs|] eqn:Ec; simpl; [|discriminate].
  intros [= <-]. apply Version_init_valid in E as (H1 & H2 & H3 & H4 & _).
  unfold valid_version. cbn [set_changes name day month year changes].
  repeat (split; [assumption|]).
  eapply mapM_Forall; [|exact Ec]. exact Change_from_string_valid.
Qed.

(** Every change that [Change.from_string] returns has passed the checks of
    the constructor: its kind is one of [KINDS], in that spelling, its title
    is not empty, and its merge request number is an [int] that is not
    negative. *)
Theorem parsed_change_valid (s : str) (c : Change) :
  Change_from_string s = Ok c ->
  In (kind c) KINDS /\ title c <> [] /\ (0 <= mr c <= sys_maxint)%Z.
Proof. exact (Change_from_string_valid s c). Qed.

Lemma parsed_change_valid_witness :
  In (lit "Bugfix") KINDS /\ lit "fixed login bug" <> []
  /\ (0 <= 17 <= sys_maxint)%Z.
Proof.
  apply (parsed_change_valid (lit "- bugFIX :fixed login bug(!17) ")
           (mkChange (lit "fixed login bug") (lit "Bugfix") 17)).
  vm_compute. reflexivity.
Defined.

(** Every version of a changelog that [Changelog.from_string] returns has
    passed the checks of the constructors: a name of the grammar, a day, a
    month of [MONTHS] and a year in range, and valid changes. *)
Theorem parsed_changelog_valid (s : str) (c : Changelog) :
  snd (Changelog_from_string s) = Ok c -> Forall valid_version (versions c).
Proof.
  unfold Changelog_from_string.
  destruct (crop_line_padding (Text s)) as [|line0 rest];
    [intros [= <-]; constructor|].
  cbn [snd]. unfold assert, bind.
  destruct (matches false re_top_header (lower line0)); [|discriminate].
  destruct (sections_loop _ []) as [secs|]; [|discriminate].
  destruct (mapM _ secs) as [vs|] eqn:E; [|discriminate].
  intros [= <-]. cbn [versions].
  eapply mapM_Forall; [|exact E].
  intros a b. apply Version_from_string_valid.
Qed.

Lemma parsed_changelog_valid_witness :
  Forall valid_version (versions (mkChangelog [reparsed example_version'; example_version])).
Proof.
  apply (parsed_changelog_valid
           (Changelog_to_string (mkChangelog [example_version; example_version']))).
  vm_compute. reflexivity.
Defined.

(** ** Sections of a changelog and notes of a version *)

Lemma append_to_last_length (sections : list (list str)) (line : str) :
  sections <> [] -> length (append_to_last sections line) = length sections.
Proof.
  intros H. unfold append_to_last.
  destruct (exists_last H) as (u & x & ->).
  rewrite removelast_last, !length_app. reflexivity.
Qed.

Lemma sections_loop_length (lines : list str) (acc secs : list (list str)) :
  sections_loop lines acc = Ok secs ->
  length secs
  = (length acc + length (filter (matches false re_level_two) lines))%nat.
Proof.
  revert acc. induction lines as [|l ls IH]; intros acc; simpl.
  - intros [= <-]. lia.
  - destruct (matches false re_level_two l) eqn:E; simpl.
    + intros H. apply IH in H. rewrite H, append_to_last_length.
      * rewrite length_app. simpl. lia.
      * now destruct acc.
    + destruct acc as [|a acc']; simpl; [discriminate|].
      intros H. apply IH in H. rewrite H, append_to_last_length by discriminate.
      reflexivity.
Qed.

(** A changelog whose first line after the top header does not start a
    section (two hashes and another byte) is rejected with the assertion
    "Changelog body doesn't start with level two header.". *)
Theorem body_starts_with_section (string line0 l : str) (rest ls : list str) :
  crop_line_padding (Text string) = line0 :: rest ->
  matches false re_top_header (lower line0) = true ->
  crop_line_padding (Lines rest) = l :: ls ->
  matches false re_level_two l = false ->
  Changelog_from_string string = ([], Raise missing_level_two).
Proof.
  intros E1 Htop E2 Hl. unfold Changelog_from_string.
  rewrite E1, Htop, E2. cbn [assert bind sections_loop]. now rewrite Hl.
Qed.

Lemma body_starts_with_section_witness :
  Changelog_from_string
    (lit "# Changelog" ++ [LF; LF] ++ lit "some text" ++ [LF]
     ++ lit "## v1.0.0 (1 Jan 2017)")
  = ([], Raise missing_level_two).
Proof.
  apply (body_starts_with_section _ (lit "# Changelog") (lit "some text")
           [[]; lit "some text"; lit "## v1.0.0 (1 Jan 2017)"]
           [lit "## v1.0.0 (1 Jan 2017)"]); reflexivity.
Defined.

(** A changelog that is read has one version for each line of its body that
    starts a section. *)
Theorem one_version_per_section (string line0 : str) (rest : list str)
    (c : Changelog) :
  crop_line_padding (Text string) = line0 :: rest ->
  snd (Changelog_from_string string) = Ok c ->
  length (versions c)
  = length (filter (matches false re_level_two)
              (crop_line_padding (Lines rest))).
Proof.
  intros E. unfold Changelog_from_string. rewrite E. cbn [snd].
  unfold assert, bind.
  destruct (matches false re_top_header (lower line0)); [|discriminate].
  destruct (sections_loop _ []) as [secs|] eqn:Es; [|discriminate].
  destruct (mapM _ secs) as [vs|] eqn:Ev; [|discriminate].
  intros [= <-]. cbn [versions].
  rewrite (mapM_length _ _ _ Ev). now apply sections_loop_length in Es.
Qed.

Lemma one_version_per_section_witness :
  length [reparsed example_version'; example_version] = 2%nat.
Proof.
  apply (one_version_per_section
           (Changelog_to_string (mkChangelog [example_version; example_version']))
           (lit "# Changelog")
           (tl (crop_line_padding
                  (Text (Changelog_to_string
                           (mkChangelog [example_version; example_version'])))))
           (mkChangelog [reparsed example_version'; example_version]));
    vm_compute; reflexivity.
Defined.

Lemma notes_loop_all (lines : list str) i acc last_i :
  Forall (fun l => matches true re_changes_header l = false) lines ->
  notes_loop lines i acc last_i
  = (acc ++ lines,
     match lines with
     | [] => last_i
     | _ :: _ => Some (i + length lines - 1)%nat
     end).
Proof.
  intros H. revert i acc last_i.
  induction H as [|l ls Hl _ IH]; intros i acc last_i; simpl.
  - now rewrite app_nil_r.
  - rewrite Hl, IH, <- app_assoc. simpl. f_equal.
    destruct ls; f_equal; simpl; lia.
Qed.

(** A version whose text has lines after the header but no line
    "### Changes" is read with all those lines as its notes and with no
    change. *)
Theorem version_without_changes_header (string line0 : str) (rest : list str)
    (v : Version) :
  crop_line_padding (Text string) = line0 :: rest ->
  crop_line_padding (Lines rest) <> [] ->
  Forall (fun l => matches true re_changes_header l = false)
    (crop_line_padding (Lines rest)) ->
  Version_from_string string = Ok v ->
  notes v = join [LF] (crop_line_padding (Lines rest)) /\ changes v = [].
Proof.
  intros E Hne Hall. unfold Version_from_string. rewrite E.
  destruct (re_match true re_version_header line0) as [m|]; [|discriminate].
  rewrite (notes_loop_all _ 0 [] None Hall). cbn [app].
  destruct (crop_line_padding (Lines rest)) as [|l ls] eqn:El; [congruence|].
  replace (skipn (0 + length (l :: ls) - 1 + 1) (l :: ls)) with (@nil str).
  2:{ replace (0 + length (l :: ls) - 1 + 1)%nat with (length (l :: ls))
        by (simpl; lia).
      now rewrite skipn_all. }
  cbn [crop_line_padding crop_lines map first_truthy rev filter mapM].
  destruct (str_group (group m 1)) as [nm|]; simpl; [|discriminate].
  destruct (int_group (group m 2)) as [d|]; simpl; [|discriminate].
  destruct (str_group (group m 3)) as [M|]; simpl; [|discriminate].
  destruct (int_group (group m 4)) as [y|]; simpl; [|discriminate].
  destruct (Version_init nm d M y _) as [v0|] eqn:Ev; simpl; [|discriminate].
  intros [= <-]. apply Version_init_valid in Ev as (_ & _ & _ & _ & Hn & _).
  now split.
Qed.

Lemma version_without_changes_header_witness :
  notes (mkVersion (lit "v1.0.0") false 1 (lit "Jan") 2017
           (lit "* Bugfix: fixed login bug") [])
  = join [LF] [lit "* Bugfix: fixed login bug"]
  /\ changes (mkVersion (lit "v1.0.0") false 1 (lit "Jan") 2017
                (lit "* Bugfix: fixed login bug") [])
     = [].
Proof.
  apply (version_without_changes_header
           (lit "## v1.0.0 (1 Jan 2017)" ++ [LF] ++ lit "* Bugfix: fixed login bug")
           (lit "## v1.0.0 (1 Jan 2017)") [lit "* Bugfix: fixed login bug"]).
  - reflexivity.
  - discriminate.
  - repeat constructor.
  - vm_compute. reflexivity.
Defined.

(** ** The prompts *)

Lemma raw_input_eq (prompt : str) (w : console) :
  raw_input prompt w
  = match stdin w with
    | [] => (mkConsole [] (stdout w ++ [prompt]) (stderr w), Throw EOFError)
    | line :: rest =>
        (mkConsole rest (stdout w ++ [prompt]) (stderr w), Return line)
    end.
Proof. unfold raw_input. simpl. now destruct (stdin w). Qed.

Section Loop.

Variables (prompt : str) (default : option str) (match_ : pattern).
Variables (required retry : bool).
Variable confirm : option (str -> console -> console * outcome bool).

Lemma prompt_loop_skips (bad tail : list str) (n : nat) (out err : list str) :
  retry = true ->
  Forall (fun l => accepted default match_ required l = false) bad ->
  prompt_loop (length bad + n) prompt default match_ required retry confirm
    (mkConsole (bad ++ tail) out err)
  = prompt_loop n prompt default match_ required retry confirm
      (mkConsole tail (out ++ repeat prompt (length bad))
         (err ++ map (warning_of default match_ required) bad)).
Proof.
  intros -> H. revert out err.
  induction H as [|l bad Hl _ IH]; intros out err.
  - simpl. now rewrite !app_nil_r.
  - cbn [length Nat.add app prompt_loop raw_input stdin stdout stderr map].
    unfold accepted in Hl.
    destruct (check_value (or_default (strip l) default) match_ required)
      as [msg|] eqn:Ec; [|discriminate].
    replace (warning_of default match_ required l) with (lit "WARNING: " ++ msg)
      by (unfold warning_of; now rewrite Ec).
    unfold print_stderr. cbn [stdin stdout stderr]. rewrite IH.
    cbn [repeat]. rewrite <- !app_assoc. reflexivity.
Qed.

Lemma prompt_loop_shrinks (fuel : nat) (w : console) :
  confirm_reads_only confirm ->
  (length (stdin (fst (prompt_loop fuel prompt default match_ required retry
                         confirm w)))
   <= length (stdin w))%nat.
Proof.
  intros Hc. revert w. induction fuel as [|fuel IH]; intros w; [simpl; lia|].
  cbn [prompt_loop]. rewrite raw_input_eq.
  destruct (stdin w) as [|l rest] eqn:E; [simpl; lia|].
  destruct (check_value _ match_ required) as [msg|].
  - destruct retry; [|simpl; lia].
    etransitivity; [apply IH|]. simpl. lia.
  - destruct confirm as [ask|]; [|simpl; lia].
    pose proof (Hc (or_default (strip l) default) (mkConsole rest (stdout w ++ [prompt]) (stderr w))) as Ha.
    destruct (ask _ _) as [w' [[|]|e]]; cbn [fst stdin length] in *;
      [lia | | lia].
    etransitivity; [apply IH|]. lia.
Qed.

(** The bound on the rounds of the loop is never reached: above the number
    of lines to read, its value makes no difference. *)
Lemma prompt_loop_fuel (f1 f2 : nat) (w : console) :
  confirm_reads_only confirm ->
  (length (stdin w) < f1)%nat -> (length (stdin w) < f2)%nat ->
  prompt_loop f1 prompt default match_ required retry confirm w
  = prompt_loop f2 prompt default match_ required retry confirm w.
Proof.
  intros Hc. revert f2 w. induction f1 as [|f1 IH]; intros f2 w H1 H2; [lia|].
  destruct f2 as [|f2]; [lia|].
  cbn [prompt_loop]. rewrite !raw_input_eq.
  destruct (stdin w) as [|l rest] eqn:E; [reflexivity|]. simpl in H1, H2.
  destruct (check_value _ match_ required) as [msg|].
  - destruct retry; [|reflexivity]. apply IH; simpl; lia.
  - destruct confirm as [ask|]; [|reflexivity].
    pose proof (Hc (or_default (strip l) default) (mkConsole rest (stdout w ++ [prompt]) (stderr w))) as Ha.
    destruct (ask _ _) as [w' [[|]|e]]; cbn [fst stdin] in *; try reflexivity.
    apply IH; lia.
Qed.

End Loop.

Section FirstValid.

Variables (msg : str) (default : option str) (match_ : pattern).
Variable required : bool.

Lemma prompt_string_with_first_valid (bad : list str) (good : str)
    (rest : list str) (w : console) :
  stdin w = bad ++ good :: rest ->
  Forall (fun l => accepted default match_ required l = false) bad ->
  accepted default match_ required good = true ->
  prompt_string_with None msg default match_ required true w
  = (mkConsole rest
       (stdout w ++ repeat (prompt_text msg default required) (S (length bad)))
       (stderr w ++ map (warning_of default match_ required) bad),
     Return (or_default (strip good) default)).
Proof.
  intros E Hbad Hgood. unfold prompt_string_with. destruct w as [i o e].
  cbn [stdin stdout stderr] in *. subst i.
  replace (S (length (bad ++ good :: rest)))
    with (length bad + S (S (length rest)))%nat
    by (rewrite length_app; simpl; lia).
  rewrite prompt_loop_skips by auto.
  cbn [prompt_loop raw_input stdin stdout stderr].
  unfold accepted in Hgood.
  destruct (check_value (or_default (strip good) default) match_ required);
    [discriminate|].
  rewrite <- app_assoc, <- repeat_cons. reflexivity.
Qed.

Lemma prompt_string_with_eof confirm (w : console) :
  Forall (fun l => accepted default match_ required l = false) (stdin w) ->
  prompt_string_with confirm msg default match_ required true w
  = (mkConsole []
       (stdout w
        ++ repeat (prompt_text msg default required) (S (length (stdin w))))
       (stderr w ++ map (warning_of default match_ required) (stdin w)),
     Throw EOFError).
Proof.
  intros Hbad. unfold prompt_string_with. destruct w as [i o e].
  cbn [stdin stdout stderr] in *.
  pose proof (prompt_loop_skips (prompt_text msg default required) default
                match_ required true confirm i [] 1 o e eq_refl Hbad) as H.
  rewrite app_nil_r, Nat.add_1_r in H. rewrite H.
  cbn [prompt_loop raw_input stdin stdout stderr].
  rewrite <- app_assoc, <- repeat_cons. reflexivity.
Qed.

Lemma prompt_string_with_no_retry confirm (l m : str) (rest : list str)
    (w : console) :
  stdin w = l :: rest ->
  check_value (or_default (strip l) default) match_ required = Some m ->
  prompt_string_with confirm msg default match_ required false w
  = (mkConsole rest (stdout w ++ [prompt_text msg default required]) (stderr w),
     Throw (InputError m)).
Proof.
  intros E Hl. unfold prompt_string_with. rewrite E.
  cbn [length prompt_loop]. rewrite raw_input_eq, E, Hl. reflexivity.
Qed.

End FirstValid.

(** With [retry] and no confirmation, [prompt_string] returns the value of
    the first line it accepts: it has written its prompt once for that line
    and once for every line before it, has printed one warning for each of
    those, and has left the lines after it unread. *)
Theorem prompt_string_first_valid (msg : str) (default : option str)
    (match_ : pattern) (required : bool) (bad : list str) (good : str)
    (rest : list str) (w : console) :
  stdin w = bad ++ good :: rest ->
  Forall (fun l => accepted default match_ required l = false) bad ->
  accepted default match_ required good = true ->
  prompt_string msg default match_ required true false w
  = (mkConsole rest
       (stdout w ++ repeat (prompt_text msg default required) (S (length bad)))
       (stderr w ++ map (warning_of default match_ required) bad),
     Return (or_default (strip good) default)).
Proof. apply prompt_string_with_first_valid. Qed.

Lemma prompt_string_first_valid_witness :
  prompt_string (lit "Name") (Some (lit "x")) no_pattern true true false
    (mkConsole [lit " bob "; lit "next"] [] [])
  = (mkConsole [lit "next"] [lit "Name (default is 'x'): "] [],
     Return (lit "bob")).
Proof.
  apply (prompt_string_first_valid (lit "Name") (Some (lit "x")) no_pattern true
           [] (lit " bob ") [lit "next"] (mkConsole [lit " bob "; lit "next"] [] []));
    [reflexivity | constructor | reflexivity].
Defined.

(** With [retry], when no line of the input is accepted, [prompt_string]
    does not loop for ever: it reads and warns about every line and ends with
    the [EOFError] of [raw_input]. *)
Theorem prompt_string_input_ends (msg : str) (default : option str)
    (match_ : pattern) (required confirm : bool) (w : console) :
  Forall (fun l => accepted default match_ required l = false) (stdin w) ->
  prompt_string msg default match_ required true confirm w
  = (mkConsole []
       (stdout w
        ++ repeat (prompt_text msg default required) (S (length (stdin w))))
       (stderr w ++ map (warning_of default match_ required) (stdin w)),
     Throw EOFError).
Proof. intros H. unfold prompt_string. now apply prompt_string_with_eof. Qed.

Lemma prompt_string_input_ends_witness :
  prompt_string (lit "Name") None no_pattern true true false
    (mkConsole [lit "  "; []] [] [])
  = (mkConsole [] [lit "Name: "; lit "Name: "; lit "Name: "]
       [lit "WARNING: Required value can't be empty.";
        lit "WARNING: Required value can't be empty."],
     Throw EOFError).
Proof.
  apply (prompt_string_input_ends (lit "Name") None no_pattern true false
           (mkConsole [lit "  "; []] [] [])).
  repeat constructor.
Defined.

(** Without [retry], the first line that is not accepted raises
    [InputError] with its message; nothing is printed on the standard
    error. *)
Theorem prompt_string_no_retry (msg : str) (default : option str)
    (match_ : pattern) (required confirm : bool) (l m : str)
    (rest : list str) (w : console) :
  stdin w = l :: rest ->
  check_value (or_default (strip l) default) match_ required = Some m ->
  prompt_string msg default match_ required false confirm w
  = (mkConsole rest (stdout w ++ [prompt_text msg default required]) (stderr w),
     Throw (InputError m)).
Proof.
  intros E H. unfold prompt_string.
  exact (prompt_string_with_no_retry msg default match_ required _ l m rest w E H).
Qed.

Lemma prompt_string_no_retry_witness :
  prompt_string (lit "Name") None no_pattern true false false
    (mkConsole [lit "  "; lit "bob"] [] [])
  = (mkConsole [lit "bob"] [lit "Name: "] [],
     Throw (InputError (lit "Required value can't be empty."))).
Proof.
  apply (prompt_string_no_retry (lit "Name") None no_pattern true false
           (lit "  ") (lit "Required value can't be empty.") [lit "bob"]
           (mkConsole [lit "  "; lit "bob"] [] [])); reflexivity.
Defined.

Lemma or_default_none (s : str) : or_default s None = s.
Proof. now destruct s. Qed.

Lemma no_pad_not_newline (u : str) : no_pad (u ++ [LF]) = false.
Proof. apply (padded_end u [LF]); [reflexivity | discriminate]. Qed.

(** What the pattern of a yes/no answer accepts, among stripped strings. *)
Lemma yes_no_stripped (s : str) :
  no_pad s = true ->
  matches false (compiled yes_no) s
  = match s with
    | [] => true
    | [c] => is_yn c
    | _ :: _ :: _ => false
    end.
Proof.
  intros Hs. destruct s as [|c [|d s']]; [reflexivity| |].
  - unfold matches, re_match, yes_no, compiled, cat, fold_right.
    cbn [rmatch length Nat.eqb]. unfold test, fold_case.
    destruct (is_yn c); [reflexivity|].
    destruct (ascii_dec c LF) as [->|]; [discriminate Hs | reflexivity].
  - unfold matches, re_match, yes_no, compiled, cat, fold_right.
    cbn [rmatch length Nat.eqb]. unfold test, fold_case.
    rewrite Nat.eqb_refl.
    destruct (is_yn c); [|reflexivity].
    destruct s' as [|x s'']; [|reflexivity].
    destruct (ascii_dec d LF) as [->|]; [|reflexivity].
    pose proof (no_pad_not_newline [c]) as Hn. cbn [app] in Hn. congruence.
Qed.

Lemma accepted_answer (default : option bool) (l : str) :
  accepted None yes_no (no_default default) l
  = match answer default l with Some _ => true | None => false end.
Proof.
  unfold accepted, answer, check_value. rewrite or_default_none.
  rewrite (yes_no_stripped (strip l) (strip_no_pad l)).
  destruct (strip l) as [|c [|d s']].
  - now destruct default.
  - rewrite andb_false_r. cbn [source yes_no truthy lit andb].
    now destruct (is_yn c).
  - rewrite andb_false_r. reflexivity.
Qed.

Lemma warning_answer (default : option bool) (l : str) :
  answer default l = None ->
  warning_of None yes_no (no_default default) l = yes_no_warning l.
Proof.
  unfold warning_of, answer, check_value, yes_no_warning.
  rewrite or_default_none.
  rewrite (yes_no_stripped (strip l) (strip_no_pad l)).
  destruct (strip l) as [|c [|d s']].
  - intros ->. reflexivity.
  - rewrite andb_false_r. cbn [source yes_no truthy lit andb].
    destruct (is_yn c); [discriminate | reflexivity].
  - rewrite andb_false_r. reflexivity.
Qed.

Lemma yes_no_prompt_text (msg : str) (default : option bool) :
  prompt_text
    (msg ++ lit " "
     ++ match default with
        | Some true => lit "[Y/n]"
        | Some false => lit "[y/N]"
        | None => lit "[y/n]"
        end)
    None (no_default default)
  = yes_no_prompt msg default.
Proof. unfold prompt_text, yes_no_prompt. now rewrite <- !app_assoc. Qed.

Lemma prompt_boolean_eq (msg : str) (default : option bool) (retry : bool)
    (w : console) :
  prompt_boolean msg default retry w
  = match prompt_string_with None
            (msg ++ lit " "
             ++ match default with
                | Some true => lit "[Y/n]"
                | Some false => lit "[y/N]"
                | None => lit "[y/n]"
                end)
            None yes_no (no_default default) retry w with
    | (w, Throw e) => (w, Throw e)
    | (w, Return value) => decide_answer default value w
    end.
Proof. reflexivity. Qed.

Lemma decide_answer_ok (default : option bool) (l : str) (b : bool)
    (w : console) :
  answer default l = Some b ->
  decide_answer default (strip l) w = (w, Return b).
Proof.
  unfold answer, decide_answer. destruct (strip l) as [|c [|d s']].
  - intros ->. reflexivity.
  - destruct (is_yn c) eqn:Hc; [|discriminate]. intros [= <-].
    unfold is_yn, ascii_eqb in Hc.
    destruct (ascii_dec c "y") as [->|]; [reflexivity|].
    destruct (ascii_dec c "Y") as [->|]; [reflexivity|].
    destruct (ascii_dec c "n") as [->|]; [reflexivity|].
    destruct (ascii_dec c "N") as [->|]; [reflexivity|discriminate].
  - discriminate.
Qed.

Lemma prompt_boolean_reads (msg : str) (default : option bool)
    (bad : list str) (good : str) (b : bool) (rest : list str) (w : console) :
  stdin w = bad ++ good :: rest ->
  Forall (fun l => answer default l = None) bad ->
  answer default good = Some b ->
  prompt_boolean msg default true w
  = (mkConsole rest
       (stdout w ++ repeat (yes_no_prompt msg default) (S (length bad)))
       (stderr w ++ map yes_no_warning bad),
     Return b).
Proof.
  intros E Hbad Hgood. rewrite prompt_boolean_eq.
  rewrite (prompt_string_with_first_valid _ None yes_no (no_default default)
             bad good rest w E).
  - rewrite or_default_none, (decide_answer_ok default good b _ Hgood).
    rewrite yes_no_prompt_text. do 2 f_equal. f_equal.
    apply map_ext_in. intros l Hl. apply warning_answer.
    rewrite Forall_forall in Hbad. now apply Hbad.
  - eapply Forall_impl; [|exact Hbad]. intros l Hl.
    now rewrite accepted_answer, Hl.
  - now rewrite accepted_answer, Hgood.
Qed.

(** With [retry], [prompt_boolean] returns the answer of the first line that
    is one: "y" or "n" in either case, or an empty line when there is a
    default.  It has warned once about every line before it, and leaves the
    lines after it unread. *)
Theorem prompt_boolean_first_answer (msg : str) (default : option bool)
    (bad : list str) (good : str) (b : bool) (rest : list str) (w : console) :
  stdin w = bad ++ good :: rest ->
  Forall (fun l => answer default l = None) bad ->
  answer default good = Some b ->
  prompt_boolean msg default true w
  = (mkConsole rest
       (stdout w ++ repeat (yes_no_prompt msg default) (S (length bad)))
       (stderr w ++ map yes_no_warning bad),
     Return b).
Proof. apply prompt_boolean_reads. Qed.

Lemma prompt_boolean_first_answer_witness :
  prompt_boolean (lit "Re-edit changelog") (Some true) true
    (mkConsole [lit "maybe"; lit " N "; lit "y"] [] [])
  = (mkConsole [lit "y"]
       [lit "Re-edit changelog [Y/n]: "; lit "Re-edit changelog [Y/n]: "]
       [lit "WARNING: Input value must match '^[yYnN]?$'."],
     Return false).
Proof.
  apply (prompt_boolean_first_answer (lit "Re-edit changelog") (Some true)
           [lit "maybe"] (lit " N ") false [lit "y"]
           (mkConsole [lit "maybe"; lit " N "; lit "y"] [] []));
    [reflexivity | repeat constructor | reflexivity].
Defined.

(** How [prompt_string] ends when it asks for no confirmation: with the
    value of a line of the input that it accepts, at the end of the input,
    or, without [retry], on a line that it does not accept. *)
Lemma prompt_loop_outcome (prompt : str) (default : option str)
    (match_ : pattern) (required retry : bool) (fuel : nat) (w : console) :
  match snd (prompt_loop fuel prompt default match_ required retry None w) with
  | Return v =>
      exists l, In l (stdin w) /\ v = or_default (strip l) default
                /\ accepted default match_ required l = true
  | Throw EOFError => True
  | Throw (InputError _) => retry = false
  | Throw _ => False
  end.
Proof.
  revert w. induction fuel as [|fuel IH]; intros w; [exact I|].
  cbn [prompt_loop]. rewrite raw_input_eq.
  destruct (stdin w) as [|l rest] eqn:E; [exact I|].
  destruct (check_value (or_default (strip l) default) match_ required)
    as [msg|] eqn:Ec.
  - destruct retry; [|reflexivity].
    specialize (IH (print_stderr (lit "WARNING: " ++ msg)
                      (mkConsole rest (stdout w ++ [prompt]) (stderr w)))).
    destruct (snd (prompt_loop fuel _ _ _ _ _ _ _)) as [v|[]]; auto.
    destruct IH as (l' & Hin & Hv & Ha). exists l'. split; [now right|auto].
  - cbn [snd]. exists l. split; [now left|]. split; [reflexivity|].
    unfold accepted. now rewrite Ec.
Qed.

Lemma decide_answer_console (default : option bool) (v : str) (w : console) :
  fst (decide_answer default v w) = w.
Proof.
  unfold decide_answer.
  destruct (str_eqb _ _); [reflexivity|]. destruct (str_eqb _ _); [reflexivity|].
  destruct (truthy _); [reflexivity|]. now destruct default.
Qed.

Lemma prompt_boolean_reads_only (msg : str -> str) (default : option bool)
    (retry : bool) :
  reads_only (fun value => prompt_boolean (msg value) default retry).
Proof.
  intros v w. rewrite prompt_boolean_eq. unfold prompt_string_with.
  pose proof (prompt_loop_shrinks
                (prompt_text
                   (msg v ++ lit " "
                    ++ match default with
                       | Some true => lit "[Y/n]"
                       | Some false => lit "[y/N]"
                       | None => lit "[y/n]"
                       end) None (no_default default))
                None yes_no (no_default default) retry None
                (S (length (stdin w))) w I) as H.
  destruct (prompt_loop _ _ _ _ _ _ _ _) as [w' [value|e]]; cbn [fst] in *.
  - now rewrite decide_answer_console.
  - exact H.
Qed.

(** [prompt_boolean] never fails on one of its assertions: it returns the
    answer that a line of the input gives, or ends with [EOFError] at the end
    of the input, or, without [retry], with [InputError]. *)
Theorem prompt_boolean_outcome (msg : str) (default : option bool)
    (retry : bool) (w : console) :
  match snd (prompt_boolean msg default retry w) with
  | Return b => exists l, In l (stdin w) /\ answer default l = Some b
  | Throw e => e = EOFError \/ (retry = false /\ exists m, e = InputError m)
  end.
Proof.
  rewrite prompt_boolean_eq. unfold prompt_string_with.
  pose proof (prompt_loop_outcome
                (prompt_text
                   (msg ++ lit " "
                    ++ match default with
                       | Some true => lit "[Y/n]"
                       | Some false => lit "[y/N]"
                       | None => lit "[y/n]"
                       end) None (no_default default))
                None yes_no (no_default default) retry
                (S (length (stdin w))) w) as H.
  destruct (prompt_loop _ _ _ _ _ _ _ _) as [w' [value|e]]; cbn [snd] in *.
  - destruct H as (l & Hin & -> & Ha). rewrite or_default_none.
    rewrite accepted_answer in Ha.
    destruct (answer default l) as [b|] eqn:Eb; [|discriminate].
    rewrite (decide_answer_ok default l b w' Eb). cbn [snd]. eauto.
  - destruct e; try contradiction; [right|left]; eauto.
Qed.

(** When [prompt_string] asks for a confirmation, the line after an accepted
    value answers it: on "yes", which is the default, the value is
    returned; on "no" it is dropped and the prompt starts again with the
    lines that follow. *)
Theorem prompt_string_confirmation (msg : str) (default : option str)
    (match_ : pattern) (required retry : bool) (good ans : str) (b : bool)
    (rest : list str) (w : console) :
  stdin w = good :: ans :: rest ->
  accepted default match_ required good = true ->
  answer (Some true) ans = Some b ->
  prompt_string msg default match_ required retry true w
  = let value := or_default (strip good) default in
    let w' :=
      mkConsole rest
        (stdout w
         ++ [prompt_text msg default required;
             yes_no_prompt
               (lit "Input value is '" ++ value ++ lit "'. Please confirm.")
               (Some true)])
        (stderr w) in
    if b then (w', Return value)
    else prompt_string msg default match_ required retry true w'.
Proof.
  intros E Hgood Hans.
  match goal with |- _ = ?R => set (r := R) end.
  unfold prompt_string, prompt_string_with.
  rewrite E. cbn [length]. remember (S (S (length rest))) as f eqn:Ef.
  cbn [prompt_loop]. rewrite raw_input_eq, E.
  unfold accepted in Hgood.
  destruct (check_value (or_default (strip good) default) match_ required);
    [discriminate|].
  rewrite (prompt_boolean_reads _ (Some true) [] ans b rest
             (mkConsole (ans :: rest)
                (stdout w ++ [prompt_text msg default required]) (stderr w))
             eq_refl (Forall_nil _) Hans).
  cbn [stdout stderr length repeat map]. rewrite app_nil_r, <- app_assoc.
  cbn [app stdin]. subst r. cbv zeta. destruct b; [reflexivity|].
  unfold prompt_string, prompt_string_with.
  apply prompt_loop_fuel; cbn [stdin]; try (subst f; lia).
  exact (prompt_boolean_reads_only
           (fun value => lit "Input value is '" ++ value ++ lit "'. Please confirm.")
           (Some true) true).
Qed.

Lemma prompt_string_confirmation_witness :
  prompt_string (lit "Name") None no_pattern true true true
    (mkConsole [lit "bob"; lit "n"; lit "alice"; []] [] [])
  = prompt_string (lit "Name") None no_pattern true true true
      (mkConsole [lit "alice"; []]
         [lit "Name: "; lit "Input value is 'bob'. Please confirm. [Y/n]: "] []).
Proof.
  apply (prompt_string_confirmation (lit "Name") None no_pattern true true
           (lit "bob") (lit "n") false [lit "alice"; []]
           (mkConsole [lit "bob"; lit "n"; lit "alice"; []] [] []));
    reflexivity.
Defined.

(** ** Merge requests whose merge commit is older than [since] *)

Section DropOld.

Variables (g : gitlab) (since : Z).

Local Notation "'old'" := (old_commit g since).
Local Notation "'drop'" := (drop_old_commits g since).

Lemma drop_step (mr : merge_request) (copy : list merge_request) i mrs :
  has_commit g mr ->
  drop (mr :: copy) i mrs
  = if old mr then
      match pop i mrs with
      | Throw e => Throw e
      | Return mrs' => drop copy (S i) mrs'
      end
    else drop copy (S i) mrs.
Proof.
  intros (Hs & t & Ht). cbn [drop_old_commits]. unfold old_commit.
  now rewrite Hs, Ht.
Qed.

Lemma pop_at {A} (pre : list A) (x : A) (post : list A) :
  pop (length pre) (pre ++ x :: post) = Return (pre ++ post).
Proof.
  unfold pop. rewrite length_app. cbn [length].
  replace (length pre <? length pre + S (length post))%nat with true
    by (symmetry; apply Nat.ltb_lt; lia).
  rewrite firstn_app, firstn_all, Nat.sub_diag. cbn [firstn].
  rewrite app_nil_r.
  replace (S (length pre)) with (length (pre ++ [x]))
    by (rewrite length_app; simpl; lia).
  replace (pre ++ x :: post) with ((pre ++ [x]) ++ post)
    by (now rewrite <- app_assoc).
  now rewrite skipn_app, skipn_all, Nat.sub_diag.
Qed.

Lemma pop_keeps {A} (i j : nat) (l r : list A) :
  (j < i)%nat -> pop i l = Return r -> nth_error r j = nth_error l j.
Proof.
  unfold pop. intros Hj. destruct (i <? length l)%nat eqn:Hi; [|discriminate].
  apply Nat.ltb_lt in Hi. intros [= <-].
  rewrite nth_error_app1 by (rewrite length_firstn; lia).
  rewrite nth_error_firstn. apply Nat.ltb_lt in Hj. now rewrite Hj.
Qed.

(** Once the loop index is past a position of the list, what is there
    stays there. *)
Lemma drop_keeps (copy : list merge_request) (i j : nat)
    (cur : list merge_request) (x : merge_request) :
  Forall (has_commit g) copy ->
  (j < i)%nat -> nth_error cur j = Some x ->
  drop copy i cur = Throw (Py IndexError)
  \/ exists r, drop copy i cur = Return r /\ nth_error r j = Some x.
Proof.
  intros H. revert i cur.
  induction H as [|mr copy Hmr _ IH]; intros i cur Hj Hx.
  - right. exists cur. now split.
  - rewrite (drop_step mr copy i cur Hmr). destruct (old mr).
    + destruct (pop i cur) as [cur'|e] eqn:Ep.
      * apply IH; [lia|]. now rewrite (pop_keeps i j cur cur' Hj Ep).
      * left. unfold pop in Ep. destruct (i <? length cur)%nat; congruence.
    + apply IH; [lia | assumption].
Qed.

(** After one pop, the list is one position behind its copy. *)
Lemma drop_second (copy pre : list merge_request) (i : nat) :
  Forall (has_commit g) copy ->
  S (length pre) = i ->
  existsb old copy = true ->
  drop copy i (pre ++ copy) = Throw (Py IndexError)
  \/ exists r, drop copy i (pre ++ copy) = Return r
               /\ exists m, In m r /\ old m = true.
Proof.
  intros H. revert pre i.
  induction H as [|mr copy Hmr Hcopy IH]; intros pre i Hi Hex; [discriminate|].
  rewrite (drop_step mr copy i _ Hmr). cbn [existsb] in Hex.
  destruct (old mr) eqn:Hold.
  - destruct (pop i (pre ++ mr :: copy)) as [cur'|e] eqn:Ep.
    + assert (Hx : nth_error cur' (length pre) = Some mr).
      { rewrite (pop_keeps i (length pre) _ cur' ltac:(lia) Ep).
        now rewrite nth_error_app2, Nat.sub_diag by lia. }
      destruct (drop_keeps copy (S i) (length pre) cur' mr Hcopy ltac:(lia) Hx)
        as [Hf|(r & Hr & Hn)]; [now left|].
      right. exists r. split; [exact Hr|]. exists mr.
      split; [now apply nth_error_In in Hn | exact Hold].
    + left. unfold pop in Ep. destruct (i <? _)%nat; congruence.
  - replace (pre ++ mr :: copy) with ((pre ++ [mr]) ++ copy)
      by (now rewrite <- app_assoc).
    apply IH; [rewrite length_app; simpl; lia | exact Hex].
Qed.

Lemma drop_first (copy pre : list merge_request) :
  Forall (has_commit g) copy ->
  (2 <= length (filter old copy))%nat ->
  drop copy (length pre) (pre ++ copy) = Throw (Py IndexError)
  \/ exists r, drop copy (length pre) (pre ++ copy) = Return r
               /\ exists m, In m r /\ old m = true.
Proof.
  intros H. revert pre.
  induction H as [|mr copy Hmr Hcopy IH]; intros pre Hn; [simpl in Hn; lia|].
  rewrite (drop_step mr copy _ _ Hmr). cbn [filter] in Hn.
  destruct (old mr) eqn:Hold.
  - rewrite pop_at. apply drop_second; [assumption | reflexivity|].
    cbn [length] in Hn. destruct (filter old copy) as [|m ms] eqn:Ef;
      [simpl in Hn; lia|].
    apply existsb_exists. exists m.
    assert (Hin : In m (filter old copy)) by (rewrite Ef; now left).
    apply filter_In in Hin. tauto.
  - replace (pre ++ mr :: copy) with ((pre ++ [mr]) ++ copy)
      by (now rewrite <- app_assoc).
    replace (S (length pre)) with (length (pre ++ [mr]))
      by (rewrite length_app; simpl; lia).
    now apply IH.
Qed.

Lemma drop_none (copy : list merge_request) (i : nat) (cur : list merge_request) :
  Forall (has_commit g) copy -> filter old copy = [] ->
  drop copy i cur = Return cur.
Proof.
  intros H. revert i.
  induction H as [|mr copy Hmr _ IH]; intros i Hf; [reflexivity|].
  rewrite (drop_step mr copy i cur Hmr). cbn [filter] in Hf.
  destruct (old mr); [discriminate|]. now apply IH.
Qed.

Lemma filter_new_all (l : list merge_request) :
  filter old l = [] -> filter (new_commit g since) l = l.
Proof.
  induction l as [|x l IH]; [reflexivity|]. cbn [filter].
  assert (Hnew : new_commit g since x = negb (old x)) by reflexivity.
  rewrite Hnew. destruct (old x); [discriminate|]. intros H. cbn [negb].
  now rewrite IH.
Qed.

Lemma drop_one (copy pre : list merge_request) :
  Forall (has_commit g) copy ->
  (length (filter old copy) <= 1)%nat ->
  drop copy (length pre) (pre ++ copy)
  = Return (pre ++ filter (new_commit g since) copy).
Proof.
  intros H. revert pre.
  induction H as [|mr copy Hmr Hcopy IH]; intros pre Hn; [reflexivity|].
  rewrite (drop_step mr copy _ _ Hmr). cbn [filter] in *.
  assert (Hnew : new_commit g since mr = negb (old mr)) by reflexivity.
  rewrite Hnew. clear Hnew. destruct (old mr) eqn:Hold; cbn [negb].
  - rewrite pop_at. cbn [length] in Hn.
    assert (Hf : filter old copy = [])
      by (destruct (filter old copy); [reflexivity | simpl in Hn; lia]).
    rewrite (drop_none copy _ _ Hcopy Hf). now rewrite filter_new_all.
  - replace (pre ++ mr :: copy) with ((pre ++ [mr]) ++ copy)
      by (now rewrite <- app_assoc).
    replace (S (length pre)) with (length (pre ++ [mr]))
      by (rewrite length_app; simpl; lia).
    rewrite IH by assumption. now rewrite <- app_assoc.
Qed.

End DropOld.

(** ** The pages of merge requests *)

Lemma scan_batch_spec (branches : list str) (since : option Z)
    (batch mrs : list merge_request) :
  scan_batch branches since batch mrs
  = (mrs ++ filter (on_branch branches) (takewhile (recent since) batch),
     negb (forallb (recent since) batch)).
Proof.
  revert mrs. induction batch as [|mr batch IH]; intros mrs.
  - simpl. now rewrite app_nil_r.
  - cbn [scan_batch takewhile forallb].
    assert (Hr : recent since mr = negb (older since (updated_at mr)))
      by reflexivity.
    assert (Hb : on_branch branches mr = negb (other_branch branches mr))
      by reflexivity.
    rewrite Hr. destruct (older since (updated_at mr)); cbn [negb andb].
    + cbn [filter]. now rewrite app_nil_r.
    + cbn [filter]. rewrite Hb.
      destruct (other_branch branches mr); cbn [negb]; rewrite IH;
        [reflexivity|]. now rewrite <- app_assoc.
Qed.

Lemma takewhile_all {A} (f : A -> bool) (l : list A) :
  forallb f l = true -> takewhile f l = l.
Proof.
  induction l as [|x l IH]; [reflexivity|]. simpl.
  destruct (f x); [|discriminate]. intros H. now rewrite IH.
Qed.

Lemma takewhile_app_all {A} (f : A -> bool) (a b : list A) :
  forallb f a = true -> takewhile f (a ++ b) = a ++ takewhile f b.
Proof.
  induction a as [|x a IH]; [reflexivity|]. simpl.
  destruct (f x); [|discriminate]. intros H. now rewrite IH.
Qed.

Lemma takewhile_app_stop {A} (f : A -> bool) (a b : list A) :
  forallb f a = false -> takewhile f (a ++ b) = takewhile f a.
Proof.
  induction a as [|x a IH]; [discriminate|]. simpl.
  destruct (f x); [|reflexivity]. intros H. now rewrite IH.
Qed.

Lemma fetch_pages_spec (g : gitlab) (all : list merge_request)
    (branches : list str) (since : option Z) (fuel p : nat)
    (mrs : list merge_request) :
  serves g all ->
  (length (skipn (p * per_page) all) < fuel)%nat ->
  fetch_pages fuel g branches since (S p) mrs
  = Some (Return (mrs ++ fetched branches since (skipn (p * per_page) all))).
Proof.
  intros Hg. assert (Hpp : (0 < per_page)%nat) by (unfold per_page; lia).
  revert p mrs. induction fuel as [|fuel IH]; intros p mrs Hf; [lia|].
  cbn [fetch_pages]. rewrite Hg, scan_batch_spec.
  set (rem := skipn (p * per_page) all) in *.
  assert (Hrem : rem = firstn per_page rem ++ skipn per_page rem)
    by (now rewrite firstn_skipn).
  destruct (forallb (recent since) (firstn per_page rem)) eqn:Hall; cbn [negb].
  - destruct (length (firstn per_page rem) <? per_page)%nat eqn:Hlen.
    + apply Nat.ltb_lt in Hlen. rewrite length_firstn in Hlen.
      assert (Hshort : (length rem <= per_page)%nat) by lia.
      rewrite (firstn_all2 _ Hshort). reflexivity.
    + apply Nat.ltb_ge in Hlen. rewrite length_firstn in Hlen.
      rewrite IH.
      * do 2 f_equal. unfold fetched.
        replace (skipn (S p * per_page) all) with (skipn per_page rem)
          by (unfold rem; rewrite skipn_skipn; f_equal; lia).
        rewrite Hrem at 3. rewrite takewhile_app_all by assumption.
        rewrite filter_app, (takewhile_all _ _ Hall). now rewrite app_assoc.
      * replace (skipn (S p * per_page) all) with (skipn per_page rem)
          by (unfold rem; rewrite skipn_skipn; f_equal; lia).
        rewrite length_skipn. lia.
  - do 2 f_equal. unfold fetched. f_equal.
    rewrite Hrem at 2. now rewrite takewhile_app_stop.
Qed.

Lemma get_mrs_spec (g : gitlab) (all : list merge_request)
    (branches : list str) (since : option Z) (fuel : nat) :
  serves g all -> (length all < fuel)%nat ->
  get_mrs fuel g branches since
  = Some match since with
         | Some s =>
             drop_old_commits g s (fetched branches since all) 0
               (fetched branches since all)
         | None => Return (fetched branches since all)
         end.
Proof.
  intros Hg Hf. unfold get_mrs.
  rewrite (fetch_pages_spec g all branches since fuel 0 [] Hg Hf).
  cbn [Nat.mul skipn app]. now destruct since.
Qed.

Lemma serving_serves (all : list merge_request) (created : str -> Z) :
  serves (serving all created) all.
Proof. intros p. reflexivity. Qed.

Lemma takewhile_recent_none (all : list merge_request) :
  takewhile (recent None) all = all.
Proof. apply takewhile_all. now induction all. Qed.

(** With no [since], [get_mrs] goes through all the pages and returns, in
    the order of Gitlab, the merge requests that were merged into one of the
    branches; a bound on the pages above the number of merge requests is
    enough. *)
Theorem get_mrs_all_pages (g : gitlab) (all : list merge_request)
    (branches : list str) (fuel : nat) :
  serves g all -> (length all < fuel)%nat ->
  get_mrs fuel g branches None
  = Some (Return (filter (on_branch branches) all)).
Proof.
  intros Hg Hf. rewrite (get_mrs_spec g all branches None fuel Hg Hf).
  unfold fetched. now rewrite takewhile_recent_none.
Qed.

Lemma get_mrs_all_pages_witness :
  get_mrs 5 (serving example_mrs one_old) example_branches None
  = Some (Return [mkMR 1 (lit "one") 100 (lit "master") (lit "a1");
                  mkMR 2 (lit "two") 90 (lit "staging") (lit "b2");
                  mkMR 4 (lit "four") 10 (lit "master") (lit "d4")]).
Proof.
  apply (get_mrs_all_pages (serving example_mrs one_old) example_mrs
           example_branches 5).
  - apply serving_serves.
  - simpl. lia.
Defined.

(** With a [since], [get_mrs] keeps the merge requests that come before the
    first one updated before [since] and were merged into one of the
    branches; when at most one of them has a merge commit older than
    [since], it returns the others. *)
Theorem get_mrs_since (g : gitlab) (all : list merge_request)
    (branches : list str) (since : Z) (fuel : nat) :
  serves g all -> (length all < fuel)%nat ->
  Forall (has_commit g) (fetched branches (Some since) all) ->
  (length (filter (old_commit g since) (fetched branches (Some since) all)) <= 1)%nat ->
  get_mrs fuel g branches (Some since)
  = Some (Return (filter (new_commit g since)
                    (fetched branches (Some since) all))).
Proof.
  intros Hg Hf Hc Hn.
  rewrite (get_mrs_spec g all branches (Some since) fuel Hg Hf). f_equal.
  exact (drop_one g since _ [] Hc Hn).
Qed.

Lemma get_mrs_since_witness :
  get_mrs 5 (serving example_mrs one_old) example_branches (Some 50%Z)
  = Some (Return [mkMR 2 (lit "two") 90 (lit "staging") (lit "b2")]).
Proof.
  apply (get_mrs_since (serving example_mrs one_old) example_mrs
           example_branches 50 5).
  - apply serving_serves.
  - simpl. lia.
  - repeat constructor; eexists; reflexivity.
  - simpl. lia.
Defined.

(** When two or more of the merge requests kept have a merge commit older
    than [since], [get_mrs] does not remove them all: after the first pop the
    list is one position behind the copy that the loop goes through, so the
    call ends with [IndexError], or returns a list that still holds a merge
    request with an old merge commit. *)
Theorem get_mrs_since_two_old (g : gitlab) (all : list merge_request)
    (branches : list str) (since : Z) (fuel : nat) :
  serves g all -> (length all < fuel)%nat ->
  Forall (has_commit g) (fetched branches (Some since) all) ->
  (2 <= length (filter (old_commit g since) (fetched branches (Some since) all)))%nat ->
  get_mrs fuel g branches (Some since) = Some (Throw (Py IndexError))
  \/ exists r,
       get_mrs fuel g branches (Some since) = Some (Return r)
       /\ exists m, In m r /\ old_commit g since m = true.
Proof.
  intros Hg Hf Hc Hn.
  rewrite (get_mrs_spec g all branches (Some since) fuel Hg Hf).
  destruct (drop_first g since _ [] Hc Hn) as [H|(r & H & Hm)];
    cbn [length app] in H; rewrite H; [now left|].
  right. exists r. now split.
Qed.

Lemma get_mrs_since_two_old_witness :
  get_mrs 5 (serving example_mrs two_old) example_branches (Some 50%Z)
  = Some (Throw (Py IndexError))
  \/ exists r,
       get_mrs 5 (serving example_mrs two_old) example_branches (Some 50%Z)
       = Some (Return r)
       /\ exists m, In m r /\ old_commit (serving example_mrs two_old) 50 m = true.
Proof.
  apply (get_mrs_since_two_old (serving example_mrs two_old) example_mrs
           example_branches 50 5).
  - apply serving_serves.
  - simpl. lia.
  - repeat constructor; eexists; reflexivity.
  - simpl. lia.
Defined.

(** ** The dictionaries *)

Lemma map_inj {A B} (f : A -> B) (l l' : list A) :
  (forall a b, f a = f b -> a = b) -> map f l = map f l' -> l = l'.
Proof.
  intros Hf. revert l'. induction l as [|x l IH]; intros [|y l']; simpl;
    try discriminate; [reflexivity|].
  intros [= Hx Hl]. f_equal; auto.
Qed.

Lemma Change_to_dict_inj (a b : Change) :
  Change_to_dict a = Change_to_dict b -> a = b.
Proof.
  destruct a as [t k m], b as [t' k' m']. unfold Change_to_dict.
  cbn [title kind mr]. intros [= -> -> H]. f_equal.
  destruct (m =? 0)%Z eqn:E, (m' =? 0)%Z eqn:E'; try discriminate.
  - apply Z.eqb_eq in E, E'. congruence.
  - now injection H.
Qed.

Lemma Version_to_dict_inj (a b : Version) :
  Version_to_dict a = Version_to_dict b -> a = b.
Proof.
  destruct a as [n p d m y ns cs], b as [n' p' d' m' y' ns' cs'].
  unfold Version_to_dict. cbn [name prerelease day month year notes changes].
  intros [= -> -> -> -> -> -> H]. f_equal.
  exact (map_inj _ _ _ Change_to_dict_inj H).
Qed.

(** The dictionary of a changelog tells the changelog: two changelogs with
    the same dictionary are equal, even though a merge request number 0 is
    written as [None]. *)
Theorem to_dict_injective (a b : Changelog) :
  Changelog_to_dict a = Changelog_to_dict b -> a = b.
Proof.
  destruct a as [vs], b as [vs']. unfold Changelog_to_dict. cbn [versions].
  intros [= H]. f_equal. exact (map_inj _ _ _ Version_to_dict_inj H).
Qed.

Lemma to_dict_injective_witness :
  mkChangelog [example_version] = mkChangelog [example_version].
Proof.
  apply (to_dict_injective (mkChangelog [example_version])
           (mkChangelog [example_version])).
  reflexivity.
Defined.

(** ** What a match tells: the longest and the shortest repetition *)

Lemma star_greedy_none_inv {A} q s (k : str -> option A) pre rest :
  star_greedy q s k = None -> s = pre ++ rest -> forallb q pre = true ->
  k rest = None.
Proof.
  intros Hn -> Hq. destruct (k rest) eqn:E; [|reflexivity].
  exfalso. apply (star_greedy_complete q pre rest k Hq); [|exact Hn].
  now rewrite E.
Qed.

(** A greedy repetition that succeeds has taken the longest prefix that
    lets what follows succeed. *)
Lemma star_greedy_inv {A} q s (k : str -> option A) a :
  star_greedy q s k = Some a ->
  exists pre rest,
    s = pre ++ rest /\ forallb q pre = true /\ k rest = Some a
    /\ (forall mid rest', rest = mid ++ rest' -> mid <> [] ->
                          forallb q mid = true -> k rest' = None).
Proof.
  revert a. induction s as [|c s IH]; intros a; cbn [star_greedy].
  - intros H. exists [], []. repeat split; auto.
    intros mid rest' E Hne. destruct mid; [congruence | discriminate].
  - destruct (q c) eqn:Hc.
    + destruct (star_greedy q s k) as [a'|] eqn:Hs.
      * intros [= <-]. destruct (IH a' eq_refl) as (pre & rest & -> & Hq & Hk & Hmax).
        exists (c :: pre), rest. repeat split; auto. simpl. now rewrite Hc.
      * intros H. exists [], (c :: s). repeat split; auto.
        intros mid rest' E Hne Hq. destruct mid as [|x mid]; [congruence|].
        injection E as <- ->. simpl in Hq. apply andb_prop in Hq as [_ Hq].
        exact (star_greedy_none_inv q _ k mid rest' Hs eq_refl Hq).
    + intros H. exists [], (c :: s). repeat split; auto.
      intros mid rest' E Hne Hq. destruct mid as [|x mid]; [congruence|].
      injection E as <- ->. simpl in Hq. rewrite Hc in Hq. discriminate.
Qed.

(** A lazy repetition that succeeds has taken the shortest prefix that lets
    what follows succeed. *)
Lemma star_lazy_inv {A} q s (k : str -> option A) a :
  star_lazy q s k = Some a ->
  exists pre rest,
    s = pre ++ rest /\ forallb q pre = true /\ k rest = Some a
    /\ (forall p1 p2, pre = p1 ++ p2 -> p2 <> [] -> k (p2 ++ rest) = None).
Proof.
  revert a. induction s as [|c s IH]; intros a.
  - cbn [star_lazy]. destruct (k []) as [a'|] eqn:Hk; [|discriminate].
    intros [= <-]. exists [], []. repeat split; auto.
    intros p1 p2 E Hne. destruct p1, p2; try discriminate. congruence.
  - cbn [star_lazy]. destruct (k (c :: s)) as [a'|] eqn:Hk.
    + intros [= <-]. exists [], (c :: s). repeat split; auto.
      intros p1 p2 E Hne. destruct p1, p2; try discriminate. congruence.
    + destruct (q c) eqn:Hc; [|discriminate]. intros H.
      destruct (IH a H) as (pre & rest & -> & Hq & Hr & Hmin).
      exists (c :: pre), rest. repeat split; auto.
      * simpl. now rewrite Hc.
      * intros p1 p2 E Hne. destruct p1 as [|x p1].
        -- simpl in E. subst p2. exact Hk.
        -- injection E as <- E. exact (Hmin p1 p2 E Hne).
Qed.

(** Whether a pattern matches does not depend on the groups captured
    before it. *)
Lemma den_groups ic whole r :
  forall s g s' g' g0,
    den ic whole r s g s' g' -> exists g0', den ic whole r s g0 s' g0'.
Proof.
  induction r; intros s g s' g' g0; cbn [den].
  - intros [-> _]. eauto.
  - intros [].
  - intros (-> & _ & H). eauto.
  - intros (-> & _ & H). eauto.
  - intros (x & -> & H & _). exists g0, x. auto.
  - intros (x & -> & H & _). exists g0, x. auto.
  - intros (s1 & g1 & H1 & H2).
    destruct (IHr1 _ _ _ _ g0 H1) as (g1' & H1').
    destruct (IHr2 _ _ _ _ g1' H2) as (g2' & H2'). eauto.
  - intros [H|H].
    + destruct (IHr1 _ _ _ _ g0 H) as (g1' & H'). eauto.
    + destruct (IHr2 _ _ _ _ g0 H) as (g1' & H'). eauto.
  - intros (pre & -> & H & _). exists g0, pre. auto.
  - intros (x & pre & -> & H1 & H2 & _). exists g0, x, pre. auto.
  - intros (pre & -> & H & _). exists g0, pre. auto.
  - intros [H|[-> _]].
    + destruct (IHr _ _ _ _ g0 H) as (g1' & H'). eauto.
    + eauto.
  - intros (g1 & H & _). destruct (IHr _ _ _ _ g0 H) as (g1' & H'). eauto.
Qed.

Lemma rmatch_groups ic whole r s g g0 m :
  rmatch ic whole r s g (fun _ g => Some g) = Some m ->
  rmatch ic whole r s g0 (fun _ g => Some g) <> None.
Proof.
  intros H. apply rmatch_sound in H as (s' & g' & Hd & _).
  destruct (den_groups ic whole r _ _ _ _ g0 Hd) as (g0' & Hd').
  eapply rmatch_complete; [exact Hd' | discriminate].
Qed.

(** ** The title that [Change.from_string] reads *)

Lemma rmatch_seq ic whole {A} r1 r2 s g (k : str -> groups -> option A) :
  rmatch ic whole (Seq r1 r2) s g k
  = rmatch ic whole r1 s g (fun s' g' => rmatch ic whole r2 s' g' k).
Proof. reflexivity. Qed.

Lemma rmatch_star ic whole {A} p s g (k : str -> groups -> option A) :
  rmatch ic whole (Star p) s g k
  = star_greedy (test ic p) s (fun s' => k s' g).
Proof. reflexivity. Qed.

Lemma rmatch_grp_lazy ic whole {A} n p s g (k : str -> groups -> option A) :
  rmatch ic whole (Grp n (StarLazy p)) s g k
  = star_lazy (test ic p) s
      (fun s' => k s' ((n, firstn (length s - length s') s) :: g)).
Proof. reflexivity. Qed.

(** The pattern of a change, cut before the blanks that come before the
    title. *)
Lemma re_change_cut :
  re_change
  = Seq Bos (Seq (Star is_space) (Seq (Opt (Cls star_or_dash))
      (Seq (Star is_space) (Seq (Grp 1 (alts KINDS)) (Seq (Star is_space)
        (Seq (Chr ":") (Seq (Star is_space)
          (Seq (Grp 2 (StarLazy dot)) re_change_tail)))))))).
Proof. reflexivity. Qed.

Lemma change_tail_groups ic whole s g s' g' :
  den ic whole re_change_tail s g s' g' ->
  g' = g \/ exists ds, g' = (3%nat, ds) :: g.
Proof.
  unfold re_change_tail, cat, fold_right. cbn [den].
  intros (s1 & g1 & (p1 & _ & _ & ->) & s2 & g2 & Hopt & s3 & g3
          & (p3 & _ & _ & ->) & s4 & g4 & (_ & -> & _) & _ & ->).
  destruct Hopt as [H|[_ ->]]; [|now left].
  destruct H as (sa & ga & (x & _ & _ & ->) & sb & gb & (y & _ & _ & ->)
                 & sc & gc & (gd & (z & w & _ & _ & _ & ->) & ->)
                 & sd & ge & (v & _ & _ & ->) & _ & ->).
  right. eauto.
Qed.

Lemma change_tail_more_space whole c s g g0 m :
  is_space c = true ->
  rmatch true whole re_change_tail s g (fun _ g => Some g) = Some m ->
  rmatch true whole re_change_tail (c :: s) g0 (fun _ g => Some g) <> None.
Proof.
  intros Hc H. apply rmatch_sound in H as (s' & g' & Hd & _).
  destruct (den_groups true whole re_change_tail _ _ _ _ g0 Hd) as (g0' & Hd').
  clear Hd. revert Hd'. unfold re_change_tail at 1, cat, fold_right.
  cbn [den]. intros (s1 & g1 & (p1 & -> & Hp1 & ->) & Hrest).
  eapply rmatch_complete with (s' := s') (g' := g0'); [|discriminate].
  unfold re_change_tail, cat, fold_right. cbn [den].
  exists s1, g0. split; [|exact Hrest].
  exists (c :: p1). repeat split. simpl. now rewrite test_is_space, Hc, Hp1.
Qed.

(** In a line that is read as a change, the title is what the lazy [.*?]
    takes: it has no newline, and neither starts nor ends with a blank. *)
Lemma parsed_title_shape (l : str) (m : groups) :
  re_match true re_change l = Some m ->
  exists t, group m 2 = Some t /\ forallb dot t = true /\ no_pad t = true.
Proof.
  unfold re_match. rewrite re_change_cut. intros H.
  rewrite rmatch_seq in H. apply rmatch_sound in H as (s1 & g1 & _ & H).
  rewrite rmatch_seq in H. apply rmatch_sound in H as (s2 & g2 & _ & H).
  rewrite rmatch_seq in H. apply rmatch_sound in H as (s3 & g3 & _ & H).
  rewrite rmatch_seq in H. apply rmatch_sound in H as (s4 & g4 & _ & H).
  rewrite rmatch_seq in H. apply rmatch_sound in H as (s5 & g5 & _ & H).
  rewrite rmatch_seq in H. apply rmatch_sound in H as (s6 & g6 & _ & H).
  rewrite rmatch_seq in H. apply rmatch_sound in H as (s7 & g7 & _ & H).
  rewrite rmatch_seq, rmatch_star in H.
  apply star_greedy_inv in H as (ws & s8 & _ & _ & H & Hmax).
  rewrite rmatch_seq, rmatch_grp_lazy in H.
  apply star_lazy_inv in H as (t & s9 & -> & Hdot & H & Hmin).
  rewrite (consumed _ t s9 eq_refl) in H.
  exists t. split; [|split].
  - pose proof H as Hd. apply rmatch_sound in Hd as (s' & g' & Hd & [= <-]).
    apply change_tail_groups in Hd as [->|(ds & ->)]; reflexivity.
  - rewrite <- Hdot. apply forallb_ext'. intros x. symmetry. apply test_dot.
  - destruct t as [|c0 t']; [reflexivity|].
    destruct (last_cases (c0 :: t')) as [E|(u & c1 & E)]; [discriminate|].
    apply (ends_kept_of is_space (c0 :: t') c0 t' u c1 eq_refl E).
    + destruct (is_space c0) eqn:Hc0; [exfalso|reflexivity].
      specialize (Hmax [c0] (t' ++ s9) eq_refl ltac:(discriminate)).
      cbn [forallb] in Hmax. rewrite test_is_space, Hc0 in Hmax.
      specialize (Hmax eq_refl).
      rewrite rmatch_seq, rmatch_grp_lazy in Hmax. revert Hmax.
      apply star_lazy_complete.
      * cbn [forallb] in Hdot. now apply andb_prop in Hdot as [_ Hdot].
      * exact (rmatch_groups true l re_change_tail s9 _ _ m H).
    + destruct (is_space c1) eqn:Hc1; [exfalso|reflexivity].
      specialize (Hmin u [c1] E ltac:(discriminate)). revert Hmin.
      exact (change_tail_more_space l c1 s9 _ _ m Hc1 H).
Qed.

Lemma Change_from_string_title (l : str) (c : Change) :
  Change_from_string l = Ok c ->
  exists m, re_match true re_change l = Some m /\ group m 2 = Some (title c).
Proof.
  unfold Change_from_string.
  destruct (re_match true re_change l) as [m|]; [|discriminate].
  destruct (group m 1) as [k|]; simpl; [|discriminate].
  destruct (int_or_0 (group m 3)) as [z|]; simpl; [|discriminate].
  destruct (group m 2) as [t|] eqn:Eg; [|discriminate].
  intros H. apply Change_init_fields in H as (E & _ & _).
  exists m. split; [reflexivity|]. now rewrite Eg, E.
Qed.

Lemma Change_from_string_clean (l : str) (c : Change) :
  Change_from_string l = Ok c ->
  forallb dot (title c) = true /\ no_pad (title c) = true.
Proof.
  intros H. apply Change_from_string_title in H as (m & Hm & Ht).
  apply parsed_title_shape in Hm as (t & Ht' & Hdot & Hpad).
  rewrite Ht in Ht'. injection Ht' as <-. now split.
Qed.

(** The title of a change that [Change.from_string] returns holds no
    newline and has no blank at either end, whatever the blanks of the
    line. *)
Theorem parsed_title_stripped (l : str) (c : Change) :
  Change_from_string l = Ok c ->
  forallb dot (title c) = true /\ no_pad (title c) = true.
Proof. exact (Change_from_string_clean l c). Qed.

Lemma parsed_title_stripped_witness :
  forallb dot (lit "fixed login bug") = true
  /\ no_pad (lit "fixed login bug") = true.
Proof.
  apply (parsed_title_stripped (lit "- bugFIX :  fixed login bug  (!17) ")
           (mkChange (lit "fixed login bug") (lit "Bugfix") 17)).
  vm_compute. reflexivity.
Defined.

(** A change that was read from a line is read back from the line written
    for it, but when its merge request number is 0 and its title ends with a
    reference, which happens for a line that ends with two references, the
    second one being [(!0)]. *)
Theorem parsed_change_reread (l : str) (c : Change) :
  Change_from_string l = Ok c ->
  (mr c = 0%Z -> ~ ends_with_mr (title c)) ->
  Change_from_string (Change_to_string c) = Ok c.
Proof.
  intros H Hends.
  destruct (Change_from_string_valid l c H) as (Hk & Hne & Hmr).
  destruct (Change_from_string_clean l c H) as (Hdot & Hpad).
  apply Change_roundtrip_stable; auto. repeat split; auto.
Qed.

Lemma parsed_change_reread_witness :
  Change_from_string
    (Change_to_string (mkChange (lit "fixed login bug") (lit "Bugfix") 17))
  = Ok (mkChange (lit "fixed login bug") (lit "Bugfix") 17).
Proof.
  apply (parsed_change_reread (lit "- bugFIX :  fixed login bug  (!17) ")
           (mkChange (lit "fixed login bug") (lit "Bugfix") 17)).
  - vm_compute. reflexivity.
  - intros H. discriminate H.
Defined.

(** The case left out: a line with two references, the last one to 0. *)
Lemma reference_zero_not_reread :
  Change_from_string (lit "* Bugfix: x (!5) (!0)")
  = Ok (mkChange (lit "x (!5)") (lit "Bugfix") 0)
  /\ Change_from_string
       (Change_to_string (mkChange (lit "x (!5)") (lit "Bugfix") 0))
     = Ok (mkChange (lit "x") (lit "Bugfix") 5).
Proof. split; vm_compute; reflexivity. Qed.

(** ** How the text is cut *)

Lemma splitlines_from_nil cur s : splitlines_from cur s = [] -> s = [] /\ cur = [].
Proof.
  revert cur. induction s as [|c s IH]; intros cur; cbn [splitlines_from].
  - destruct cur; [auto | discriminate].
  - destruct (ascii_dec c LF); [discriminate|].
    destruct (ascii_dec c CR).
    + destruct s as [|c' s']; [discriminate|].
      destruct (ascii_dec c' LF); discriminate.
    + intros H. apply IH in H as [_ H]. discriminate.
Qed.

Lemma crop_lines_nil (ls : list str) : crop_lines ls = [] -> ls = [].
Proof.
  rewrite crop_lines_spec. destruct (existsb truthy (map strip ls)) eqn:E.
  - intros H. unfold trim_blank in H.
    rewrite truthy_not_blank, <- existsb_trim, H in E. discriminate.
  - intros H. now apply map_eq_nil in H.
Qed.

(** [Changelog.from_string] takes a text for an empty changelog, and warns
    about it, for the empty string only: a text of blank lines is not
    empty for it. *)
Theorem empty_changelog_iff (string : str) :
  Changelog_from_string string
  = ([lit "WARNING: Changelog is emtpy"], Ok (mkChangelog []))
  <-> string = [].
Proof.
  split; [|now intros ->].
  unfold Changelog_from_string.
  destruct (crop_line_padding (Text string)) as [|line0 rest] eqn:E;
    [|discriminate].
  intros _. cbn [crop_line_padding] in E. apply crop_lines_nil in E.
  now apply splitlines_from_nil in E.
Qed.

(** The body of a changelog is cut at the lines that start a section, and
    every block is read as a version, in the order of the text; the first
    block that is not read makes the whole fail. *)
Theorem changelog_blocks (string line0 : str) (rest : list str)
    (blocks : list (list str)) :
  crop_line_padding (Text string) = line0 :: rest ->
  matches false re_top_header (lower line0) = true ->
  crop_line_padding (Lines rest) = concat blocks ->
  Forall is_section blocks ->
  Changelog_from_string string
  = ([],
     do versions <- mapM (fun b => Version_from_string (join [LF] b)) blocks;
     Ok (mkChangelog versions)).
Proof.
  intros E Htop Eb Hb. unfold Changelog_from_string.
  rewrite E, Htop, Eb. cbn [assert bind].
  now rewrite (sections_loop_spec blocks [] Hb).
Qed.

Lemma changelog_blocks_witness :
  Changelog_from_string
    (lit "# Changelog" ++ [LF] ++ lit "## v1.0.0 (1 Jan 2017)" ++ [LF]
     ++ lit "### Changes" ++ [LF] ++ lit "## oops")
  = ([],
     do versions <-
       mapM (fun b => Version_from_string (join [LF] b))
         [[lit "## v1.0.0 (1 Jan 2017)"; lit "### Changes"]; [lit "## oops"]];
     Ok (mkChangelog versions)).
Proof.
  apply (changelog_blocks _ (lit "# Changelog")
           [lit "## v1.0.0 (1 Jan 2017)"; lit "### Changes"; lit "## oops"]
           [[lit "## v1.0.0 (1 Jan 2017)"; lit "### Changes"]; [lit "## oops"]]);
    try reflexivity.
  repeat constructor.
Defined.

(** In the text of a version, the notes are the lines between the header
    and the first line reading "### Changes", and the changes are the lines
    after it that are not empty, each read by [Change.from_string], in the
    order of the text. *)
Theorem version_notes_and_changes (string line0 hdr : str)
    (rest pre post : list str) (v : Version) :
  crop_line_padding (Text string) = line0 :: rest ->
  crop_line_padding (Lines rest) = pre ++ hdr :: post ->
  Forall (fun l => matches true re_changes_header l = false) pre ->
  matches true re_changes_header hdr = true ->
  Version_from_string string = Ok v ->
  notes v = join [LF] pre
  /\ mapM Change_from_string (filter truthy (crop_line_padding (Lines post)))
     = Ok (changes v).
Proof.
  intros E Er Hpre Hhdr. unfold Version_from_string. rewrite E.
  destruct (re_match true re_version_header line0) as [m|]; [|discriminate].
  rewrite Er, (notes_loop_spec pre hdr post 0 [] None Hpre Hhdr).
  cbn [app Nat.add]. rewrite skipn_past.
  destruct (str_group (group m 1)) as [nm|]; simpl; [|discriminate].
  destruct (int_group (group m 2)) as [d|]; simpl; [|discriminate].
  destruct (str_group (group m 3)) as [M|]; simpl; [|discriminate].
  destruct (int_group (group m 4)) as [y|]; simpl; [|discriminate].
  destruct (Version_init nm d M y _) as [v0|] eqn:Ev; simpl; [|discriminate].
  destruct (mapM Change_from_string _) as [cs|] eqn:Ec; simpl; [|discriminate].
  intros [= <-]. apply Version_init_valid in Ev as (_ & _ & _ & _ & Hn & _).
  cbn [set_changes notes changes]. now split.
Qed.

Lemma version_notes_and_changes_witness :
  notes (mkVersion (lit "v1.0.0") false 1 (lit "Jan") 2017 (lit "first")
           [mkChange (lit "x") (lit "Bugfix") 0])
  = join [LF] [lit "first"]
  /\ mapM Change_from_string
       (filter truthy (crop_line_padding (Lines [[]; lit "* Bugfix: x"])))
     = Ok (changes
             (mkVersion (lit "v1.0.0") false 1 (lit "Jan") 2017 (lit "first")
                [mkChange (lit "x") (lit "Bugfix") 0])).
Proof.
  apply (version_notes_and_changes
           (lit "## v1.0.0 (1 jan 2017)" ++ [LF] ++ lit "first" ++ [LF]
            ++ lit "### CHANGES" ++ [LF; LF] ++ lit "* Bugfix: x" ++ [LF; LF])
           (lit "## v1.0.0 (1 jan 2017)") (lit "### CHANGES")
           [lit "first"; lit "### CHANGES"; []; lit "* Bugfix: x"]
           [lit "first"] [[]; lit "* Bugfix: x"]); try reflexivity.
  repeat constructor.
Defined.

(** ** The reference of a merge request in a line *)

(** What a pattern matches is at the front of the subject. *)
Lemma den_prefix ic whole r :
  forall s g s' g', den ic whole r s g s' g' -> exists pre, s = pre ++ s'.
Proof.
  induction r; intros s g s' g'; cbn [den].
  - intros [-> _]. now exists [].
  - intros [].
  - intros (-> & _). now exists [].
  - intros (-> & _). now exists [].
  - intros (x & -> & _). now exists [x].
  - intros (x & -> & _). now exists [x].
  - intros (s1 & g1 & H1 & H2).
    apply IHr1 in H1 as (p1 & ->). apply IHr2 in H2 as (p2 & ->).
    exists (p1 ++ p2). now rewrite app_assoc.
  - intros [H|H]; eauto.
  - intros (pre & -> & _). now exists pre.
  - intros (x & pre & -> & _). now exists (x :: pre).
  - intros (pre & -> & _). now exists pre.
  - intros [H|[-> _]]; [eauto | now exists []].
  - intros (g1 & H & _). eauto.
Qed.

Lemma den_group_free ic whole r :
  group_free r = true ->
  forall s g s' g', den ic whole r s g s' g' -> g' = g.
Proof.
  induction r; cbn [group_free]; intros Hf s g s' g'; cbn [den];
    try discriminate.
  - now intros [_ ->].
  - intros [].
  - now intros (_ & -> & _).
  - now intros (_ & -> & _).
  - now intros (x & _ & _ & ->).
  - now intros (x & _ & _ & ->).
  - apply andb_prop in Hf as [H1 H2]. intros (s1 & g1 & Hd1 & Hd2).
    apply (IHr1 H1) in Hd1. apply (IHr2 H2) in Hd2. congruence.
  - apply andb_prop in Hf as [H1 H2]. intros [Hd|Hd]; eauto.
  - now intros (pre & _ & _ & ->).
  - now intros (x & pre & _ & _ & _ & ->).
  - now intros (pre & _ & _ & ->).
  - intros [Hd|[_ ->]]; eauto.
Qed.

(** What the end of the pattern of a change matches: blanks only, and then
    no group is captured, or blanks, a reference and blanks. *)
Lemma change_tail_den ic whole s g s' g' :
  den ic whole re_change_tail s g s' g' ->
  g' = g
  \/ exists ws ds w,
       s = ws ++ lit "(!" ++ ds ++ ")" :: w
       /\ digits ds /\ forallb is_space w = true.
Proof.
  unfold re_change_tail, cat, fold_right. cbn [den].
  intros (s1 & g1 & (p1 & E1 & _ & G1) & s2 & g2 & Hopt & s3 & g3
          & (p3 & E3 & Hp3 & G3) & s4 & g4 & (E4 & G4 & He) & E5 & G5).
  destruct Hopt as [H|[E2 G2]]; [|left; congruence].
  destruct H as (sa & ga & (x & Ea & Hx & Ga) & sb & gb & (y & Eb & Hy & Gb)
                 & sc & gc & (gd & (z & ds & Ec & Hz & Hds & Gd) & Gc)
                 & sd & ge & (v & Ed & Hv & Ge) & Ee & Gf).
  right. apply fold_case_paren in Hx. apply fold_case_bang in Hy.
  apply fold_case_close in Hv. subst.
  exists p1, (z :: ds), (p3 ++ s3). split; [|split].
  - reflexivity.
  - split; [discriminate|]. cbn [forallb].
    rewrite test_is_digit in Hz. rewrite Hz.
    now apply forallb_test_digit_inv in Hds.
  - apply end_is_space; [now apply forallb_test_space_inv in Hp3 | exact He].
Qed.

Lemma rstrip_after (a w : str) (c : ascii) :
  is_space c = false -> forallb is_space w = true ->
  rstrip (a ++ c :: w) = a ++ [c].
Proof.
  intros Hc Hw. unfold rstrip. rewrite lstrip_dropwhile.
  replace (rev (a ++ c :: w)) with (rev w ++ c :: rev a)
    by (rewrite rev_app_distr; cbn [rev]; now rewrite <- app_assoc).
  rewrite dropwhile_app_all by (now rewrite forallb_rev).
  cbn [dropwhile]. rewrite Hc. cbn [rev]. now rewrite rev_involutive.
Qed.

Lemma group_free_kinds : group_free (alts KINDS) = true.
Proof. reflexivity. Qed.

(** A line in which group 3 took part ends, but for blanks, with a
    reference. *)
Lemma change_reference (l : str) (m : groups) (ds : str) :
  re_match true re_change l = Some m -> group m 3 = Some ds ->
  ends_with_mr (rstrip l).
Proof.
  unfold re_match. intros H Hg.
  apply rmatch_sound in H as (s' & g' & Hd & Hm). injection Hm as ->.
  rewrite re_change_cut in Hd. cbn [den] in Hd.
  destruct Hd as (s1 & g1 & (E1 & G1 & _) & s2 & g2 & (p2 & E2 & _ & G2)
                  & s3 & g3 & Hopt & s4 & g4 & (p4 & E4 & _ & G4)
                  & s5 & g5 & (ga & Hk & G5) & s6 & g6 & (p6 & E6 & _ & G6)
                  & s7 & g7 & (x & E7 & _ & G7) & s8 & g8 & (p8 & E8 & _ & G8)
                  & s9 & g9 & (gb & (t & E9 & _ & Gb) & G9) & Htail).
  assert (Hopt' : g3 = g2 /\ exists po, s2 = po ++ s3).
  { destruct Hopt as [(y & Ey & _ & Gy)|[Ey Gy]]; split; auto;
      [now exists [y] | exists []; now rewrite Ey]. }
  destruct Hopt' as (G3 & po & E3). clear Hopt.
  pose proof (den_group_free _ _ _ group_free_kinds _ _ _ _ Hk) as Ga.
  destruct (den_prefix _ _ _ _ _ _ _ Hk) as (pk & Ek). clear Hk.
  apply change_tail_den in Htail as [Gt|(ws & rs & w & Et & Hrs & Hw)].
  - subst. cbn [group Nat.eqb] in Hg. discriminate.
  - exists (p2 ++ po ++ p4 ++ pk ++ p6 ++ x :: p8 ++ t ++ ws), rs.
    split; [exact Hrs|].
    assert (El : l = (p2 ++ po ++ p4 ++ pk ++ p6 ++ x :: p8 ++ t ++ ws
                      ++ lit "(!" ++ rs) ++ ")" :: w).
    { rewrite <- E1, E2, E3, E4, Ek, E6, E7, E8, E9, Et.
      cbn [lit String.list_ascii_of_string app].
      repeat (rewrite <- app_assoc; cbn [app]). reflexivity. }
    rewrite El, (rstrip_after _ w ")" eq_refl Hw).
    cbn [lit String.list_ascii_of_string app].
    repeat (rewrite <- app_assoc; cbn [app]). reflexivity.
Qed.

(** C5: every change that [Change.from_string] returns has a merge request
    number that is not negative, and the number is 0 when the line, without
    the blanks at its end, does not end with a reference [(!<digits>)]. *)
Theorem parsed_mr_nonnegative (string : str) (c : Change) :
  Change_from_string string = Ok c ->
  (0 <= mr c)%Z /\ (~ ends_with_mr (rstrip string) -> mr c = 0%Z).
Proof.
  unfold Change_from_string.
  destruct (re_match true re_change string) as [m|] eqn:Em; [|discriminate].
  destruct (group m 1); simpl; [|discriminate].
  destruct (int_or_0 (group m 3)) as [z|] eqn:E; simpl; [|discriminate].
  destruct (group m 2); [|discriminate].
  intros H. apply Change_init_fields in H as (_ & _ & ->). split.
  - eapply int_or_0_nonneg; eauto.
  - intros Hno. destruct (group m 3) as [ds|] eqn:Eg.
    + exfalso. apply Hno. exact (change_reference string m ds Em Eg).
    + simpl in E. now injection E as <-.
Qed.

Lemma parsed_mr_nonnegative_witness :
  (0 <= mr (mkChange (lit "add dark mode") (lit "Feature") 0))%Z
  /\ mr (mkChange (lit "add dark mode") (lit "Feature") 0) = 0%Z.
Proof.
  destruct (parsed_mr_nonnegative (lit "* Feature: add dark mode")
              (mkChange (lit "add dark mode") (lit "Feature") 0))
    as [H1 H2]; [vm_compute; reflexivity|].
  split; [exact H1|]. apply H2.
  apply (not_ends_with_mr _ (lit "* Feature: add dark mod") "e");
    [reflexivity | discriminate].
Defined.

(** C8 as stated fails: a month that is not one of the twelve
    abbreviations, such as "mar", is accepted when its capitalised form is
    one of them. *)
Lemma lowercase_month_accepted :
  ~ (forall name day month year notes,
       ~ In month MONTHS ->
       exists arg,
         Version_init name day month year notes = Raise (AssertionError arg)).
Proof.
  intros H.
  destruct (H (lit "v1.2.0") 15%Z (lit "mar") 2020%Z []) as (arg & E).
  - cbn. intros Hin. repeat (destruct Hin as [Hin|Hin]; [discriminate Hin|]).
    exact Hin.
  - vm_compute in E. discriminate E.
Qed.

(** ** The round trip, field by field *)







